(** * libconveyor: ring buffer and buffered I/O engine

    A shallow embedding of
    - [include/libconveyor/detail/ring_buffer.h]  ([RingBuffer]) and
    - the engine of [conveyor.cpp] ([ConveyorImpl], the two workers and the
      public [conveyor_*] operations),
    followed by the properties established about them.

    Conventions.
    - [size_t] is a 64-bit unsigned integer: a [Z] in [0, 2^64), every
      addition and subtraction wrapped by [size_wrap].
    - [std::vector<char>] is a [list byte]; [std::memcpy] and [%] are
      partial: an out-of-bounds copy or a zero divisor is undefined
      behaviour in C++ and [None] here.
    - a method [T m(args)] of a struct with state [s] is a function
      [s -> args -> option (T * s)]; a pointer argument is the memory it
      designates, so [p += n] is [skipn n].
    - allocation succeeds; a vector has at most [PTRDIFF_MAX] elements.
    - the engine is called through a non-null [conveyor_t*]. *)

From Stdlib Require Import ZArith List Bool Lia.
Import ListNotations.
Open Scope Z_scope.

(* ------------------------------------------------------------------ *)
(** ** Machine integers and raw memory *)

Definition byte : Type := Byte.byte.

Definition SIZE_MAX : Z := 2 ^ 64 - 1.
(** [std::vector<char>::max_size()] on an LP64 platform. *)
Definition PTRDIFF_MAX : Z := 2 ^ 63 - 1.

Definition size_wrap (z : Z) : Z := z mod 2 ^ 64.
Definition size_add (a b : Z) : Z := size_wrap (a + b).
Definition size_sub (a b : Z) : Z := size_wrap (a - b).
(** [a % b]; undefined for [b = 0]. *)
Definition size_rem (a b : Z) : option Z :=
  if b =? 0 then None else Some (a mod b).

(** [off_t] and [ssize_t]: 64-bit two's complement. *)
Definition off_wrap (z : Z) : Z := (z + 2 ^ 63) mod 2 ^ 64 - 2 ^ 63.
Definition off_add (a b : Z) : Z := off_wrap (a + b).

Definition zlen (l : list byte) : Z := Z.of_nat (length l).
Definition zth (l : list byte) (i : Z) : byte := nth (Z.to_nat i) l Byte.x00.

(** [std::vector<char> v(n)]: [n] value-initialised chars. *)
Definition vector_new (n : Z) : list byte := repeat Byte.x00 (Z.to_nat n).

(** [std::memcpy(dst + doff, src + soff, n)] on two distinct arrays.
    Defined only when both ranges lie inside their arrays. *)
Definition memcpy (dst : list byte) (doff : Z) (src : list byte) (soff : Z)
                  (n : Z) : option (list byte) :=
  if (0 <=? doff) && (0 <=? soff) && (0 <=? n)
     && (doff + n <=? zlen dst) && (soff + n <=? zlen src)
  then Some (map (fun k : nat =>
                    let i := Z.of_nat k in
                    if (doff <=? i) && (i <? doff + n)
                    then zth src (soff + (i - doff))
                    else zth dst i)
                 (seq 0 (length dst)))
  else None.

(** Sequencing of partial computations. *)
Definition bind {A B : Type} (m : option A) (f : A -> option B) : option B :=
  match m with
  | Some a => f a
  | None => None
  end.

Notation "x <- m ;; k" := (bind m (fun x => k))
  (at level 61, m at next level, right associativity).
Notation "' p <- m ;; k" := (bind m (fun x => match x with p => k end))
  (at level 61, p pattern, m at next level, right associativity).

(* ------------------------------------------------------------------ *)
(** ** [struct RingBuffer] (ring_buffer.h) *)

Module RingBuffer.

Record t : Type := mk {
  buffer : list byte;
  capacity : Z;
  head : Z;
  tail : Z;
  size : Z
}.

(** [RingBuffer(size_t cap) : capacity(cap), buffer(cap) {}] *)
Definition make (cap : Z) : t :=
  {| buffer := vector_new cap; capacity := cap;
     head := 0; tail := 0; size := 0 |}.

Definition resize (rb : t) (new_capacity : Z) : option t :=
  if new_capacity <=? capacity rb then Some rb   (* only support growing *)
  else
    let new_buffer := vector_new new_capacity in
    nb <- (if size rb >? 0 then
             if head rb >? tail rb then
               (* data is in a single contiguous block *)
               memcpy new_buffer 0 (buffer rb) (tail rb) (size rb)
             else
               (* data is in two parts (wrapped) *)
               let first_chunk := size_sub (capacity rb) (tail rb) in
               b1 <- memcpy new_buffer 0 (buffer rb) (tail rb) first_chunk ;;
               memcpy b1 first_chunk (buffer rb) 0 (head rb)
           else Some new_buffer) ;;
    Some {| buffer := nb; capacity := new_capacity;
            head := size rb; tail := 0; size := size rb |}.

(** [size_t write(const char* data, size_t len)]; [data] is the memory
    the pointer designates. *)
Definition write (rb : t) (data : list byte) (len : Z) : option (Z * t) :=
  if len =? 0 then Some (0, rb)
  else
    let bytes_to_write := Z.min len (size_sub (capacity rb) (size rb)) in
    if bytes_to_write =? 0 then Some (0, rb)
    else
      let first_chunk_len :=
        Z.min bytes_to_write (size_sub (capacity rb) (head rb)) in
      b1 <- memcpy (buffer rb) (head rb) data 0 first_chunk_len ;;
      b2 <- (if bytes_to_write >? first_chunk_len
             then memcpy b1 0 data first_chunk_len
                         (bytes_to_write - first_chunk_len)
             else Some b1) ;;
      h <- size_rem (size_add (head rb) bytes_to_write) (capacity rb) ;;
      Some (bytes_to_write,
            {| buffer := b2; capacity := capacity rb; head := h;
               tail := tail rb;
               size := size_add (size rb) bytes_to_write |}).

(** [size_t read(char* data, size_t len)]; [data = None] is [nullptr]
    (discard), [Some d] the memory the pointer designates. *)
Definition read (rb : t) (data : option (list byte)) (len : Z)
  : option (Z * option (list byte) * t) :=
  if len =? 0 then Some (0, data, rb)
  else
    let bytes_to_read := Z.min len (size rb) in
    if bytes_to_read =? 0 then Some (0, data, rb)
    else
      data' <- match data with
               | Some d =>
                   let first_chunk_len :=
                     Z.min bytes_to_read
                           (size_sub (capacity rb) (tail rb)) in
                   d1 <- memcpy d 0 (buffer rb) (tail rb) first_chunk_len ;;
                   d2 <- (if bytes_to_read >? first_chunk_len
                          then memcpy d1 first_chunk_len (buffer rb) 0
                                      (bytes_to_read - first_chunk_len)
                          else Some d1) ;;
                   Some (Some d2)
               | None => Some None
               end ;;
      tl <- size_rem (size_add (tail rb) bytes_to_read) (capacity rb) ;;
      Some (bytes_to_read, data',
            {| buffer := buffer rb; capacity := capacity rb;
               head := head rb; tail := tl;
               size := size_sub (size rb) bytes_to_read |}).

(** [size_t peek_at(size_t absolute_ring_pos, char* dest, size_t len) const].
    The method is [const]: the buffer it returns is the one it was given. *)
Definition peek_at (rb : t) (absolute_ring_pos : Z) (dest : list byte)
                   (len : Z) : option (Z * list byte * t) :=
  offset <- size_rem absolute_ring_pos (capacity rb) ;;
  let first_chunk := Z.min len (size_sub (capacity rb) offset) in
  d1 <- memcpy dest 0 (buffer rb) offset first_chunk ;;
  d2 <- (if len >? first_chunk
         then memcpy d1 first_chunk (buffer rb) 0 (len - first_chunk)
         else Some d1) ;;
  Some (len, d2, rb).

Definition clear (rb : t) : t :=
  {| buffer := buffer rb; capacity := capacity rb;
     head := 0; tail := 0; size := 0 |}.

Definition empty (rb : t) : bool := size rb =? 0.
Definition full (rb : t) : bool := size rb =? capacity rb.
Definition available_space (rb : t) : Z := size_sub (capacity rb) (size rb).
Definition available_data (rb : t) : Z := size rb.

(** *** Representation invariant and abstraction function *)

(** The invariant of the data model: the vector holds [capacity] chars
    (and so [capacity <= max_size()]), [0 <= size <= capacity], both
    indices lie in [[0, capacity)], and [head] is [size] places after
    [tail], modulo [capacity]. *)
Record wf (rb : t) : Prop := mk_wf {
  wf_buffer : zlen (buffer rb) = capacity rb;
  wf_alloc : capacity rb <= PTRDIFF_MAX;
  wf_size : 0 <= size rb <= capacity rb;
  wf_head : 0 <= head rb < capacity rb;
  wf_tail : 0 <= tail rb < capacity rb;
  wf_pos : head rb = (tail rb + size rb) mod capacity rb
}.

(** The bounds alone, without the link between [head] and [tail]. *)
Definition bounds (rb : t) : Prop :=
  0 <= size rb <= capacity rb /\
  0 <= head rb < capacity rb /\
  0 <= tail rb < capacity rb.

(** Physical index of the [i]-th logical byte. *)
Definition index (rb : t) (i : Z) : Z := (tail rb + i) mod capacity rb.

(** The logical contents: the bytes at [tail, tail+1, ..., tail+size-1]
    modulo [capacity], oldest first. *)
Definition contents (rb : t) : list byte :=
  map (fun k : nat => zth (buffer rb) (index rb (Z.of_nat k)))
      (seq 0 (Z.to_nat (size rb))).

End RingBuffer.

(* ------------------------------------------------------------------ *)
(** ** Platform constants

    The values of [<fcntl.h>], [<cstdio>] and [<cerrno>] on Linux;
    [O_ACCMODE] and [LIBCONVEYOR_ERROR] as the sources define them. *)

Definition O_RDONLY : Z := 0.
Definition O_WRONLY : Z := 1.
Definition O_RDWR : Z := 2.
Definition O_APPEND : Z := 1024.
Definition O_ACCMODE : Z := Z.lor (Z.lor O_RDONLY O_WRONLY) O_RDWR.
Definition SEEK_SET : Z := 0.
Definition SEEK_CUR : Z := 1.
Definition SEEK_END : Z := 2.
Definition EIO : Z := 5.
Definition EBADF : Z := 9.
Definition EMSGSIZE : Z := 90.
Definition LIBCONVEYOR_ERROR : Z := -1.

(* ------------------------------------------------------------------ *)
(** ** The backing store: [storage_operations_t] (conveyor.h)

    Three caller-supplied callbacks.  A callback acts on the state [S] of
    the backing store and yields its return value, the [errno] it sets in
    the calling thread (if any) and, for [read], the bytes it stored. *)

Record io_result : Type := mk_io {
  io_ret : Z;
  io_errno : option Z;
  io_data : list byte
}.

Module storage_operations_t.
Record t (S : Type) : Type := mk {
  (** [ssize_t write(storage_handle_t, const void* buf, size_t count)] *)
  write : Z -> list byte -> Z -> S -> io_result * S;
  (** [ssize_t read(storage_handle_t, void* buf, size_t count)] *)
  read : Z -> Z -> S -> io_result * S;
  (** [off_t lseek(storage_handle_t, off_t offset, int whence)] *)
  lseek : Z -> Z -> Z -> S -> io_result * S
}.
Arguments write {S}.
Arguments read {S}.
Arguments lseek {S}.
End storage_operations_t.

(** Callback invocations, in the order they happened. *)
Inductive io_event : Type :=
| IoWrite (buf : list byte) (count : Z) (ret : Z)
| IoRead (count : Z) (ret : Z)
| IoLseek (offset whence : Z) (ret : Z).

(** The bytes handed to the [write] callback so far, in order. *)
Definition delivered (log : list io_event) : list byte :=
  flat_map (fun e => match e with
                     | IoWrite buf count _ => firstn (Z.to_nat count) buf
                     | _ => []
                     end) log.

(* ------------------------------------------------------------------ *)
(** ** [struct ConveyorImpl] (conveyor.cpp)

    The threads, mutexes and condition variables of the struct are not
    data: they are the scheduling model further down.  [ops], fixed at
    creation, is a parameter of the engine.  conveyor.cpp carries its own
    copy of [RingBuffer] with the [write], [read] and [clear] of
    ring_buffer.h (less the null test in [read], which the engine never
    meets); both rings are modelled by [RingBuffer.t]. *)

Record ConveyorImpl : Type := mk_impl {
  handle : Z;
  flags : Z;
  write_buffer_enabled : bool;
  write_buffer : RingBuffer.t;
  write_worker_stop_flag : bool;
  write_buffer_needs_flush : bool;
  current_pos_in_storage : Z;
  read_buffer_enabled : bool;
  read_buffer : RingBuffer.t;
  read_worker_stop_flag : bool;
  read_buffer_stale : bool;
  read_worker_needs_fill : bool;
  read_eof_flag : bool;
  current_file_offset : Z
}.

Definition set_write_buffer (c : ConveyorImpl) (v : RingBuffer.t) :=
  mk_impl (handle c) (flags c) (write_buffer_enabled c) v
    (write_worker_stop_flag c) (write_buffer_needs_flush c)
    (current_pos_in_storage c) (read_buffer_enabled c) (read_buffer c)
    (read_worker_stop_flag c) (read_buffer_stale c)
    (read_worker_needs_fill c) (read_eof_flag c) (current_file_offset c).
Definition set_write_buffer_needs_flush (c : ConveyorImpl) (v : bool) :=
  mk_impl (handle c) (flags c) (write_buffer_enabled c) (write_buffer c)
    (write_worker_stop_flag c) v
    (current_pos_in_storage c) (read_buffer_enabled c) (read_buffer c)
    (read_worker_stop_flag c) (read_buffer_stale c)
    (read_worker_needs_fill c) (read_eof_flag c) (current_file_offset c).
Definition set_current_pos_in_storage (c : ConveyorImpl) (v : Z) :=
  mk_impl (handle c) (flags c) (write_buffer_enabled c) (write_buffer c)
    (write_worker_stop_flag c) (write_buffer_needs_flush c)
    v (read_buffer_enabled c) (read_buffer c)
    (read_worker_stop_flag c) (read_buffer_stale c)
    (read_worker_needs_fill c) (read_eof_flag c) (current_file_offset c).
Definition set_read_buffer (c : ConveyorImpl) (v : RingBuffer.t) :=
  mk_impl (handle c) (flags c) (write_buffer_enabled c) (write_buffer c)
    (write_worker_stop_flag c) (write_buffer_needs_flush c)
    (current_pos_in_storage c) (read_buffer_enabled c) v
    (read_worker_stop_flag c) (read_buffer_stale c)
    (read_worker_needs_fill c) (read_eof_flag c) (current_file_offset c).
Definition set_read_buffer_stale (c : ConveyorImpl) (v : bool) :=
  mk_impl (handle c) (flags c) (write_buffer_enabled c) (write_buffer c)
    (write_worker_stop_flag c) (write_buffer_needs_flush c)
    (current_pos_in_storage c) (read_buffer_enabled c) (read_buffer c)
    (read_worker_stop_flag c) v
    (read_worker_needs_fill c) (read_eof_flag c) (current_file_offset c).
Definition set_read_worker_needs_fill (c : ConveyorImpl) (v : bool) :=
  mk_impl (handle c) (flags c) (write_buffer_enabled c) (write_buffer c)
    (write_worker_stop_flag c) (write_buffer_needs_flush c)
    (current_pos_in_storage c) (read_buffer_enabled c) (read_buffer c)
    (read_worker_stop_flag c) (read_buffer_stale c)
    v (read_eof_flag c) (current_file_offset c).
Definition set_read_eof_flag (c : ConveyorImpl) (v : bool) :=
  mk_impl (handle c) (flags c) (write_buffer_enabled c) (write_buffer c)
    (write_worker_stop_flag c) (write_buffer_needs_flush c)
    (current_pos_in_storage c) (read_buffer_enabled c) (read_buffer c)
    (read_worker_stop_flag c) (read_buffer_stale c)
    (read_worker_needs_fill c) v (current_file_offset c).
Definition set_current_file_offset (c : ConveyorImpl) (v : Z) :=
  mk_impl (handle c) (flags c) (write_buffer_enabled c) (write_buffer c)
    (write_worker_stop_flag c) (write_buffer_needs_flush c)
    (current_pos_in_storage c) (read_buffer_enabled c) (read_buffer c)
    (read_worker_stop_flag c) (read_buffer_stale c)
    (read_worker_needs_fill c) (read_eof_flag c) v.

(** [std::vector<char>::resize(n)]: keeps the first [n] chars, pads with
    zeros. *)
Definition vector_resize (v : list byte) (n : Z) : list byte :=
  firstn (Z.to_nat n) v ++ repeat Byte.x00 (Z.to_nat n - length v).

(* ------------------------------------------------------------------ *)
(** ** Threads

    Every thread is a program counter.  One scheduling step runs a thread
    from the point where it holds (or re-acquires) its mutex to the point
    where it next releases it: a critical section, or the unlocked call
    into the backing store between two of them.  A thread parked in
    [condition_variable::wait(lock, pred)] can only step once [pred]
    holds. *)

(** [ConveyorImpl::writeWorker]; [temp_flush_buffer] is its local vector. *)
Inductive write_worker_pc : Type :=
| WW_none                                  (* thread never started *)
| WW_wait (temp_flush_buffer : list byte)  (* in write_cv_consumer.wait *)
| WW_io (temp_flush_buffer : list byte) (bytes_to_flush : Z)
                                           (* after lock.unlock() *)
| WW_relock (temp_flush_buffer : list byte) (written_to_storage : Z)
                                           (* before lock.lock() *)
| WW_exit.

(** [ConveyorImpl::readWorker]; [temp_read_buffer] is its local vector. *)
Inductive read_worker_pc : Type :=
| RW_none
| RW_wait (temp_read_buffer : list byte)   (* in read_cv_producer.wait *)
| RW_io (temp_read_buffer : list byte) (bytes_to_read_from_storage : Z)
| RW_relock (temp_read_buffer : list byte) (bytes_read_from_ops : Z)
| RW_exit.

(** The client thread: idle between two calls, or parked inside one. *)
Inductive client_pc : Type :=
| C_idle
| C_write_wait (current_buf_ptr : list byte)
               (remaining_count bytes_written_to_buffer : Z)
                                           (* in write_cv_producer.wait *)
| C_read_wait (filled current_buf_ptr : list byte)
              (remaining_count bytes_read_total : Z)
                                           (* in read_cv_consumer.wait *)
| C_flush_wait.                            (* in write_cv_producer.wait *)

(** What a completed client call handed back: its return value and, for
    [conveyor_read], the caller's buffer. *)
Record api_return : Type := mk_ret {
  ret : Z;
  out : list byte
}.

Section Engine.

Variable Store : Type.
Variable ops : storage_operations_t.t Store.

Record World : Type := mk_world {
  impl : ConveyorImpl;
  storage : Store;
  wworker : write_worker_pc;
  rworker : read_worker_pc;
  client : client_pc;
  errno : Z;                  (* the client thread's errno *)
  io_log : list io_event;     (* callbacks invoked so far *)
  returns : list api_return   (* results of the client's calls *)
}.

Definition with_impl (w : World) (c : ConveyorImpl) : World :=
  mk_world c (storage w) (wworker w) (rworker w) (client w) (errno w)
           (io_log w) (returns w).
Definition with_wworker (w : World) (p : write_worker_pc) : World :=
  mk_world (impl w) (storage w) p (rworker w) (client w) (errno w)
           (io_log w) (returns w).
Definition with_rworker (w : World) (p : read_worker_pc) : World :=
  mk_world (impl w) (storage w) (wworker w) p (client w) (errno w)
           (io_log w) (returns w).
Definition with_client (w : World) (p : client_pc) : World :=
  mk_world (impl w) (storage w) (wworker w) (rworker w) p (errno w)
           (io_log w) (returns w).
(** A callback ran: new store, one more log entry. *)
Definition with_io (w : World) (st : Store) (e : io_event) : World :=
  mk_world (impl w) st (wworker w) (rworker w) (client w) (errno w)
           (io_log w ++ [e]) (returns w).
(** The client's call returns [r], leaving [errno] at [e]. *)
Definition returning (w : World) (e : Z) (r : api_return) : World :=
  mk_world (impl w) (storage w) (wworker w) (rworker w) C_idle e
           (io_log w) (returns w ++ [r]).

(** *** [conveyor_create] *)

Definition conveyor_create (handle flags : Z) (st : Store)
           (write_buffer_size read_buffer_size : Z) : World :=
  let access_mode := Z.land flags O_ACCMODE in
  let read_enabled :=
    (access_mode =? O_RDONLY) || (access_mode =? O_RDWR) in
  let write_enabled :=
    (access_mode =? O_WRONLY) || (access_mode =? O_RDWR) in
  {| impl := {| handle := handle;
                flags := flags;
                write_buffer_enabled := write_enabled;
                write_buffer := RingBuffer.make write_buffer_size;
                write_worker_stop_flag := false;
                write_buffer_needs_flush := false;
                current_pos_in_storage := 0;
                read_buffer_enabled := read_enabled;
                read_buffer := RingBuffer.make read_buffer_size;
                read_worker_stop_flag := false;
                read_buffer_stale := false;
                read_worker_needs_fill := false;
                read_eof_flag := false;
                current_file_offset := 0 |};
     storage := st;
     wworker := if write_enabled
                then WW_wait (vector_new 0) else WW_none;
     rworker := if read_enabled
                then RW_wait (vector_new 0) else RW_none;
     client := C_idle;
     errno := 0;
     io_log := [];
     returns := [] |}.

(** *** [ConveyorImpl::writeWorker], one step

    The [errno] a callback sets inside a worker is that thread's own; no
    code reads it. *)

Definition writeWorker (w : World) : option World :=
  let c := impl w in
  match wworker w with
  | WW_wait temp =>
      if (RingBuffer.available_data (write_buffer c) >? 0)
         || write_buffer_needs_flush c || write_worker_stop_flag c
      then
        if write_worker_stop_flag c && RingBuffer.empty (write_buffer c)
        then Some (with_wworker w WW_exit)
        else
          let bytes_to_flush := RingBuffer.available_data (write_buffer c) in
          '(temp', wb) <-
            (if bytes_to_flush >? 0 then
               let temp1 := vector_resize temp bytes_to_flush in
               '(_, d, rb) <- RingBuffer.read (write_buffer c) (Some temp1)
                                              bytes_to_flush ;;
               Some (match d with Some t => t | None => temp1 end, rb)
             else Some (temp, write_buffer c)) ;;
          let do_flush_now := write_buffer_needs_flush c in
          let c1 := set_write_buffer c wb in
          let c2 := if do_flush_now
                    then set_write_buffer_needs_flush c1 false else c1 in
          if bytes_to_flush >? 0
          then Some (with_wworker (with_impl w c2) (WW_io temp' bytes_to_flush))
          else Some (with_wworker (with_impl w c2) (WW_wait temp'))
      else None
  | WW_io temp bytes_to_flush =>
      let w1 :=
        if negb (Z.land (flags c) O_APPEND =? 0) then
          let '(r, st) := storage_operations_t.lseek ops (handle c) 0
                                                     SEEK_END (storage w) in
          with_io w st (IoLseek 0 SEEK_END (io_ret r))
        else w in
      let '(r, st) := storage_operations_t.write ops (handle c) temp
                                                 bytes_to_flush (storage w1) in
      Some (with_wworker (with_io w1 st (IoWrite temp bytes_to_flush (io_ret r)))
                         (WW_relock temp (io_ret r)))
  | WW_relock temp written_to_storage =>
      let c1 := if written_to_storage >? 0
                then set_current_pos_in_storage c
                       (off_add (current_pos_in_storage c) written_to_storage)
                else c in
      Some (with_wworker (with_impl w c1) (WW_wait temp))
  | WW_none | WW_exit => None
  end.

(** *** [ConveyorImpl::readWorker], one step *)

Definition readWorker (w : World) : option World :=
  let c := impl w in
  match rworker w with
  | RW_wait temp =>
      if (RingBuffer.available_space (read_buffer c) >? 0)
         || read_buffer_stale c || read_worker_stop_flag c
         || read_worker_needs_fill c
      then
        if read_worker_stop_flag c then Some (with_rworker w RW_exit)
        else
          let c1 := if read_buffer_stale c
                    then set_read_buffer_stale
                           (set_read_buffer c (RingBuffer.clear (read_buffer c)))
                           false
                    else c in
          if (RingBuffer.available_space (read_buffer c1) >? 0)
             && negb (read_worker_stop_flag c1)
          then
            let w1 :=
              if negb (current_pos_in_storage c1 =?
                       off_add (current_file_offset c1)
                               (RingBuffer.available_data (read_buffer c1)))
              then
                let '(r, st) := storage_operations_t.lseek ops (handle c1)
                                  (current_pos_in_storage c1) SEEK_SET
                                  (storage w) in
                with_io w st (IoLseek (current_pos_in_storage c1) SEEK_SET
                                      (io_ret r))
              else w in
            let bytes_to_read_from_storage :=
              RingBuffer.available_space (read_buffer c1) in
            Some (with_rworker (with_impl w1 c1)
                    (RW_io (vector_resize temp bytes_to_read_from_storage)
                           bytes_to_read_from_storage))
          else
            let c2 := if read_worker_needs_fill c1
                      then set_read_worker_needs_fill c1 false else c1 in
            Some (with_rworker (with_impl w c2) (RW_wait temp))
      else None
  | RW_io temp n =>
      let '(r, st) := storage_operations_t.read ops (handle c) n (storage w) in
      let filled := Z.to_nat (Z.max 0 (io_ret r)) in
      let temp' := firstn filled (io_data r) ++ skipn filled temp in
      Some (with_rworker (with_io w st (IoRead n (io_ret r)))
                         (RW_relock temp' (io_ret r)))
  | RW_relock temp bytes_read_from_ops =>
      c1 <- (if bytes_read_from_ops >? 0 then
               '(_, rb) <- RingBuffer.write (read_buffer c) temp
                                            bytes_read_from_ops ;;
               Some (set_current_pos_in_storage (set_read_buffer c rb)
                       (off_add (current_pos_in_storage c) bytes_read_from_ops))
             else if bytes_read_from_ops =? 0
                  then Some (set_read_eof_flag c true)
                  else Some c) ;;
      let c2 := if read_worker_needs_fill c1
                then set_read_worker_needs_fill c1 false else c1 in
      Some (with_rworker (with_impl w c2) (RW_wait temp))
  | RW_none | RW_exit => None
  end.

(** *** [conveyor_write] *)

(** How a run of a loop containing a [wait] ends: the loop is left, or
    the thread parks in the [wait] with its mutex released. *)
Inductive write_loop_result : Type :=
| W_done (c : ConveyorImpl) (bytes_written_to_buffer : Z)
| W_blocked (c : ConveyorImpl) (current_buf_ptr : list byte)
            (remaining_count bytes_written_to_buffer : Z).

(** The [while (remaining_count > 0 && !write_worker_stop_flag)] loop,
    entered with [write_mutex] held.  Every iteration that is not left
    accepts at least one byte, so [fuel] above [remaining_count] is never
    used up. *)
Fixpoint conveyor_write_loop (fuel : nat) (c : ConveyorImpl)
         (current_buf_ptr : list byte)
         (remaining_count bytes_written_to_buffer : Z)
  : option write_loop_result :=
  if (remaining_count >? 0) && negb (write_worker_stop_flag c) then
    if (RingBuffer.available_space (write_buffer c) >? 0)
       || write_worker_stop_flag c
    then
      if write_worker_stop_flag c
      then Some (W_done c bytes_written_to_buffer)
      else
        match fuel with
        | O => None
        | S fuel' =>
            '(written_this_iter, wb) <-
              RingBuffer.write (write_buffer c) current_buf_ptr
                               remaining_count ;;
            let c' := set_current_file_offset (set_write_buffer c wb)
                        (off_add (current_file_offset c) written_this_iter) in
            conveyor_write_loop fuel' c'
              (skipn (Z.to_nat written_this_iter) current_buf_ptr)
              (size_sub remaining_count written_this_iter)
              (off_add bytes_written_to_buffer written_this_iter)
        end
    else Some (W_blocked c current_buf_ptr remaining_count
                         bytes_written_to_buffer)
  else Some (W_done c bytes_written_to_buffer).

(** From the loop to the [return].  The section under [write_mutex] that
    ends the loop and the one under [read_mutex] that invalidates the read
    cache run back to back. *)
Definition conveyor_write_from (w : World) (current_buf_ptr : list byte)
           (remaining_count bytes_written_to_buffer : Z) : option World :=
  r <- conveyor_write_loop (S (Z.to_nat remaining_count)) (impl w)
                           current_buf_ptr remaining_count
                           bytes_written_to_buffer ;;
  match r with
  | W_blocked c cur rem wr =>
      Some (with_client (with_impl w c) (C_write_wait cur rem wr))
  | W_done c wr =>
      let c1 :=
        if read_buffer_enabled c && negb (Z.land (flags c) O_RDWR =? 0)
        then set_read_buffer_stale
               (set_read_buffer c (RingBuffer.clear (read_buffer c))) true
        else c in
      Some (returning (with_impl w c1) (errno w) (mk_ret wr []))
  end.

Definition conveyor_write (w : World) (buf : list byte) (count : Z)
  : option World :=
  if negb (write_buffer_enabled (impl w))
  then Some (returning w EBADF (mk_ret LIBCONVEYOR_ERROR []))
  else conveyor_write_from w buf count 0.

(** *** [conveyor_read] *)

Inductive read_loop_result : Type :=
| R_done (c : ConveyorImpl) (filled current_buf_ptr : list byte)
         (bytes_read_total : Z)
| R_blocked (c : ConveyorImpl) (filled current_buf_ptr : list byte)
            (remaining_count bytes_read_total : Z).

(** The [while (remaining_count > 0 && !read_worker_stop_flag)] loop,
    entered with [read_mutex] held; [woken] says that the run starts
    inside the loop body, at the [wait] the thread was parked in.
    [filled] is the part of the caller's buffer before
    [current_buf_ptr]. *)
Fixpoint conveyor_read_loop (fuel : nat) (c : ConveyorImpl)
         (filled current_buf_ptr : list byte)
         (remaining_count bytes_read_total : Z) (woken : bool)
  : option read_loop_result :=
  match fuel with
  | O => None
  | S fuel' =>
      let body (c : ConveyorImpl) :=
        let bytes_to_read_this_iter :=
          Z.min remaining_count (RingBuffer.available_data (read_buffer c)) in
        '(read_this_iter, d, rb) <-
          RingBuffer.read (read_buffer c) (Some current_buf_ptr)
                          bytes_to_read_this_iter ;;
        let mem := match d with Some m => m | None => current_buf_ptr end in
        let n := Z.to_nat read_this_iter in
        let c' := set_current_file_offset (set_read_buffer c rb)
                    (off_add (current_file_offset c) read_this_iter) in
        conveyor_read_loop fuel' c' (filled ++ firstn n mem) (skipn n mem)
          (size_sub remaining_count read_this_iter)
          (off_add bytes_read_total read_this_iter) false in
      let wait (c : ConveyorImpl) :=
        if (RingBuffer.available_data (read_buffer c) >? 0)
           || read_eof_flag c || read_worker_stop_flag c
        then
          if RingBuffer.available_data (read_buffer c) =? 0
          then Some (R_done c filled current_buf_ptr bytes_read_total)
          else body c
        else Some (R_blocked c filled current_buf_ptr remaining_count
                             bytes_read_total) in
      if woken then wait c
      else if (remaining_count >? 0) && negb (read_worker_stop_flag c) then
        if RingBuffer.empty (read_buffer c) then
          if read_eof_flag c
          then Some (R_done c filled current_buf_ptr bytes_read_total)
          else wait (set_read_worker_needs_fill c true)
        else body c
      else Some (R_done c filled current_buf_ptr bytes_read_total)
  end.

Definition conveyor_read_from (w : World) (filled current_buf_ptr : list byte)
           (remaining_count bytes_read_total : Z) (woken : bool)
  : option World :=
  r <- conveyor_read_loop (S (S (Z.to_nat remaining_count)))
                          (impl w) filled current_buf_ptr remaining_count
                          bytes_read_total woken ;;
  match r with
  | R_blocked c f cur rem tot =>
      Some (with_client (with_impl w c) (C_read_wait f cur rem tot))
  | R_done c f cur tot =>
      Some (returning (with_impl w c) (errno w) (mk_ret tot (f ++ cur)))
  end.

Definition conveyor_read (w : World) (buf : list byte) (count : Z)
  : option World :=
  if negb (read_buffer_enabled (impl w))
  then Some (returning w EBADF (mk_ret LIBCONVEYOR_ERROR buf))
  else conveyor_read_from w [] buf count 0 false.

(** *** [conveyor_lseek]

    One critical section under both mutexes. *)

Definition conveyor_lseek (w : World) (offset whence : Z) : World :=
  let c := impl w in
  let '(r, st) := storage_operations_t.lseek ops (handle c) offset whence
                                             (storage w) in
  let new_pos := io_ret r in
  let c' :=
    if negb (new_pos =? LIBCONVEYOR_ERROR) then
      let c1 := if read_buffer_enabled c
                then set_read_eof_flag
                       (set_read_buffer_stale
                          (set_read_buffer c (RingBuffer.clear (read_buffer c)))
                          true)
                       false
                else c in
      let c2 := if write_buffer_enabled c1
                then set_write_buffer c1 (RingBuffer.clear (write_buffer c1))
                else c1 in
      set_current_pos_in_storage (set_current_file_offset c2 new_pos) new_pos
    else c in
  let e := match io_errno r with Some e => e | None => errno w end in
  returning (with_impl (with_io w st (IoLseek offset whence new_pos)) c')
            e (mk_ret new_pos []).

(** *** [conveyor_flush] *)

(** From the [wait] of [conveyor_flush] to its [return 0]; [None] while
    the predicate of the [wait] is false. *)
Definition conveyor_flush_wake (w : World) : option World :=
  let c := impl w in
  if RingBuffer.empty (write_buffer c) || write_worker_stop_flag c
  then Some (returning (with_impl w (set_write_buffer_needs_flush c false))
                       (errno w) (mk_ret 0 []))
  else None.

Definition conveyor_flush (w : World) : World :=
  let c := impl w in
  if negb (write_buffer_enabled c)
  then returning w (errno w) (mk_ret 0 [])
  else if RingBuffer.available_data (write_buffer c) >? 0 then
    let w1 := with_impl w (set_write_buffer_needs_flush c true) in
    match conveyor_flush_wake w1 with
    | Some w2 => w2
    | None => with_client w1 C_flush_wait
    end
  else returning (with_impl w (set_write_buffer_needs_flush c false))
                 (errno w) (mk_ret 0 []).

(** *** Schedules *)

Inductive call : Type :=
| Call_write (buf : list byte) (count : Z)
| Call_read (buf : list byte) (count : Z)
| Call_lseek (offset whence : Z)
| Call_flush.

Inductive action : Type :=
| Client (c : call)    (* the idle client makes a call *)
| Wake                 (* the parked client leaves its wait *)
| WriteWorker          (* writeWorker runs one step *)
| ReadWorker.          (* readWorker runs one step *)

(** One step of the system; [None] when the thread cannot run. *)
Definition step (w : World) (a : action) : option World :=
  match a, client w with
  | Client (Call_write buf count), C_idle => conveyor_write w buf count
  | Client (Call_read buf count), C_idle => conveyor_read w buf count
  | Client (Call_lseek offset whence), C_idle =>
      Some (conveyor_lseek w offset whence)
  | Client Call_flush, C_idle => Some (conveyor_flush w)
  | Client _, _ => None
  | Wake, C_write_wait cur rem wr =>
      if (RingBuffer.available_space (write_buffer (impl w)) >? 0)
         || write_worker_stop_flag (impl w)
      then conveyor_write_from w cur rem wr else None
  | Wake, C_read_wait f cur rem tot =>
      if (RingBuffer.available_data (read_buffer (impl w)) >? 0)
         || read_eof_flag (impl w) || read_worker_stop_flag (impl w)
      then conveyor_read_from w f cur rem tot true else None
  | Wake, C_flush_wait => conveyor_flush_wake w
  | Wake, C_idle => None
  | WriteWorker, _ => writeWorker w
  | ReadWorker, _ => readWorker w
  end.

Fixpoint run (w : World) (schedule : list action) : option World :=
  match schedule with
  | [] => Some w
  | a :: rest => w' <- step w a ;; run w' rest
  end.

End Engine.

Arguments impl {Store}.
Arguments storage {Store}.
Arguments wworker {Store}.
Arguments rworker {Store}.
Arguments client {Store}.
Arguments errno {Store}.
Arguments io_log {Store}.
Arguments returns {Store}.

(* ------------------------------------------------------------------ *)
(** ** Test doubles for the backing store

    [mock_write], [mock_read] and [mock_lseek] are the position-based
    callbacks of test/conveyor_test.cpp; [mock_write_fail_once] fails its
    first call with [EIO] as [mock_pwrite_fail_once] does there;
    [lseek_callback] is the one of test/mock_storage.hpp. *)

Module Mock.

Record t : Type := mk {
  g_mock_storage_data : list byte;
  g_mock_storage_pos : Z;
  g_pwrite_fail_once_counter : Z
}.

Definition empty_storage : t :=
  {| g_mock_storage_data := []; g_mock_storage_pos := 0;
     g_pwrite_fail_once_counter := 0 |}.

Definition mock_write (h : Z) (buf : list byte) (count : Z) (st : t)
  : io_result * t :=
  let pos := g_mock_storage_pos st in
  let data := g_mock_storage_data st in
  let data1 := if pos + count >? zlen data
               then vector_resize data (pos + count) else data in
  let data2 := match memcpy data1 pos buf 0 count with
               | Some d => d
               | None => data1
               end in
  (mk_io count None [],
   {| g_mock_storage_data := data2;
      g_mock_storage_pos := off_add pos count;
      g_pwrite_fail_once_counter := g_pwrite_fail_once_counter st |}).

Definition mock_write_fail_once (h : Z) (buf : list byte) (count : Z)
           (st : t) : io_result * t :=
  let st1 := {| g_mock_storage_data := g_mock_storage_data st;
                g_mock_storage_pos := g_mock_storage_pos st;
                g_pwrite_fail_once_counter :=
                  g_pwrite_fail_once_counter st + 1 |} in
  if g_pwrite_fail_once_counter st =? 0
  then (mk_io LIBCONVEYOR_ERROR (Some EIO) [], st1)
  else mock_write h buf count st1.

Definition mock_read (h : Z) (count : Z) (st : t) : io_result * t :=
  let pos := g_mock_storage_pos st in
  let data := g_mock_storage_data st in
  let bytes_to_read :=
    if pos <? zlen data then Z.min count (zlen data - pos) else 0 in
  if bytes_to_read >? 0 then
    (mk_io bytes_to_read None
           (firstn (Z.to_nat bytes_to_read) (skipn (Z.to_nat pos) data)),
     {| g_mock_storage_data := data;
        g_mock_storage_pos := off_add pos bytes_to_read;
        g_pwrite_fail_once_counter := g_pwrite_fail_once_counter st |})
  else (mk_io bytes_to_read None [], st).

Definition mock_lseek (h : Z) (offset whence : Z) (st : t)
  : io_result * t :=
  let new_pos :=
    if whence =? SEEK_SET then offset
    else if whence =? SEEK_CUR then g_mock_storage_pos st + offset
    else if whence =? SEEK_END then zlen (g_mock_storage_data st) + offset
    else -1 in
  if new_pos >=? 0
  then (mk_io new_pos None [],
        {| g_mock_storage_data := g_mock_storage_data st;
           g_mock_storage_pos := new_pos;
           g_pwrite_fail_once_counter := g_pwrite_fail_once_counter st |})
  else (mk_io (-1) None [], st).

Definition lseek_callback (h : Z) (offset whence : Z) (st : t)
  : io_result * t :=
  if whence =? SEEK_SET then (mk_io offset None [], st)
  else if whence =? SEEK_END
       then (mk_io (zlen (g_mock_storage_data st) + offset) None [], st)
       else (mk_io offset None [], st).

Definition mock_ops : storage_operations_t.t t :=
  storage_operations_t.mk t mock_write mock_read mock_lseek.

Definition failing_ops : storage_operations_t.t t :=
  storage_operations_t.mk t mock_write_fail_once mock_read mock_lseek.

Definition unchecked_ops : storage_operations_t.t t :=
  storage_operations_t.mk t mock_write mock_read lseek_callback.

End Mock.

(** ASCII bytes used in the scenarios. *)
Definition chA : byte := Byte.x41.
Definition chB : byte := Byte.x42.
Definition chC : byte := Byte.x43.
Definition chD : byte := Byte.x44.
Definition chE : byte := Byte.x45.
Definition chF : byte := Byte.x46.

(** Return value of the client's most recent call. *)
Definition last_ret {Store : Type} (w : World Store) : option Z :=
  match rev (returns w) with
  | r :: _ => Some (ret r)
  | [] => None
  end.

(* ------------------------------------------------------------------ *)
(** ** [conveyor_destroy] (conveyor.cpp)

    The destroying thread runs [conveyor_flush], raises the stop flag of
    the read worker and joins it, raises the stop flag of the write
    worker and joins it, and deletes the engine.  A [join] returns once
    the worker has left its loop; a thread that was never started is not
    joinable and is skipped.  The value [conveyor_flush] returns is
    dropped. *)

Definition set_write_worker_stop_flag (c : ConveyorImpl) (v : bool) :=
  mk_impl (handle c) (flags c) (write_buffer_enabled c) (write_buffer c)
    v (write_buffer_needs_flush c)
    (current_pos_in_storage c) (read_buffer_enabled c) (read_buffer c)
    (read_worker_stop_flag c) (read_buffer_stale c)
    (read_worker_needs_fill c) (read_eof_flag c) (current_file_offset c).
Definition set_read_worker_stop_flag (c : ConveyorImpl) (v : bool) :=
  mk_impl (handle c) (flags c) (write_buffer_enabled c) (write_buffer c)
    (write_worker_stop_flag c) (write_buffer_needs_flush c)
    (current_pos_in_storage c) (read_buffer_enabled c) (read_buffer c)
    v (read_buffer_stale c)
    (read_worker_needs_fill c) (read_eof_flag c) (current_file_offset c).

Inductive destroy_pc : Type :=
| D_enter          (* at the head of conveyor_destroy *)
| D_in_flush       (* parked in the wait of conveyor_flush *)
| D_flushed        (* conveyor_flush returned, or was skipped *)
| D_join_read      (* in read_worker_thread.join() *)
| D_read_joined
| D_join_write     (* in write_worker_thread.join() *)
| D_done.          (* delete impl *)

(** [after], with the list of returned values of [before]. *)
Definition drop_return {Store : Type} (before after : World Store)
  : World Store :=
  mk_world Store (impl after) (storage after) (wworker after) (rworker after)
           (client after) (errno after) (io_log after) (returns before).

(** One step of the thread inside [conveyor_destroy]; [None] while it
    is blocked. *)
Definition conveyor_destroy {Store : Type} (d : destroy_pc) (w : World Store)
  : option (destroy_pc * World Store) :=
  let c := impl w in
  match d with
  | D_enter =>
      if write_buffer_enabled c then
        let w1 := conveyor_flush Store w in
        match client w1 with
        | C_flush_wait => Some (D_in_flush, w1)
        | _ => Some (D_flushed, drop_return w w1)
        end
      else Some (D_flushed, w)
  | D_in_flush =>
      w1 <- conveyor_flush_wake Store w ;;
      Some (D_flushed, drop_return w w1)
  | D_flushed =>
      if read_buffer_enabled c
      then Some (D_join_read,
                 with_impl Store w (set_read_worker_stop_flag c true))
      else Some (D_read_joined, w)
  | D_join_read =>
      match rworker w with
      | RW_exit | RW_none => Some (D_read_joined, w)
      | _ => None
      end
  | D_read_joined =>
      if write_buffer_enabled c
      then Some (D_join_write,
                 with_impl Store w (set_write_worker_stop_flag c true))
      else Some (D_done, w)
  | D_join_write =>
      match wworker w with
      | WW_exit | WW_none => Some (D_done, w)
      | _ => None
      end
  | D_done => None
  end.

(** The engine while it is being destroyed: the destroying thread and
    the two workers, in any order. *)
Inductive shutdown_action : Type :=
| Destroyer
| Worker_write
| Worker_read.

Definition shutdown_step {Store : Type} (ops : storage_operations_t.t Store)
           (s : destroy_pc * World Store) (a : shutdown_action)
  : option (destroy_pc * World Store) :=
  match a with
  | Destroyer => conveyor_destroy (fst s) (snd s)
  | Worker_write => w <- writeWorker Store ops (snd s) ;; Some (fst s, w)
  | Worker_read => w <- readWorker Store ops (snd s) ;; Some (fst s, w)
  end.

Fixpoint shutdown_run {Store : Type} (ops : storage_operations_t.t Store)
         (s : destroy_pc * World Store) (schedule : list shutdown_action)
  : option (destroy_pc * World Store) :=
  match schedule with
  | [] => Some s
  | a :: rest => s' <- shutdown_step ops s a ;; shutdown_run ops s' rest
  end.

(* ------------------------------------------------------------------ *)
(** ** Observations on a run *)

(** The bytes accepted by [conveyor_write] that the [write] callback has
    not been given yet: those writeWorker holds in its private vector,
    then those in the write ring. *)
Definition pending {Store : Type} (w : World Store) : list byte :=
  match wworker w with
  | WW_io temp n => firstn (Z.to_nat n) temp
  | _ => []
  end ++ RingBuffer.contents (write_buffer (impl w)).

Definition is_write_call (e : io_event) : bool :=
  match e with IoWrite _ _ _ => true | _ => false end.

Definition is_read_call (e : io_event) : bool :=
  match e with IoRead _ _ => true | _ => false end.

(** The fields of the engine that [conveyor_create] fixes. *)
Definition same_configuration (c c' : ConveyorImpl) : Prop :=
  handle c' = handle c /\ flags c' = flags c /\
  write_buffer_enabled c' = write_buffer_enabled c /\
  read_buffer_enabled c' = read_buffer_enabled c.

(** The callbacks one step of a thread in state [w] may add to the log:
    none, one [lseek], one [read] by a started read worker, or one [write]
    by a started write worker, which [lseek(0, SEEK_END)] precedes when
    [O_APPEND] is set. *)
Definition log_growth {Store : Type} (w : World Store)
           (sfx : list io_event) : Prop :=
  sfx = [] \/
  (exists offset whence r, sfx = [IoLseek offset whence r]) \/
  (exists n r, sfx = [IoRead n r] /\ rworker w <> RW_none) \/
  (exists buf n r, sfx = [IoWrite buf n r] /\ wworker w <> WW_none /\
                   Z.land (flags (impl w)) O_APPEND = 0) \/
  (exists r0 buf n r, sfx = [IoLseek 0 SEEK_END r0; IoWrite buf n r] /\
                      wworker w <> WW_none).

(** What every step of every thread leaves alone. *)
Definition step_frame {Store : Type} (w w' : World Store) : Prop :=
  same_configuration (impl w) (impl w') /\
  (wworker w = WW_none -> wworker w' = WW_none) /\
  (rworker w = RW_none -> rworker w' = RW_none) /\
  exists sfx, io_log w' = io_log w ++ sfx /\ log_growth w sfx.


(* ------------------------------------------------------------------ *)
(** ** Contracts of the callers and of the [read] callback *)

(** read(2): the callback returns at most [count], and has stored the
    bytes it reports. *)
Definition read_callback_in_bounds {Store : Type}
           (ops : storage_operations_t.t Store) : Prop :=
  forall h count st,
    0 <= count ->
    let r := fst (storage_operations_t.read ops h count st) in
    io_ret r <= count /\ io_ret r <= zlen (io_data r).

(** The caller's buffer is at least [count] bytes long. *)
Definition call_in_bounds (c : call) : Prop :=
  match c with
  | Call_write buf count => 0 <= count <= zlen buf /\ count <= SIZE_MAX
  | Call_read buf count => 0 <= count <= zlen buf /\ count <= SIZE_MAX
  | Call_lseek _ _ => True
  | Call_flush => True
  end.

Definition action_in_bounds (a : action) : Prop :=
  match a with
  | Client c => call_in_bounds c
  | _ => True
  end.

(** A step that starts no call of the client. *)
Definition no_new_call (a : action) : Prop :=
  match a with
  | Client _ => False
  | _ => True
  end.


(** The state of an engine created with rings of [wsize] and [rsize]
    bytes is sound: both rings satisfy the invariant of RingBuffer, a
    parked call holds no more bytes to move than its buffer is long, and
    the private vector of readWorker is as long as the [read] it issues
    and at least as long as the count it got back. *)
Definition engine_wf {Store : Type} (wsize rsize : Z) (w : World Store)
  : Prop :=
  RingBuffer.wf (write_buffer (impl w)) /\
  RingBuffer.capacity (write_buffer (impl w)) = wsize /\
  RingBuffer.wf (read_buffer (impl w)) /\
  RingBuffer.capacity (read_buffer (impl w)) = rsize /\
  match client w with
  | C_write_wait cur rem _ => 0 <= rem <= zlen cur /\ rem <= SIZE_MAX
  | C_read_wait _ cur rem _ => 0 <= rem <= zlen cur /\ rem <= SIZE_MAX
  | _ => True
  end /\
  match rworker w with
  | RW_io temp n => zlen temp = n /\ 0 <= n <= PTRDIFF_MAX
  | RW_relock temp r => r <= zlen temp /\ zlen temp <= PTRDIFF_MAX
  | _ => True
  end.

(** A thread that cannot take a step because it waits: the client is
    inside a call, the predicate of a [wait] is false, or the worker was
    never started or has left its loop. *)
Definition blocked {Store : Type} (w : World Store) (a : action) : Prop :=
  let c := impl w in
  match a with
  | Client _ => client w <> C_idle
  | Wake =>
      match client w with
      | C_idle => True
      | C_write_wait _ _ _ =>
          (RingBuffer.available_space (write_buffer c) >? 0)
          || write_worker_stop_flag c = false
      | C_read_wait _ _ _ _ =>
          (RingBuffer.available_data (read_buffer c) >? 0)
          || read_eof_flag c || read_worker_stop_flag c = false
      | C_flush_wait =>
          RingBuffer.empty (write_buffer c) || write_worker_stop_flag c
          = false
      end
  | WriteWorker =>
      match wworker w with
      | WW_none | WW_exit => True
      | WW_wait _ =>
          (RingBuffer.available_data (write_buffer c) >? 0)
          || write_buffer_needs_flush c || write_worker_stop_flag c = false
      | _ => False
      end
  | ReadWorker =>
      match rworker w with
      | RW_none | RW_exit => True
      | RW_wait _ =>
          (RingBuffer.available_space (read_buffer c) >? 0)
          || read_buffer_stale c || read_worker_stop_flag c
          || read_worker_needs_fill c = false
      | _ => False
      end
  end.

(* ------------------------------------------------------------------ *)
(** ** Concrete states used in the examples *)

(** A wrapped ring of capacity 4 holding "ABC": A and B at the end of the
    vector, C at its start. *)
Definition rb_wrapped : RingBuffer.t :=
  {| RingBuffer.buffer := [chC; chD; chA; chB];
     RingBuffer.capacity := 4;
     RingBuffer.head := 1;
     RingBuffer.tail := 2;
     RingBuffer.size := 3 |}.

(** Engines over the mock store, as the tests create them. *)
Definition write_only_engine : World Mock.t :=
  conveyor_create Mock.t 1 O_WRONLY Mock.empty_storage 8 0.
Definition read_write_engine : World Mock.t :=
  conveyor_create Mock.t 1 O_RDWR Mock.empty_storage 8 8.
Definition small_engine : World Mock.t :=
  conveyor_create Mock.t 1 O_WRONLY Mock.empty_storage 4 0.
Definition zero_capacity_engine : World Mock.t :=
  conveyor_create Mock.t 1 O_RDWR Mock.empty_storage 0 0.

(** Return values of the client's calls, oldest first. *)
Definition return_values {Store : Type} (w : World Store) : list Z :=
  map ret (returns w).

(* ================================================================== *)
(** * Properties *)

(* ------------------------------------------------------------------ *)
(** ** Arithmetic and list facts *)

(** Linear arithmetic with the two machine bounds spelled out. *)
Ltac zbounds := unfold PTRDIFF_MAX, SIZE_MAX in *; lia.

Lemma size_wrap_id (z : Z) : 0 <= z <= SIZE_MAX -> size_wrap z = z.
Proof.
  unfold size_wrap, SIZE_MAX. intros H. apply Z.mod_small. lia.
Qed.

Lemma mod_once (a c : Z) :
  0 < c -> 0 <= a < 2 * c -> a mod c = if a <? c then a else a - c.
Proof.
  intros Hc Ha. destruct (a <? c) eqn:E.
  - apply Z.ltb_lt in E. apply Z.mod_small. lia.
  - apply Z.ltb_ge in E. symmetry. apply Z.mod_unique with (q := 1); lia.
Qed.

Lemma zlen_nonneg (l : list byte) : 0 <= zlen l.
Proof. unfold zlen. lia. Qed.

Lemma zth_map_seq (f : nat -> byte) (n : nat) (i : Z) :
  0 <= i < Z.of_nat n -> zth (map f (seq 0 n)) i = f (Z.to_nat i).
Proof.
  intros H. unfold zth.
  rewrite nth_indep with (d' := f 0%nat)
    by (rewrite length_map, length_seq; lia).
  rewrite map_nth, seq_nth by lia. reflexivity.
Qed.

Lemma zlen_map_seq (f : nat -> byte) (n : nat) :
  zlen (map f (seq 0 n)) = Z.of_nat n.
Proof. unfold zlen. now rewrite length_map, length_seq. Qed.

Lemma zth_ext (l l' : list byte) :
  zlen l = zlen l' ->
  (forall i, 0 <= i < zlen l -> zth l i = zth l' i) ->
  l = l'.
Proof.
  unfold zlen, zth. intros Hlen H.
  apply nth_ext with (d := Byte.x00) (d' := Byte.x00); [lia|].
  intros n Hn. specialize (H (Z.of_nat n)).
  rewrite Nat2Z.id in H. apply H. lia.
Qed.

Lemma zlen_app (l1 l2 : list byte) : zlen (l1 ++ l2) = zlen l1 + zlen l2.
Proof. unfold zlen. rewrite length_app. lia. Qed.

Lemma zth_app (l1 l2 : list byte) (i : Z) :
  0 <= i ->
  zth (l1 ++ l2) i = if i <? zlen l1 then zth l1 i else zth l2 (i - zlen l1).
Proof.
  intros Hi. unfold zth, zlen. destruct (i <? _) eqn:E.
  - apply Z.ltb_lt in E. apply app_nth1. lia.
  - apply Z.ltb_ge in E. rewrite app_nth2 by lia. f_equal. lia.
Qed.

Lemma zlen_firstn (l : list byte) (n : Z) :
  0 <= n <= zlen l -> zlen (firstn (Z.to_nat n) l) = n.
Proof. unfold zlen. intros H. rewrite length_firstn. lia. Qed.

Lemma zth_firstn (l : list byte) (n i : Z) :
  0 <= i < n -> zth (firstn (Z.to_nat n) l) i = zth l i.
Proof.
  intros H. unfold zth.
  rewrite <- (firstn_skipn (Z.to_nat n) l) at 2.
  destruct (Z_lt_le_dec i (zlen l)) as [Hl|Hl]; unfold zlen in Hl.
  - rewrite app_nth1; [reflexivity|]. rewrite length_firstn. lia.
  - rewrite !nth_overflow; trivial.
    + rewrite length_app, length_firstn, length_skipn. lia.
    + rewrite length_firstn. lia.
Qed.

Lemma zlen_skipn (l : list byte) (n : Z) :
  0 <= n <= zlen l -> zlen (skipn (Z.to_nat n) l) = zlen l - n.
Proof. unfold zlen. intros H. rewrite length_skipn. lia. Qed.

Lemma zth_skipn (l : list byte) (n i : Z) :
  0 <= n -> 0 <= i -> zth (skipn (Z.to_nat n) l) i = zth l (n + i).
Proof.
  intros Hn Hi. unfold zth. rewrite nth_skipn. f_equal. lia.
Qed.

Lemma zlen_vector_new (n : Z) : 0 <= n -> zlen (vector_new n) = n.
Proof. intros H. unfold zlen, vector_new. rewrite repeat_length. lia. Qed.

Lemma memcpy_ok (dst : list byte) (doff : Z) (src : list byte) (soff n : Z) :
  0 <= doff -> 0 <= soff -> 0 <= n ->
  doff + n <= zlen dst -> soff + n <= zlen src ->
  exists r,
    memcpy dst doff src soff n = Some r /\
    zlen r = zlen dst /\
    (forall i, doff <= i < doff + n -> zth r i = zth src (soff + (i - doff))) /\
    (forall i, 0 <= i < zlen dst -> ~ doff <= i < doff + n ->
               zth r i = zth dst i).
Proof.
  intros H1 H2 H3 H4 H5. unfold memcpy.
  replace (0 <=? doff) with true by (symmetry; apply Z.leb_le; lia).
  replace (0 <=? soff) with true by (symmetry; apply Z.leb_le; lia).
  replace (0 <=? n) with true by (symmetry; apply Z.leb_le; lia).
  replace (doff + n <=? zlen dst) with true by (symmetry; apply Z.leb_le; lia).
  replace (soff + n <=? zlen src) with true by (symmetry; apply Z.leb_le; lia).
  simpl. eexists. split; [reflexivity|]. split; [apply zlen_map_seq|]. split.
  - intros i Hi. rewrite zth_map_seq by (unfold zlen in H4; lia).
    simpl. rewrite Z2Nat.id by lia.
    replace (doff <=? i) with true by (symmetry; apply Z.leb_le; lia).
    replace (i <? doff + n) with true by (symmetry; apply Z.ltb_lt; lia).
    reflexivity.
  - intros i Hi Hout. rewrite zth_map_seq by exact Hi.
    simpl. rewrite Z2Nat.id by lia.
    destruct (doff <=? i) eqn:E1; [|reflexivity].
    destruct (i <? doff + n) eqn:E2; [|reflexivity].
    apply Z.leb_le in E1. apply Z.ltb_lt in E2. lia.
Qed.

(** The two-part copy out of a circular array that [read] and [peek_at]
    share: [n] bytes starting at [off], wrapping once at [cap]. *)
Lemma circular_copy_out (buf : list byte) (cap off : Z) (dst : list byte)
      (n : Z) :
  zlen buf = cap -> cap <= SIZE_MAX -> 0 <= off < cap -> 0 <= n <= cap ->
  n <= zlen dst ->
  let first_chunk := Z.min n (size_sub cap off) in
  exists d2,
    (d1 <- memcpy dst 0 buf off first_chunk ;;
     (if n >? first_chunk
      then memcpy d1 first_chunk buf 0 (n - first_chunk)
      else Some d1)) = Some d2 /\
    zlen d2 = zlen dst /\
    (forall i, 0 <= i < n -> zth d2 i = zth buf ((off + i) mod cap)) /\
    (forall i, n <= i < zlen dst -> zth d2 i = zth dst i).
Proof.
  intros Hbuf Hcap Hoff Hn Hdst first_chunk.
  assert (Hsub : size_sub cap off = cap - off)
    by (unfold size_sub; apply size_wrap_id; lia).
  unfold first_chunk. rewrite Hsub. clear first_chunk.
  set (fc := Z.min n (cap - off)).
  assert (Hfc : 0 <= fc <= n /\ fc <= cap - off) by (unfold fc; lia).
  destruct (memcpy_ok dst 0 buf off fc) as (d1 & E1 & L1 & In1 & Out1);
    try lia.
  rewrite E1. simpl.
  destruct (n >? fc) eqn:Egt.
  - apply Z.gtb_lt in Egt.
    assert (Hfceq : fc = cap - off) by (unfold fc in *; lia).
    destruct (memcpy_ok d1 fc buf 0 (n - fc)) as (d2 & E2 & L2 & In2 & Out2);
      try lia.
    exists d2. split; [exact E2|]. split; [lia|]. split.
    + intros i Hi. rewrite mod_once by lia.
      destruct (off + i <? cap) eqn:Ew.
      * apply Z.ltb_lt in Ew. rewrite Out2 by lia. rewrite In1 by lia.
        f_equal. lia.
      * apply Z.ltb_ge in Ew. rewrite In2 by lia. f_equal. lia.
    + intros i Hi. rewrite Out2 by lia. apply Out1; lia.
  - assert (Hle : n <= fc) by (destruct (Z.gtb_spec n fc); [discriminate|lia]).
    assert (Hfceq : fc = n) by lia.
    exists d1. split; [reflexivity|]. split; [exact L1|]. split.
    + intros i Hi. rewrite In1 by lia. f_equal.
      rewrite Z.mod_small by lia. lia.
    + intros i Hi. apply Out1; lia.
Qed.

(* ------------------------------------------------------------------ *)
(** ** RingBuffer: contents and the four operations *)

Lemma contents_zlen (rb : RingBuffer.t) :
  0 <= RingBuffer.size rb ->
  zlen (RingBuffer.contents rb) = RingBuffer.size rb.
Proof.
  intros H. unfold RingBuffer.contents. rewrite zlen_map_seq. lia.
Qed.

Lemma contents_zth (rb : RingBuffer.t) (i : Z) :
  0 <= i < RingBuffer.size rb ->
  zth (RingBuffer.contents rb) i
  = zth (RingBuffer.buffer rb) (RingBuffer.index rb i).
Proof.
  intros H. unfold RingBuffer.contents.
  rewrite zth_map_seq by lia. rewrite Z2Nat.id by lia. reflexivity.
Qed.

Lemma contents_empty (rb : RingBuffer.t) :
  RingBuffer.size rb = 0 -> RingBuffer.contents rb = [].
Proof. intros H. unfold RingBuffer.contents. now rewrite H. Qed.

(** The constructor establishes the invariant. *)
Lemma make_wf (cap : Z) :
  1 <= cap <= PTRDIFF_MAX ->
  RingBuffer.wf (RingBuffer.make cap) /\
  RingBuffer.contents (RingBuffer.make cap) = [].
Proof.
  intros H. split; [|reflexivity].
  constructor; simpl; try lia.
  - apply zlen_vector_new. lia.
  - rewrite Z.mod_small; lia.
Qed.

Lemma wf_bounds (rb : RingBuffer.t) : RingBuffer.wf rb -> RingBuffer.bounds rb.
Proof. intros [? ? ? ? ? ?]. unfold RingBuffer.bounds. auto. Qed.

Lemma wf_size_max (rb : RingBuffer.t) :
  RingBuffer.wf rb -> RingBuffer.capacity rb <= SIZE_MAX.
Proof. intros [? ? ? ? ? ?]. unfold PTRDIFF_MAX, SIZE_MAX in *. lia. Qed.

(** A full buffer has [head = tail]; an empty one too. *)
Lemma wf_full_head_tail (rb : RingBuffer.t) :
  RingBuffer.wf rb ->
  RingBuffer.size rb = RingBuffer.capacity rb ->
  RingBuffer.head rb = RingBuffer.tail rb.
Proof.
  intros [Hb Ha Hs Hh Ht Hp] Hfull. rewrite Hp, Hfull.
  rewrite mod_once by lia.
  destruct (_ <? _) eqn:E; [apply Z.ltb_lt in E|]; lia.
Qed.

(** Dropping the [n] oldest bytes: the state [read] leaves behind. *)
Lemma consume_ok (rb : RingBuffer.t) (n : Z) :
  RingBuffer.wf rb -> 0 <= n <= RingBuffer.size rb ->
  let rb' := RingBuffer.mk (RingBuffer.buffer rb) (RingBuffer.capacity rb)
               (RingBuffer.head rb)
               ((RingBuffer.tail rb + n) mod RingBuffer.capacity rb)
               (RingBuffer.size rb - n) in
  RingBuffer.wf rb' /\
  RingBuffer.contents rb' = skipn (Z.to_nat n) (RingBuffer.contents rb).
Proof.
  intros [Hb Ha Hs Hh Ht Hp] Hn rb'. split.
  - constructor; unfold rb'; simpl; try lia.
    + apply Z.mod_pos_bound. lia.
    + rewrite Zplus_mod_idemp_l.
      replace (RingBuffer.tail rb + n + (RingBuffer.size rb - n))
        with (RingBuffer.tail rb + RingBuffer.size rb) by lia.
      exact Hp.
  - apply zth_ext.
    + rewrite zlen_skipn, !contents_zlen by
        (rewrite ?contents_zlen; unfold rb'; simpl; lia).
      reflexivity.
    + intros i Hi.
      rewrite contents_zlen in Hi by (unfold rb'; simpl; lia).
      unfold rb' in Hi; simpl in Hi.
      rewrite zth_skipn by lia.
      rewrite !contents_zth by (unfold rb'; simpl; lia).
      unfold RingBuffer.index, rb'. simpl.
      rewrite Zplus_mod_idemp_l. f_equal. f_equal. lia.
Qed.

Lemma rb_read_spec (rb : RingBuffer.t) (dst : list byte) (len : Z) :
  RingBuffer.wf rb -> 0 <= len <= SIZE_MAX ->
  Z.min len (RingBuffer.size rb) <= zlen dst ->
  let n := Z.min len (RingBuffer.size rb) in
  exists rb',
    RingBuffer.read rb (Some dst) len
    = Some (n, Some (firstn (Z.to_nat n) (RingBuffer.contents rb)
                     ++ skipn (Z.to_nat n) dst), rb') /\
    RingBuffer.wf rb' /\
    RingBuffer.capacity rb' = RingBuffer.capacity rb /\
    RingBuffer.head rb' = RingBuffer.head rb /\
    RingBuffer.size rb' = RingBuffer.size rb - n /\
    RingBuffer.contents rb' = skipn (Z.to_nat n) (RingBuffer.contents rb).
Proof.
  intros Hwf Hlen Hdst n. pose proof (wf_size_max rb Hwf) as Hmax.
  pose proof Hwf as [Hb Ha Hs Hh Ht Hp].
  unfold RingBuffer.read. fold n.
  destruct (len =? 0) eqn:E0.
  { apply Z.eqb_eq in E0. assert (n = 0) by (unfold n; lia).
    exists rb. rewrite H. simpl. repeat split; auto; lia. }
  destruct (n =? 0) eqn:En.
  { apply Z.eqb_eq in En. exists rb. rewrite En. simpl.
    repeat split; auto; lia. }
  apply Z.eqb_neq in E0, En.
  assert (Hn : 0 < n <= RingBuffer.size rb) by (unfold n in *; lia).
  destruct (circular_copy_out (RingBuffer.buffer rb) (RingBuffer.capacity rb)
              (RingBuffer.tail rb) dst n) as (d2 & E & L & In & Out);
    try lia.
  unfold bind in *.
  destruct (memcpy dst 0 _ _ _) as [d1|]; [|discriminate].
  rewrite E.
  assert (Hadd : size_add (RingBuffer.tail rb) n = RingBuffer.tail rb + n)
    by (unfold size_add; apply size_wrap_id; zbounds).
  assert (Hsub : size_sub (RingBuffer.size rb) n = RingBuffer.size rb - n)
    by (unfold size_sub; apply size_wrap_id; zbounds).
  unfold size_rem. rewrite Hadd, Hsub.
  replace (RingBuffer.capacity rb =? 0) with false
    by (symmetry; apply Z.eqb_neq; lia).
  assert (Hd : d2 = firstn (Z.to_nat n) (RingBuffer.contents rb)
                    ++ skipn (Z.to_nat n) dst).
  { apply zth_ext.
    - rewrite zlen_app, zlen_firstn, zlen_skipn, L by
        (rewrite ?contents_zlen; lia). lia.
    - intros i Hi. rewrite zth_app by lia.
      rewrite zlen_firstn by (rewrite contents_zlen; lia).
      destruct (i <? n) eqn:Ei.
      + apply Z.ltb_lt in Ei. rewrite zth_firstn by lia.
        rewrite contents_zth by lia. apply In. lia.
      + apply Z.ltb_ge in Ei. rewrite zth_skipn by lia.
        replace (n + (i - n)) with i by lia. apply Out. lia. }
  destruct (consume_ok rb n Hwf) as [Hwf' Hc]; [lia|].
  eexists. rewrite Hd. split; [reflexivity|].
  split; [exact Hwf'|]. simpl. repeat split; auto.
Qed.

(** [read] with a null destination discards the same bytes. *)
Lemma rb_read_null_spec (rb : RingBuffer.t) (len : Z) :
  RingBuffer.wf rb -> 0 <= len <= SIZE_MAX ->
  let n := Z.min len (RingBuffer.size rb) in
  exists rb',
    RingBuffer.read rb None len = Some (n, None, rb') /\
    RingBuffer.wf rb' /\
    RingBuffer.capacity rb' = RingBuffer.capacity rb /\
    RingBuffer.head rb' = RingBuffer.head rb /\
    RingBuffer.size rb' = RingBuffer.size rb - n /\
    RingBuffer.contents rb' = skipn (Z.to_nat n) (RingBuffer.contents rb).
Proof.
  intros Hwf Hlen n. pose proof Hwf as [Hb Ha Hs Hh Ht Hp].
  unfold RingBuffer.read. fold n.
  destruct (len =? 0) eqn:E0.
  { apply Z.eqb_eq in E0. assert (n = 0) by (unfold n; lia).
    exists rb. rewrite H. simpl. repeat split; auto; lia. }
  destruct (n =? 0) eqn:En.
  { apply Z.eqb_eq in En. exists rb. rewrite En. simpl.
    repeat split; auto; lia. }
  apply Z.eqb_neq in E0, En.
  assert (Hn : 0 < n <= RingBuffer.size rb) by (unfold n in *; lia).
  assert (Hadd : size_add (RingBuffer.tail rb) n = RingBuffer.tail rb + n)
    by (unfold size_add; apply size_wrap_id; zbounds).
  assert (Hsub : size_sub (RingBuffer.size rb) n = RingBuffer.size rb - n)
    by (unfold size_sub; apply size_wrap_id; zbounds).
  unfold bind, size_rem. rewrite Hadd, Hsub.
  replace (RingBuffer.capacity rb =? 0) with false
    by (symmetry; apply Z.eqb_neq; lia).
  destruct (consume_ok rb n Hwf) as [Hwf' Hc]; [lia|].
  eexists. split; [reflexivity|].
  split; [exact Hwf'|]. simpl. repeat split; auto.
Qed.

Lemma rb_clear_spec (rb : RingBuffer.t) :
  RingBuffer.wf rb ->
  RingBuffer.wf (RingBuffer.clear rb) /\
  RingBuffer.capacity (RingBuffer.clear rb) = RingBuffer.capacity rb /\
  RingBuffer.contents (RingBuffer.clear rb) = [].
Proof.
  intros [Hb Ha Hs Hh Ht Hp]. split; [|split; reflexivity].
  constructor; simpl; try lia. rewrite Z.mod_small; lia.
Qed.

Lemma rb_write_spec (rb : RingBuffer.t) (data : list byte) (len : Z) :
  RingBuffer.wf rb -> 0 <= len <= SIZE_MAX -> len <= zlen data ->
  let n := Z.min len (RingBuffer.capacity rb - RingBuffer.size rb) in
  exists rb',
    RingBuffer.write rb data len = Some (n, rb') /\
    RingBuffer.wf rb' /\
    RingBuffer.capacity rb' = RingBuffer.capacity rb /\
    RingBuffer.tail rb' = RingBuffer.tail rb /\
    RingBuffer.size rb' = RingBuffer.size rb + n /\
    RingBuffer.contents rb'
    = RingBuffer.contents rb ++ firstn (Z.to_nat n) data.
Proof.
  intros Hwf Hlen Hdata n. pose proof (wf_size_max rb Hwf) as Hmax.
  pose proof Hwf as [Hb Ha Hs Hh Ht Hp].
  unfold RingBuffer.write.
  assert (Hfree : size_sub (RingBuffer.capacity rb) (RingBuffer.size rb)
                  = RingBuffer.capacity rb - RingBuffer.size rb)
    by (unfold size_sub; apply size_wrap_id; lia).
  rewrite Hfree. fold n.
  destruct (len =? 0) eqn:E0.
  { apply Z.eqb_eq in E0. assert (n = 0) by (unfold n; lia).
    exists rb. rewrite H. simpl. rewrite app_nil_r.
    repeat split; auto; lia. }
  destruct (n =? 0) eqn:En.
  { apply Z.eqb_eq in En. exists rb. rewrite En. simpl. rewrite app_nil_r.
    repeat split; auto; lia. }
  apply Z.eqb_neq in E0, En.
  assert (Hn : 0 < n <= RingBuffer.capacity rb - RingBuffer.size rb)
    by (unfold n in *; lia).
  assert (Hnl : n <= len) by (unfold n; lia).
  assert (Hroom : size_sub (RingBuffer.capacity rb) (RingBuffer.head rb)
                  = RingBuffer.capacity rb - RingBuffer.head rb)
    by (unfold size_sub; apply size_wrap_id; lia).
  rewrite Hroom.
  set (fc := Z.min n (RingBuffer.capacity rb - RingBuffer.head rb)).
  assert (Hfc : 0 < fc <= n /\ fc <= RingBuffer.capacity rb - RingBuffer.head rb)
    by (unfold fc; lia).
  destruct (memcpy_ok (RingBuffer.buffer rb) (RingBuffer.head rb) data 0 fc)
    as (b1 & E1 & L1 & In1 & Out1); try lia.
  rewrite E1. simpl.
  assert (Hadd : size_add (RingBuffer.head rb) n = RingBuffer.head rb + n)
    by (unfold size_add; apply size_wrap_id; zbounds).
  assert (Hsz : size_add (RingBuffer.size rb) n = RingBuffer.size rb + n)
    by (unfold size_add; apply size_wrap_id; zbounds).
  (* where the head stands, without [mod] *)
  assert (Hhead : RingBuffer.head rb
                  = if RingBuffer.tail rb + RingBuffer.size rb
                       <? RingBuffer.capacity rb
                    then RingBuffer.tail rb + RingBuffer.size rb
                    else RingBuffer.tail rb + RingBuffer.size rb
                         - RingBuffer.capacity rb)
    by (rewrite Hp at 1; apply mod_once; lia).
  assert (Hb2 : exists b2,
             (if n >? fc then memcpy b1 0 data fc (n - fc) else Some b1)
             = Some b2 /\
             zlen b2 = RingBuffer.capacity rb /\
             (forall k, 0 <= k < n ->
                zth b2 ((RingBuffer.head rb + k) mod RingBuffer.capacity rb)
                = zth data k) /\
             (forall i, 0 <= i < RingBuffer.size rb ->
                zth b2 ((RingBuffer.tail rb + i) mod RingBuffer.capacity rb)
                = zth (RingBuffer.buffer rb)
                      ((RingBuffer.tail rb + i) mod RingBuffer.capacity rb))).
  { destruct (n >? fc) eqn:Egt.
    - apply Z.gtb_lt in Egt.
      assert (Hfceq : fc = RingBuffer.capacity rb - RingBuffer.head rb)
        by (unfold fc in *; lia).
      destruct (memcpy_ok b1 0 data fc (n - fc))
        as (b2 & E2 & L2 & In2 & Out2); try lia.
      exists b2. split; [exact E2|]. split; [lia|]. split.
      + intros k Hk. rewrite mod_once by lia.
        destruct (RingBuffer.head rb + k <? RingBuffer.capacity rb) eqn:Ew.
        * apply Z.ltb_lt in Ew. rewrite Out2 by lia. rewrite In1 by lia.
          f_equal. lia.
        * apply Z.ltb_ge in Ew. rewrite In2 by lia. f_equal. lia.
      + intros i Hi. rewrite mod_once by lia.
        destruct (RingBuffer.tail rb + RingBuffer.size rb
                  <? RingBuffer.capacity rb) eqn:Eh;
          [apply Z.ltb_lt in Eh | apply Z.ltb_ge in Eh];
          destruct (RingBuffer.tail rb + i <? RingBuffer.capacity rb) eqn:Ew;
          [apply Z.ltb_lt in Ew | apply Z.ltb_ge in Ew
          |apply Z.ltb_lt in Ew | apply Z.ltb_ge in Ew];
          rewrite Out2 by lia; apply Out1; lia.
    - assert (Hle : n <= fc)
        by (destruct (Z.gtb_spec n fc); [discriminate|lia]).
      exists b1. split; [reflexivity|]. split; [lia|]. split.
      + intros k Hk. rewrite Z.mod_small by lia. rewrite In1 by lia.
        f_equal. lia.
      + intros i Hi. rewrite mod_once by lia.
        destruct (RingBuffer.tail rb + RingBuffer.size rb
                  <? RingBuffer.capacity rb) eqn:Eh;
          [apply Z.ltb_lt in Eh | apply Z.ltb_ge in Eh];
          destruct (RingBuffer.tail rb + i <? RingBuffer.capacity rb) eqn:Ew;
          [apply Z.ltb_lt in Ew | apply Z.ltb_ge in Ew
          |apply Z.ltb_lt in Ew | apply Z.ltb_ge in Ew];
          apply Out1; lia. }
  destruct Hb2 as (b2 & E2 & L2 & New & Old).
  rewrite E2. simpl. unfold size_rem. rewrite Hadd, Hsz.
  replace (RingBuffer.capacity rb =? 0) with false
    by (symmetry; apply Z.eqb_neq; lia).
  simpl. set (rb' := RingBuffer.mk _ _ _ _ _).
  assert (Hwf' : RingBuffer.wf rb').
  { constructor; unfold rb'; simpl; try lia.
    - apply Z.mod_pos_bound. lia.
    - rewrite Hp at 1. rewrite Zplus_mod_idemp_l. f_equal. lia. }
  exists rb'. split; [reflexivity|]. split; [exact Hwf'|].
  repeat split; auto.
  apply zth_ext.
  - rewrite zlen_app, zlen_firstn, !contents_zlen by
      (unfold rb'; simpl; lia).
    reflexivity.
  - intros i Hi.
    rewrite contents_zlen in Hi by (unfold rb'; simpl; lia).
    unfold rb' in Hi; simpl in Hi.
    rewrite contents_zth by (unfold rb'; simpl; lia).
    rewrite zth_app, contents_zlen by lia.
    unfold RingBuffer.index, rb'. simpl.
    destruct (i <? RingBuffer.size rb) eqn:Ei.
    + apply Z.ltb_lt in Ei. rewrite contents_zth by lia. apply Old. lia.
    + apply Z.ltb_ge in Ei. rewrite zth_firstn by lia.
      rewrite <- (New (i - RingBuffer.size rb)) by lia.
      f_equal. rewrite Hp. rewrite Zplus_mod_idemp_l. f_equal. lia.
Qed.

Lemma rb_resize_spec (rb : RingBuffer.t) (new_capacity : Z) :
  RingBuffer.wf rb ->
  RingBuffer.capacity rb < new_capacity <= PTRDIFF_MAX ->
  exists rb',
    RingBuffer.resize rb new_capacity = Some rb' /\
    RingBuffer.wf rb' /\
    RingBuffer.capacity rb' = new_capacity /\
    RingBuffer.head rb' = RingBuffer.size rb /\
    RingBuffer.tail rb' = 0 /\
    RingBuffer.size rb' = RingBuffer.size rb /\
    RingBuffer.contents rb' = RingBuffer.contents rb.
Proof.
  intros Hwf Hnew. pose proof (wf_size_max rb Hwf) as Hmax.
  pose proof Hwf as [Hb Ha Hs Hh Ht Hp].
  unfold RingBuffer.resize.
  replace (new_capacity <=? RingBuffer.capacity rb) with false
    by (symmetry; apply Z.leb_gt; lia).
  assert (Lnew : zlen (vector_new new_capacity) = new_capacity)
    by (apply zlen_vector_new; lia).
  assert (Hhead : RingBuffer.head rb
                  = if RingBuffer.tail rb + RingBuffer.size rb
                       <? RingBuffer.capacity rb
                    then RingBuffer.tail rb + RingBuffer.size rb
                    else RingBuffer.tail rb + RingBuffer.size rb
                         - RingBuffer.capacity rb)
    by (rewrite Hp at 1; apply mod_once; lia).
  (* the copied region, whichever branch produced it *)
  assert (Hnb : exists nb,
             (if RingBuffer.size rb >? 0 then
                if RingBuffer.head rb >? RingBuffer.tail rb then
                  memcpy (vector_new new_capacity) 0 (RingBuffer.buffer rb)
                         (RingBuffer.tail rb) (RingBuffer.size rb)
                else
                  b1 <- memcpy (vector_new new_capacity) 0
                          (RingBuffer.buffer rb) (RingBuffer.tail rb)
                          (size_sub (RingBuffer.capacity rb)
                                    (RingBuffer.tail rb)) ;;
                  memcpy b1 (size_sub (RingBuffer.capacity rb)
                                      (RingBuffer.tail rb))
                         (RingBuffer.buffer rb) 0 (RingBuffer.head rb)
              else Some (vector_new new_capacity)) = Some nb /\
             zlen nb = new_capacity /\
             forall i, 0 <= i < RingBuffer.size rb ->
               zth nb i = zth (RingBuffer.buffer rb)
                              ((RingBuffer.tail rb + i)
                               mod RingBuffer.capacity rb)).
  { destruct (RingBuffer.size rb >? 0) eqn:Esz.
    2:{ exists (vector_new new_capacity). split; [reflexivity|].
        split; [exact Lnew|]. intros i Hi.
        destruct (Z.gtb_spec (RingBuffer.size rb) 0); [discriminate|lia]. }
    apply Z.gtb_lt in Esz.
    destruct (RingBuffer.tail rb + RingBuffer.size rb
              <? RingBuffer.capacity rb) eqn:Ew;
      [apply Z.ltb_lt in Ew | apply Z.ltb_ge in Ew].
    - replace (RingBuffer.head rb >? RingBuffer.tail rb) with true
        by (symmetry; apply Z.gtb_lt; lia).
      destruct (memcpy_ok (vector_new new_capacity) 0 (RingBuffer.buffer rb)
                  (RingBuffer.tail rb) (RingBuffer.size rb))
        as (nb & E & L & In & Out); try lia.
      exists nb. split; [exact E|]. split; [lia|].
      intros i Hi. rewrite In by lia. rewrite Z.mod_small by lia.
      f_equal. lia.
    - replace (RingBuffer.head rb >? RingBuffer.tail rb) with false
        by (symmetry; destruct (Z.gtb_spec (RingBuffer.head rb)
                                            (RingBuffer.tail rb)); [lia|reflexivity]).
      assert (Hfc : size_sub (RingBuffer.capacity rb) (RingBuffer.tail rb)
                    = RingBuffer.capacity rb - RingBuffer.tail rb)
        by (unfold size_sub; apply size_wrap_id; lia).
      rewrite Hfc.
      destruct (memcpy_ok (vector_new new_capacity) 0 (RingBuffer.buffer rb)
                  (RingBuffer.tail rb)
                  (RingBuffer.capacity rb - RingBuffer.tail rb))
        as (b1 & E1 & L1 & In1 & Out1); try lia.
      rewrite E1. simpl.
      destruct (memcpy_ok b1 (RingBuffer.capacity rb - RingBuffer.tail rb)
                  (RingBuffer.buffer rb) 0 (RingBuffer.head rb))
        as (nb & E2 & L2 & In2 & Out2); try lia.
      exists nb. split; [exact E2|]. split; [lia|].
      intros i Hi. rewrite mod_once by lia.
      destruct (RingBuffer.tail rb + i <? RingBuffer.capacity rb) eqn:Ei;
        [apply Z.ltb_lt in Ei | apply Z.ltb_ge in Ei].
      + rewrite Out2 by lia. rewrite In1 by lia. f_equal. lia.
      + rewrite In2 by lia. f_equal. lia. }
  destruct Hnb as (nb & E & L & Hcopy). rewrite E. simpl.
  set (rb' := RingBuffer.mk _ _ _ _ _).
  assert (Hwf' : RingBuffer.wf rb').
  { constructor; unfold rb'; simpl; try lia. rewrite Z.mod_small; lia. }
  exists rb'. split; [reflexivity|]. split; [exact Hwf'|].
  repeat split; auto.
  apply zth_ext.
  - rewrite !contents_zlen by (unfold rb'; simpl; lia). reflexivity.
  - intros i Hi.
    rewrite contents_zlen in Hi by (unfold rb'; simpl; lia).
    unfold rb' in Hi; simpl in Hi.
    rewrite !contents_zth by (unfold rb'; simpl; lia).
    unfold RingBuffer.index at 1. unfold rb' at 1 2 3. simpl.
    rewrite Z.mod_small by lia. apply Hcopy. lia.
Qed.

Lemma rb_wrapped_wf : RingBuffer.wf rb_wrapped.
Proof. constructor; simpl; try reflexivity; zbounds. Qed.

(* ------------------------------------------------------------------ *)
(** ** RingBuffer: resize, the invariant, peek_at *)

(** C7.  For a ring buffer with capacity at least 1, [resize] to a
    strictly larger capacity keeps the logical byte sequence: reading
    [size] bytes afterwards yields exactly the bytes that reading [size]
    bytes before yields; afterwards [tail = 0], [head = size] and
    [capacity = new_capacity].  With [new_capacity <= capacity] the buffer
    is returned unchanged.  ([new_capacity <= PTRDIFF_MAX]: the new vector
    can exist.) *)
Theorem resize_preserves_logical_bytes
        (rb : RingBuffer.t) (new_capacity : Z) (dst : list byte) :
  RingBuffer.wf rb ->
  1 <= RingBuffer.capacity rb ->
  0 <= new_capacity <= PTRDIFF_MAX ->
  RingBuffer.size rb <= zlen dst ->
  (RingBuffer.capacity rb < new_capacity ->
   exists rb',
     RingBuffer.resize rb new_capacity = Some rb' /\
     RingBuffer.tail rb' = 0 /\
     RingBuffer.head rb' = RingBuffer.size rb' /\
     RingBuffer.size rb' = RingBuffer.size rb /\
     RingBuffer.capacity rb' = new_capacity /\
     RingBuffer.contents rb' = RingBuffer.contents rb /\
     exists bytes after_old after_new,
       RingBuffer.read rb (Some dst) (RingBuffer.size rb)
       = Some (RingBuffer.size rb, Some bytes, after_old) /\
       RingBuffer.read rb' (Some dst) (RingBuffer.size rb')
       = Some (RingBuffer.size rb, Some bytes, after_new)) /\
  (new_capacity <= RingBuffer.capacity rb ->
   RingBuffer.resize rb new_capacity = Some rb).
Proof.
  intros Hwf Hcap Hnew Hdst. split.
  - intros Hgrow.
    destruct (rb_resize_spec rb new_capacity Hwf) as
      (rb' & E & Hwf' & Hc & Hh & Ht & Hs & Hcont); [lia|].
    pose proof Hwf as [_ _ Hsz _ _ _].
    pose proof (wf_size_max rb Hwf) as Hmax.
    destruct (rb_read_spec rb dst (RingBuffer.size rb) Hwf) as
      (r1 & E1 & _); [lia|lia|].
    destruct (rb_read_spec rb' dst (RingBuffer.size rb') Hwf') as
      (r2 & E2 & _); [rewrite Hs; lia|rewrite Hs; lia|].
    exists rb'. repeat (split; [assumption || congruence|]).
    rewrite Z.min_id in E1, E2.
    eexists _, r1, r2. split; [exact E1|].
    rewrite E2, Hs, Hcont. reflexivity.
  - intros Hle. unfold RingBuffer.resize.
    replace (new_capacity <=? RingBuffer.capacity rb) with true
      by (symmetry; apply Z.leb_le; lia).
    reflexivity.
Qed.

Lemma resize_preserves_logical_bytes_witness :
  RingBuffer.wf rb_wrapped /\
  exists rb',
    RingBuffer.resize rb_wrapped 8 = Some rb' /\
    RingBuffer.tail rb' = 0 /\
    RingBuffer.head rb' = 3 /\
    RingBuffer.capacity rb' = 8 /\
    RingBuffer.contents rb' = [chA; chB; chC].
Proof.
  split; [exact rb_wrapped_wf|].
  destruct (resize_preserves_logical_bytes rb_wrapped 8
              [Byte.x00; Byte.x00; Byte.x00] rb_wrapped_wf)
    as [Hgrow _]; [simpl; lia | zbounds | unfold zlen; simpl; lia |].
  destruct Hgrow as (rb' & E & Ht & Hh & Hs & Hc & Hcont & _);
    [simpl; lia|].
  exists rb'. repeat split; try assumption.
  rewrite Hh, Hs. reflexivity.
Defined.

(** C8.  The invariant of the ring buffer - [0 <= size <= capacity],
    [head] and [tail] in [[0, capacity)], the vector [capacity] long and
    the logical bytes lying at [tail, tail+1, ..., tail+size-1] modulo
    [capacity], so that [head = (tail + size) mod capacity] - is kept by
    [write], [read], [clear] and [resize], none of which leaves the
    vector; [write] appends to the logical contents, [read] removes from
    their front, [clear] empties them and [resize] keeps them.  An append
    that exactly fills the buffer leaves [head = tail] and
    [size = capacity]. *)
Theorem ring_operations_keep_invariant (rb : RingBuffer.t) :
  RingBuffer.wf rb ->
  1 <= RingBuffer.capacity rb ->
  (forall data len,
      0 <= len <= SIZE_MAX -> len <= zlen data ->
      exists rb',
        let n := Z.min len (RingBuffer.capacity rb - RingBuffer.size rb) in
        RingBuffer.write rb data len = Some (n, rb') /\
        RingBuffer.wf rb' /\ RingBuffer.bounds rb' /\
        RingBuffer.capacity rb' = RingBuffer.capacity rb /\
        RingBuffer.contents rb'
        = RingBuffer.contents rb ++ firstn (Z.to_nat n) data /\
        (RingBuffer.size rb + len = RingBuffer.capacity rb ->
         RingBuffer.head rb' = RingBuffer.tail rb' /\
         RingBuffer.size rb' = RingBuffer.capacity rb')) /\
  (forall dst len,
      0 <= len <= SIZE_MAX ->
      (forall d, dst = Some d -> Z.min len (RingBuffer.size rb) <= zlen d) ->
      exists dst' rb',
        let n := Z.min len (RingBuffer.size rb) in
        RingBuffer.read rb dst len = Some (n, dst', rb') /\
        RingBuffer.wf rb' /\ RingBuffer.bounds rb' /\
        RingBuffer.capacity rb' = RingBuffer.capacity rb /\
        RingBuffer.contents rb'
        = skipn (Z.to_nat n) (RingBuffer.contents rb)) /\
  (RingBuffer.wf (RingBuffer.clear rb) /\
   RingBuffer.bounds (RingBuffer.clear rb) /\
   RingBuffer.contents (RingBuffer.clear rb) = []) /\
  (forall new_capacity,
      0 <= new_capacity <= PTRDIFF_MAX ->
      exists rb',
        RingBuffer.resize rb new_capacity = Some rb' /\
        RingBuffer.wf rb' /\ RingBuffer.bounds rb' /\
        RingBuffer.contents rb' = RingBuffer.contents rb).
Proof.
  intros Hwf Hcap. split; [|split; [|split]].
  - intros data len Hlen Hdata.
    destruct (rb_write_spec rb data len Hwf Hlen Hdata) as
      (rb' & E & Hwf' & Hc & Ht & Hs & Hcont).
    exists rb'. cbv zeta.
    split; [exact E|]. split; [exact Hwf'|].
    split; [exact (wf_bounds rb' Hwf')|]. split; [exact Hc|].
    split; [exact Hcont|].
    intros Hfill. split.
    + apply wf_full_head_tail; [exact Hwf'|]. rewrite Hs, Hc. lia.
    + rewrite Hs, Hc. lia.
  - intros dst len Hlen Hdst. destruct dst as [d|].
    + destruct (rb_read_spec rb d len Hwf Hlen (Hdst d eq_refl)) as
        (rb' & E & Hwf' & Hc & _ & _ & Hcont).
      eexists _, rb'. cbv zeta.
      split; [exact E|]. split; [exact Hwf'|].
      split; [exact (wf_bounds rb' Hwf')|]. split; [exact Hc|exact Hcont].
    + destruct (rb_read_null_spec rb len Hwf Hlen) as
        (rb' & E & Hwf' & Hc & _ & _ & Hcont).
      eexists _, rb'. cbv zeta.
      split; [exact E|]. split; [exact Hwf'|].
      split; [exact (wf_bounds rb' Hwf')|]. split; [exact Hc|exact Hcont].
  - destruct (rb_clear_spec rb Hwf) as (Hwf' & _ & Hcont).
    split; [exact Hwf'|]. split; [exact (wf_bounds _ Hwf')|exact Hcont].
  - intros new_capacity Hnew.
    destruct (Z_le_gt_dec new_capacity (RingBuffer.capacity rb)) as [Hle|Hgt].
    + exists rb. unfold RingBuffer.resize.
      replace (new_capacity <=? RingBuffer.capacity rb) with true
        by (symmetry; apply Z.leb_le; lia).
      split; [reflexivity|]. split; [exact Hwf|].
      split; [exact (wf_bounds rb Hwf)|reflexivity].
    + destruct (rb_resize_spec rb new_capacity Hwf) as
        (rb' & E & Hwf' & _ & _ & _ & _ & Hcont); [lia|].
      exists rb'. split; [exact E|]. split; [exact Hwf'|].
      split; [exact (wf_bounds rb' Hwf')|exact Hcont].
Qed.

Lemma ring_operations_keep_invariant_witness :
  RingBuffer.wf rb_wrapped /\
  exists rb',
    RingBuffer.write rb_wrapped [chD] 1 = Some (1, rb') /\
    RingBuffer.contents rb' = [chA; chB; chC; chD] /\
    RingBuffer.head rb' = RingBuffer.tail rb' /\
    RingBuffer.size rb' = 4.
Proof.
  split; [exact rb_wrapped_wf|].
  destruct (ring_operations_keep_invariant rb_wrapped rb_wrapped_wf)
    as (Hwrite & _); [simpl; lia|].
  destruct (Hwrite [chD] 1) as (rb' & E & _ & _ & Hc & Hcont & Hfill);
    [zbounds | unfold zlen; simpl; lia |].
  destruct Hfill as [Hht Hsz]; [simpl; lia|].
  exists rb'. split; [exact E|]. split; [exact Hcont|].
  split; [exact Hht|]. rewrite Hsz, Hc. reflexivity.
Defined.

(** C10.  For a ring buffer with capacity at least 1, any absolute
    position and any [len <= capacity], [peek_at] only reads inside the
    vector - the [i]-th byte it delivers is the one at [offset + i],
    taken back by [capacity] at most once, where
    [offset = position mod capacity] -, overwrites exactly the first
    [len] bytes of [dest], returns [len] and leaves the ring buffer as it
    was. *)
Theorem peek_at_in_bounds
        (rb : RingBuffer.t) (absolute_ring_pos : Z) (dest : list byte)
        (len : Z) :
  RingBuffer.wf rb ->
  1 <= RingBuffer.capacity rb ->
  0 <= absolute_ring_pos <= SIZE_MAX ->
  0 <= len <= RingBuffer.capacity rb ->
  len <= zlen dest ->
  exists dest',
    RingBuffer.peek_at rb absolute_ring_pos dest len = Some (len, dest', rb) /\
    zlen dest' = zlen dest /\
    (forall i, 0 <= i < len ->
       let offset := absolute_ring_pos mod RingBuffer.capacity rb in
       let j := if offset + i <? RingBuffer.capacity rb
                then offset + i
                else offset + i - RingBuffer.capacity rb in
       0 <= j < zlen (RingBuffer.buffer rb) /\
       zth dest' i = zth (RingBuffer.buffer rb) j) /\
    (forall i, len <= i < zlen dest -> zth dest' i = zth dest i).
Proof.
  intros Hwf Hcap Hpos Hlen Hdest.
  pose proof (wf_size_max rb Hwf) as Hmax.
  pose proof Hwf as [Hb _ _ _ _ _].
  unfold RingBuffer.peek_at, size_rem.
  replace (RingBuffer.capacity rb =? 0) with false
    by (symmetry; apply Z.eqb_neq; lia).
  cbn [bind].
  set (offset := absolute_ring_pos mod RingBuffer.capacity rb).
  assert (Hoff : 0 <= offset < RingBuffer.capacity rb)
    by (apply Z.mod_pos_bound; lia).
  destruct (circular_copy_out (RingBuffer.buffer rb) (RingBuffer.capacity rb)
              offset dest len) as (d2 & E & L & In & Out); try lia.
  cbv zeta in E. unfold bind in *.
  destruct (memcpy dest 0 _ _ _) as [d1|]; [|discriminate].
  rewrite E. exists d2. split; [reflexivity|]. split; [exact L|].
  split; [|exact Out].
  intros i Hi. cbv zeta. rewrite In by exact Hi.
  rewrite mod_once by lia.
  destruct (offset + i <? RingBuffer.capacity rb) eqn:Ew;
    [apply Z.ltb_lt in Ew | apply Z.ltb_ge in Ew];
    (split; [lia|reflexivity]).
Qed.

Lemma peek_at_in_bounds_witness :
  RingBuffer.wf rb_wrapped /\
  exists dest',
    RingBuffer.peek_at rb_wrapped 6 [chF; chF; chF; chF] 3
    = Some (3, dest', rb_wrapped) /\
    zth dest' 0 = chA /\ zth dest' 1 = chB /\ zth dest' 2 = chC /\
    zth dest' 3 = chF.
Proof.
  split; [exact rb_wrapped_wf|].
  destruct (peek_at_in_bounds rb_wrapped 6 [chF; chF; chF; chF] 3
              rb_wrapped_wf)
    as (dest' & E & _ & In & Out);
    [simpl; lia | zbounds | simpl; lia | unfold zlen; simpl; lia |].
  exists dest'. split; [exact E|].
  pose proof (In 0 ltac:(lia)) as [_ H0].
  pose proof (In 1 ltac:(lia)) as [_ H1].
  pose proof (In 2 ltac:(lia)) as [_ H2].
  pose proof (Out 3 ltac:(unfold zlen; simpl; lia)) as H3.
  repeat split; assumption.
Defined.

(** The constructor establishes the invariant, with nothing stored. *)
Theorem constructor_establishes_invariant (cap : Z) :
  1 <= cap <= PTRDIFF_MAX ->
  RingBuffer.wf (RingBuffer.make cap) /\
  RingBuffer.capacity (RingBuffer.make cap) = cap /\
  RingBuffer.contents (RingBuffer.make cap) = [].
Proof.
  intros H. destruct (make_wf cap H) as [Hwf Hc].
  split; [exact Hwf|]. split; [reflexivity|exact Hc].
Qed.

Lemma constructor_establishes_invariant_witness :
  1 <= 4 <= PTRDIFF_MAX /\ RingBuffer.wf (RingBuffer.make 4).
Proof.
  assert (H : 1 <= 4 <= PTRDIFF_MAX) by zbounds.
  split; [exact H|]. apply (constructor_establishes_invariant 4 H).
Defined.

(** First in, first out: what [write] accepts comes back from [read]
    after the bytes that were already stored, in the order it went in. *)
Theorem write_then_read_is_fifo
        (rb : RingBuffer.t) (data dst : list byte) (len : Z) :
  RingBuffer.wf rb ->
  0 <= len <= RingBuffer.capacity rb - RingBuffer.size rb ->
  len <= zlen data ->
  RingBuffer.size rb + len <= zlen dst ->
  exists rb1 rb2,
    RingBuffer.write rb data len = Some (len, rb1) /\
    RingBuffer.read rb1 (Some dst) (RingBuffer.size rb + len)
    = Some (RingBuffer.size rb + len,
            Some (RingBuffer.contents rb ++ firstn (Z.to_nat len) data
                  ++ skipn (Z.to_nat (RingBuffer.size rb + len)) dst),
            rb2) /\
    RingBuffer.wf rb2 /\
    RingBuffer.size rb2 = 0.
Proof.
  intros Hwf Hlen Hdata Hdst.
  pose proof (wf_size_max rb Hwf) as Hmax.
  pose proof Hwf as [_ _ Hsz _ _ _].
  destruct (rb_write_spec rb data len Hwf) as
    (rb1 & E1 & Hwf1 & Hc1 & _ & Hs1 & Hcont1); [lia|lia|].
  rewrite Z.min_l in E1, Hs1, Hcont1 by lia.
  destruct (rb_read_spec rb1 dst (RingBuffer.size rb + len) Hwf1) as
    (rb2 & E2 & Hwf2 & _ & _ & Hs2 & _); [lia|rewrite Hs1; lia|].
  rewrite Hs1, Z.min_id in E2, Hs2.
  exists rb1, rb2. split; [exact E1|]. split; [|split; [exact Hwf2|lia]].
  rewrite E2. do 3 f_equal.
  rewrite Hcont1.
  rewrite firstn_all2; [rewrite <- app_assoc; reflexivity|].
  pose proof (contents_zlen rb ltac:(lia)) as Hl.
  assert (Hf : zlen (firstn (Z.to_nat len) data) = len)
    by (apply zlen_firstn; lia).
  unfold zlen in Hl, Hf. rewrite length_app. lia.
Qed.

Lemma write_then_read_is_fifo_witness :
  RingBuffer.wf rb_wrapped /\
  exists rb1 rb2,
    RingBuffer.write rb_wrapped [chD] 1 = Some (1, rb1) /\
    RingBuffer.read rb1 (Some [chF; chF; chF; chF]) 4
    = Some (4, Some [chA; chB; chC; chD], rb2).
Proof.
  split; [exact rb_wrapped_wf|].
  destruct (write_then_read_is_fifo rb_wrapped [chD] [chF; chF; chF; chF] 1
              rb_wrapped_wf) as (rb1 & rb2 & E1 & E2 & _);
    [simpl; lia | unfold zlen; simpl; lia | unfold zlen; simpl; lia |].
  exists rb1, rb2. split; [exact E1|exact E2].
Defined.

(* ------------------------------------------------------------------ *)
(** ** The engine: facts that hold in every state *)

Lemma last_ret_returning {Store : Type} (w : World Store) (e : Z)
      (r : api_return) :
  last_ret (returning Store w e r) = Some (ret r).
Proof. unfold last_ret, returning. simpl. now rewrite rev_unit. Qed.

(** [conveyor_flush] has one return value, 0, and never touches [errno]. *)
Theorem flush_returns_zero {Store : Type} (w : World Store) :
  errno (conveyor_flush Store w) = errno w /\
  (client (conveyor_flush Store w) = C_idle ->
   last_ret (conveyor_flush Store w) = Some 0).
Proof.
  unfold conveyor_flush, conveyor_flush_wake.
  destruct (negb (write_buffer_enabled (impl w))).
  - split; [reflexivity|]. intros _. apply last_ret_returning.
  - destruct (RingBuffer.available_data (write_buffer (impl w)) >? 0).
    + cbn [impl with_impl write_buffer set_write_buffer_needs_flush
                write_worker_stop_flag].
      destruct (RingBuffer.empty (write_buffer (impl w))
                || write_worker_stop_flag (impl w)).
      * split; [reflexivity|]. intros _. apply last_ret_returning.
      * split; [reflexivity|]. simpl. discriminate.
    + split; [reflexivity|]. intros _. apply last_ret_returning.
Qed.

(** A successful [conveyor_lseek] empties the write ring without a single
    call of the [write] callback. *)
Theorem lseek_success_clears_write_buffer
      {Store : Type} (ops : storage_operations_t.t Store) (w : World Store)
      (offset whence : Z) :
  write_buffer_enabled (impl w) = true ->
  io_ret (fst (storage_operations_t.lseek ops (handle (impl w)) offset whence
                                          (storage w)))
  <> LIBCONVEYOR_ERROR ->
  let w' := conveyor_lseek Store ops w offset whence in
  RingBuffer.contents (write_buffer (impl w')) = [] /\
  delivered (io_log w') = delivered (io_log w).
Proof.
  intros Hen Hret w'. unfold w', conveyor_lseek.
  destruct (storage_operations_t.lseek ops _ _ _ _) as [r st]. simpl in *.
  apply Z.eqb_neq in Hret. rewrite Hret. simpl.
  assert (Hk : write_buffer_enabled
                 (if read_buffer_enabled (impl w)
                  then set_read_eof_flag
                         (set_read_buffer_stale
                            (set_read_buffer (impl w)
                               (RingBuffer.clear (read_buffer (impl w)))) true)
                         false
                  else impl w) = true)
    by (destruct (read_buffer_enabled (impl w)); exact Hen).
  rewrite Hk. simpl. split; [reflexivity|].
  unfold delivered. rewrite flat_map_app. simpl. now rewrite app_nil_r.
Qed.

(* ------------------------------------------------------------------ *)
(** ** The engine: flush, seek, read-after-write, errors, creation *)

(** C1.  [conveyor_flush] can return 0 while bytes that [conveyor_write]
    accepted have not reached the backing store: writeWorker empties the
    write ring into its private vector under the mutex and only then,
    unlocked, calls the [write] callback; a flush that runs in between
    finds the ring empty.  Schedule: write "AB" (returns 2); writeWorker
    drains the ring; flush (returns 0).  Nothing has been delivered. *)
Theorem flush_returns_before_delivery :
  exists w,
    run Mock.t Mock.mock_ops write_only_engine
        [Client (Call_write [chA; chB] 2); WriteWorker; Client Call_flush]
    = Some w /\
    return_values w = [2; 0] /\
    client w = C_idle /\
    wworker w = WW_io [chA; chB] 2 /\
    delivered (io_log w) = [] /\
    Mock.g_mock_storage_data (storage w) = [].
Proof.
  eexists. split; [vm_compute; reflexivity|]. repeat split.
Qed.

(** C2.  [conveyor_lseek] performs no flush: a successful seek clears the
    write ring.  Schedule: write "AB" (returns 2); seek to 0 (returns 0).
    The ring is empty, the [write] callback was never called, writeWorker
    has nothing to run on, and a later flush returns 0 at once: "AB" is
    lost. *)
Theorem lseek_discards_pending_writes :
  exists w w',
    run Mock.t Mock.mock_ops read_write_engine
        [Client (Call_write [chA; chB] 2)] = Some w /\
    RingBuffer.contents (write_buffer (impl w)) = [chA; chB] /\
    run Mock.t Mock.mock_ops w
        [Client (Call_lseek 0 SEEK_SET); Client Call_flush] = Some w' /\
    return_values w' = [2; 0; 0] /\
    RingBuffer.contents (write_buffer (impl w')) = [] /\
    io_log w' = [IoLseek 0 SEEK_SET 0] /\
    delivered (io_log w') = [] /\
    step Mock.t Mock.mock_ops w' WriteWorker = None.
Proof.
  eexists. eexists. split; [vm_compute; reflexivity|].
  split; [reflexivity|]. split; [vm_compute; reflexivity|].
  repeat split.
Qed.

(** C3.  A read does not see a pending write.  Schedule on a read-write
    engine over an empty store: write "AB" (returns 2); writeWorker takes
    the bytes and is about to call the slow [write] callback; seek to 0;
    read 2 bytes: readWorker finds the store empty and raises EOF, and
    the read returns 0 with the caller's buffer untouched. *)
Theorem read_after_write_misses_pending_bytes :
  exists w,
    run Mock.t Mock.mock_ops read_write_engine
        [Client (Call_write [chA; chB] 2); WriteWorker;
         Client (Call_lseek 0 SEEK_SET);
         Client (Call_read [chC; chC] 2);
         ReadWorker; ReadWorker; ReadWorker; Wake]
    = Some w /\
    returns w = [mk_ret 2 []; mk_ret 0 []; mk_ret 0 [chC; chC]] /\
    client w = C_idle /\
    wworker w = WW_io [chA; chB] 2.
Proof.
  eexists. split; [vm_compute; reflexivity|]. repeat split.
Qed.

(** C4.  A failed [write] callback leaves no trace in the engine.
    Schedule on a read-write engine whose first [write] fails with EIO:
    write "AB" (returns 2); writeWorker drains, calls the callback, which
    returns -1, and goes back to waiting; then flush, seek, read and
    write return 0, 0, 0 and 2, and the client's [errno] is still 0. *)
Theorem write_error_is_not_sticky :
  exists w w',
    run Mock.t Mock.failing_ops read_write_engine
        [Client (Call_write [chA; chB] 2);
         WriteWorker; WriteWorker; WriteWorker] = Some w /\
    io_log w = [IoWrite [chA; chB] 2 LIBCONVEYOR_ERROR] /\
    run Mock.t Mock.failing_ops w
        [Client Call_flush;
         Client (Call_lseek 0 SEEK_SET);
         Client (Call_read [chE; chE] 2);
         ReadWorker; ReadWorker; ReadWorker; Wake;
         Client (Call_write [chC; chD] 2)] = Some w' /\
    return_values w' = [2; 0; 0; 0; 2] /\
    errno w' = 0.
Proof.
  eexists. eexists. split; [vm_compute; reflexivity|].
  split; [reflexivity|]. split; [vm_compute; reflexivity|].
  repeat split.
Qed.

(** C5.  [conveyor_create] enables the directions by access mode alone.
    With [O_RDWR] and both capacities zero, both directions are enabled
    and both workers run; a write then parks for ever in
    [write_cv_producer.wait], since a ring of capacity 0 never has
    space, where a disabled direction would answer -1 with EBADF. *)
Theorem zero_capacity_does_not_disable :
  write_buffer_enabled (impl zero_capacity_engine) = true /\
  read_buffer_enabled (impl zero_capacity_engine) = true /\
  RingBuffer.capacity (write_buffer (impl zero_capacity_engine)) = 0 /\
  RingBuffer.capacity (read_buffer (impl zero_capacity_engine)) = 0 /\
  wworker zero_capacity_engine = WW_wait [] /\
  rworker zero_capacity_engine = RW_wait [] /\
  exists w,
    run Mock.t Mock.mock_ops zero_capacity_engine
        [Client (Call_write [chA] 1)] = Some w /\
    client w = C_write_wait [chA] 1 0 /\
    returns w = [] /\
    step Mock.t Mock.mock_ops w Wake = None /\
    step Mock.t Mock.mock_ops w WriteWorker = None.
Proof.
  repeat split. eexists. split; [vm_compute; reflexivity|]. repeat split.
Qed.

(** C6.  A write longer than the write ring is not refused.  On a ring of
    capacity 4, a write of "ABCDEF" puts "ABCD" into the ring and parks;
    writeWorker hands "ABCD" to the backing store; the write resumes,
    puts "EF" into the ring and returns 6 with [errno] still 0. *)
Theorem oversized_write_is_accepted_in_parts :
  exists w1 w2 w3,
    run Mock.t Mock.mock_ops small_engine
        [Client (Call_write [chA; chB; chC; chD; chE; chF] 6)] = Some w1 /\
    client w1 = C_write_wait [chE; chF] 2 4 /\
    RingBuffer.contents (write_buffer (impl w1)) = [chA; chB; chC; chD] /\
    run Mock.t Mock.mock_ops w1 [WriteWorker; WriteWorker; WriteWorker]
    = Some w2 /\
    delivered (io_log w2) = [chA; chB; chC; chD] /\
    Mock.g_mock_storage_data (storage w2) = [chA; chB; chC; chD] /\
    run Mock.t Mock.mock_ops w2 [Wake] = Some w3 /\
    return_values w3 = [6] /\
    errno w3 = 0 /\
    RingBuffer.contents (write_buffer (impl w3)) = [chE; chF].
Proof.
  eexists. eexists. eexists. split; [vm_compute; reflexivity|].
  split; [reflexivity|]. split; [reflexivity|].
  split; [vm_compute; reflexivity|].
  split; [reflexivity|]. split; [reflexivity|].
  split; [vm_compute; reflexivity|].
  repeat split.
Qed.

(** C9, as stated, fails: [conveyor_lseek] tests the callback's result
    against [LIBCONVEYOR_ERROR] only.  With the [lseek_callback] of
    test/mock_storage.hpp, which hands [offset] back, a seek to -2 makes
    the callback return -2, and the engine takes it for a position. *)
Lemma lseek_negative_result_changes_state :
  let w := read_write_engine in
  let w' := conveyor_lseek Mock.t Mock.unchecked_ops w (-2) SEEK_SET in
  io_ret (fst (storage_operations_t.lseek Mock.unchecked_ops (handle (impl w))
                                          (-2) SEEK_SET (storage w))) < 0 /\
  last_ret w' = Some (-2) /\
  impl w' <> impl w /\
  current_file_offset (impl w) = 0 /\
  current_file_offset (impl w') = -2 /\
  current_pos_in_storage (impl w') = -2 /\
  read_buffer_stale (impl w) = false /\
  read_buffer_stale (impl w') = true.
Proof.
  cbv zeta. split; [vm_compute; reflexivity|]. split; [reflexivity|].
  split; [|repeat split].
  intros H. apply (f_equal current_file_offset) in H.
  vm_compute in H. discriminate H.
Qed.

(** C9, amended.  Whenever the backing-store [lseek] callback returns
    [LIBCONVEYOR_ERROR] (-1), [conveyor_lseek] returns -1 and leaves the
    whole engine state as it was: both ring buffers, the stale and EOF
    flags, the logical file offset, the stored storage position, and the
    two workers. *)
Theorem lseek_error_leaves_engine_unchanged
        {Store : Type} (ops : storage_operations_t.t Store) (w : World Store)
        (offset whence : Z) :
  io_ret (fst (storage_operations_t.lseek ops (handle (impl w)) offset whence
                                          (storage w)))
  = LIBCONVEYOR_ERROR ->
  let w' := conveyor_lseek Store ops w offset whence in
  last_ret w' = Some LIBCONVEYOR_ERROR /\
  impl w' = impl w /\
  wworker w' = wworker w /\
  rworker w' = rworker w.
Proof.
  intros Hret w'. unfold w', conveyor_lseek.
  destruct (storage_operations_t.lseek ops _ _ _ _) as [r st].
  simpl in Hret. rewrite Hret. simpl.
  split; [|repeat split].
  unfold last_ret. simpl. now rewrite rev_unit.
Qed.

Lemma lseek_error_leaves_engine_unchanged_witness :
  let w := read_write_engine in
  let w' := conveyor_lseek Mock.t Mock.mock_ops w (-5) SEEK_SET in
  io_ret (fst (Mock.mock_lseek (handle (impl w)) (-5) SEEK_SET (storage w)))
  = LIBCONVEYOR_ERROR /\
  last_ret w' = Some LIBCONVEYOR_ERROR /\
  impl w' = impl w.
Proof.
  cbv zeta. split; [reflexivity|].
  destruct (lseek_error_leaves_engine_unchanged Mock.mock_ops
              read_write_engine (-5) SEEK_SET) as (Hr & Hi & _);
    [reflexivity|].
  split; [exact Hr|exact Hi].
Defined.

(* ------------------------------------------------------------------ *)
(** ** The engine: what the write worker delivers *)

Lemma zlen_vector_resize (v : list byte) (n : Z) :
  0 <= n -> zlen (vector_resize v n) = n.
Proof.
  intros H. unfold zlen, vector_resize.
  rewrite length_app, length_firstn, repeat_length. lia.
Qed.

Lemma delivered_app (l1 l2 : list io_event) :
  delivered (l1 ++ l2) = delivered l1 ++ delivered l2.
Proof. unfold delivered. apply flat_map_app. Qed.

(** Two steps of writeWorker - the locked drain and the unlocked call of
    the [write] callback - hand the backing store exactly the logical
    contents of the write ring, oldest byte first, in one call, and leave
    the ring empty. *)
Theorem writeWorker_delivers_contents_in_order
        {Store : Type} (ops : storage_operations_t.t Store) (w : World Store)
        (temp : list byte) :
  wworker w = WW_wait temp ->
  RingBuffer.wf (write_buffer (impl w)) ->
  0 < RingBuffer.size (write_buffer (impl w)) ->
  exists w1 w2,
    writeWorker Store ops w = Some w1 /\
    RingBuffer.contents (write_buffer (impl w1)) = [] /\
    writeWorker Store ops w1 = Some w2 /\
    delivered (io_log w2)
    = delivered (io_log w) ++ RingBuffer.contents (write_buffer (impl w)).
Proof.
  intros Hpc Hwf Hpos.
  pose proof (wf_size_max _ Hwf) as Hmax.
  pose proof Hwf as [_ _ Hsz _ _ _].
  set (rb := write_buffer (impl w)) in *.
  set (n := RingBuffer.size rb) in *.
  destruct (rb_read_spec rb (vector_resize temp n) n Hwf) as
    (rb' & E & Hwf' & _ & _ & Hs' & Hcont');
    [lia | rewrite zlen_vector_resize; lia |].
  fold n in E, Hs', Hcont'. rewrite Z.min_id in E, Hs', Hcont'.
  assert (Hall : firstn (Z.to_nat n) (RingBuffer.contents rb)
                 = RingBuffer.contents rb).
  { apply firstn_all2. pose proof (contents_zlen rb ltac:(lia)) as Hl.
    unfold zlen in Hl. fold n in Hl. lia. }
  assert (Hnil : skipn (Z.to_nat n) (vector_resize temp n) = []).
  { apply skipn_all2. pose proof (zlen_vector_resize temp n ltac:(lia)) as Hl.
    unfold zlen in Hl. lia. }
  rewrite Hall, Hnil, app_nil_r in E.
  set (c2 := if write_buffer_needs_flush (impl w)
            then set_write_buffer_needs_flush
                   (set_write_buffer (impl w) rb') false
            else set_write_buffer (impl w) rb').
  set (w1 := with_wworker Store (with_impl Store w c2)
               (WW_io (RingBuffer.contents rb) n)).
  assert (H1 : writeWorker Store ops w = Some w1).
  { unfold writeWorker. rewrite Hpc. fold rb.
    unfold RingBuffer.available_data, RingBuffer.empty. fold n.
    replace (n >? 0) with true by (symmetry; apply Z.gtb_lt; lia).
    replace (n =? 0) with false by (symmetry; apply Z.eqb_neq; lia).
    rewrite andb_false_r. cbn [orb]. rewrite E. reflexivity. }
  assert (Hc2 : flags c2 = flags (impl w) /\ handle c2 = handle (impl w) /\
                write_buffer c2 = rb')
    by (unfold c2; destruct (write_buffer_needs_flush (impl w));
        repeat split).
  exists w1.
  assert (H2 : exists w2,
             writeWorker Store ops w1 = Some w2 /\
             delivered (io_log w2)
             = delivered (io_log w) ++ RingBuffer.contents rb).
  { unfold writeWorker, w1.
    cbn [wworker with_wworker with_impl impl storage].
    destruct (negb (Z.land (flags c2) O_APPEND =? 0)).
    - destruct (storage_operations_t.lseek ops _ _ _ _) as [r1 st1].
      cbn [storage with_io].
      destruct (storage_operations_t.write ops _ _ _ _) as [r2 st2].
      eexists. split; [reflexivity|]. cbn [io_log with_wworker with_io].
      rewrite !delivered_app. cbn. rewrite !app_nil_r.
      rewrite Hall. reflexivity.
    - destruct (storage_operations_t.write ops _ _ _ _) as [r2 st2].
      eexists. split; [reflexivity|]. cbn [io_log with_wworker with_io].
      rewrite !delivered_app. cbn. rewrite !app_nil_r.
      rewrite Hall. reflexivity. }
  destruct H2 as (w2 & E2 & Hd).
  exists w2. split; [exact H1|]. split; [|split; [exact E2|exact Hd]].
  unfold w1. cbn [impl with_wworker with_impl].
  destruct Hc2 as (_ & _ & Hwb). rewrite Hwb. apply contents_empty. lia.
Qed.

Lemma writeWorker_delivers_contents_in_order_witness :
  exists w w1 w2,
    run Mock.t Mock.mock_ops write_only_engine
        [Client (Call_write [chA; chB] 2)] = Some w /\
    writeWorker Mock.t Mock.mock_ops w = Some w1 /\
    writeWorker Mock.t Mock.mock_ops w1 = Some w2 /\
    delivered (io_log w2) = [chA; chB].
Proof.
  eexists. 
  assert (Hwf : RingBuffer.wf
                  (write_buffer
                     (impl (with_impl Mock.t write_only_engine
                              (set_current_file_offset
                                 (set_write_buffer (impl write_only_engine)
                                    (RingBuffer.mk
                                       (chA :: chB :: repeat Byte.x00 6)
                                       8 2 0 2)) 2))))).
  { constructor; cbn; try reflexivity; zbounds. }
  destruct (writeWorker_delivers_contents_in_order Mock.mock_ops
              (returning Mock.t
                 (with_impl Mock.t write_only_engine
                    (set_current_file_offset
                       (set_write_buffer (impl write_only_engine)
                          (RingBuffer.mk (chA :: chB :: repeat Byte.x00 6)
                                         8 2 0 2)) 2))
                 0 (mk_ret 2 []))
              [] eq_refl Hwf) as (w1 & w2 & E1 & _ & E2 & Hd);
    [cbn; lia|].
  exists w1, w2. split; [vm_compute; reflexivity|].
  split; [exact E1|]. split; [exact E2|exact Hd].
Defined.

Lemma off_wrap_id (z : Z) : - 2 ^ 63 <= z < 2 ^ 63 -> off_wrap z = z.
Proof. intros H. unfold off_wrap. rewrite Z.mod_small; lia. Qed.

Lemma conveyor_write_loop_done
      (fuel : nat) (c : ConveyorImpl) (cur : list byte) (wr : Z) :
  conveyor_write_loop fuel c cur 0 wr = Some (W_done c wr).
Proof. destruct fuel; reflexivity. Qed.

(** A [conveyor_write] that fits into the free space of the write ring
    returns at once with the full count, appends its bytes to the logical
    contents of the ring, advances the logical file offset and leaves
    [errno] alone. *)
Theorem conveyor_write_accepts_in_order
        {Store : Type} (w : World Store) (buf : list byte) (count : Z) :
  write_buffer_enabled (impl w) = true ->
  write_worker_stop_flag (impl w) = false ->
  RingBuffer.wf (write_buffer (impl w)) ->
  0 < count <= RingBuffer.capacity (write_buffer (impl w))
               - RingBuffer.size (write_buffer (impl w)) ->
  count <= zlen buf ->
  exists w',
    conveyor_write Store w buf count = Some w' /\
    last_ret w' = Some count /\
    client w' = C_idle /\
    errno w' = errno w /\
    RingBuffer.contents (write_buffer (impl w'))
    = RingBuffer.contents (write_buffer (impl w))
      ++ firstn (Z.to_nat count) buf /\
    current_file_offset (impl w')
    = off_add (current_file_offset (impl w)) count.
Proof.
  intros Hen Hstop Hwf Hcount Hbuf.
  pose proof (wf_size_max _ Hwf) as Hmax.
  pose proof Hwf as [_ Halloc Hsz _ _ _].
  destruct (rb_write_spec (write_buffer (impl w)) buf count Hwf) as
    (rb' & E & Hwf' & _ & _ & _ & Hcont); [lia|lia|].
  rewrite Z.min_l in E, Hcont by lia.
  unfold conveyor_write, conveyor_write_from. rewrite Hen. cbn [negb].
  cbn [conveyor_write_loop]. rewrite Hstop.
  replace (count >? 0) with true by (symmetry; apply Z.gtb_lt; lia).
  unfold RingBuffer.available_space.
  replace (size_sub (RingBuffer.capacity (write_buffer (impl w)))
                    (RingBuffer.size (write_buffer (impl w))) >? 0) with true
    by (symmetry; apply Z.gtb_lt; unfold size_sub;
        rewrite size_wrap_id; lia).
  cbn [andb orb negb]. rewrite E. cbn [bind].
  replace (size_sub count count) with 0
    by (unfold size_sub, size_wrap; rewrite Z.sub_diag; reflexivity).
  rewrite conveyor_write_loop_done. cbn [bind].
  eexists. split; [reflexivity|].
  split; [rewrite last_ret_returning; cbn; unfold off_add;
          rewrite off_wrap_id by zbounds; reflexivity|].
  split; [reflexivity|]. split; [reflexivity|].
  cbn [impl returning with_impl].
  destruct (read_buffer_enabled _ && negb (Z.land (flags _) O_RDWR =? 0));
    cbn; split; (exact Hcont || reflexivity).
Qed.

Lemma conveyor_write_accepts_in_order_witness :
  exists w',
    conveyor_write Mock.t write_only_engine [chA; chB] 2 = Some w' /\
    last_ret w' = Some 2 /\
    RingBuffer.contents (write_buffer (impl w')) = [chA; chB].
Proof.
  destruct (conveyor_write_accepts_in_order write_only_engine [chA; chB] 2)
    as (w' & E & Hr & _ & _ & Hc & _);
    [reflexivity | reflexivity
     | apply (proj1 (make_wf 8 ltac:(zbounds)))
     | cbn; lia | unfold zlen; cbn; lia |].
  exists w'. split; [exact E|]. split; [exact Hr|exact Hc].
Defined.

Lemma flush_returns_zero_witness :
  client (conveyor_flush Mock.t write_only_engine) = C_idle /\
  last_ret (conveyor_flush Mock.t write_only_engine) = Some 0.
Proof.
  split; [reflexivity|].
  apply (flush_returns_zero write_only_engine). reflexivity.
Defined.

Lemma lseek_success_clears_write_buffer_witness :
  exists w,
    run Mock.t Mock.mock_ops read_write_engine
        [Client (Call_write [chA; chB] 2)] = Some w /\
    RingBuffer.contents (write_buffer (impl w)) = [chA; chB] /\
    RingBuffer.contents
      (write_buffer (impl (conveyor_lseek Mock.t Mock.mock_ops w 0 SEEK_SET)))
    = [] /\
    delivered (io_log (conveyor_lseek Mock.t Mock.mock_ops w 0 SEEK_SET)) = [].
Proof.
  eexists. split; [vm_compute; reflexivity|]. split; [reflexivity|].
  match goal with
  | |- RingBuffer.contents
         (write_buffer (impl (conveyor_lseek _ _ ?w _ _))) = _ /\ _ =>
      destruct (lseek_success_clears_write_buffer Mock.mock_ops w 0 SEEK_SET)
        as [Hc Hd]; [reflexivity | cbn; discriminate |]
  end.
  split; [exact Hc|exact Hd].
Defined.

(* ------------------------------------------------------------------ *)
(** ** The engine: what reaches [errno] *)

(** On an enabled direction, [conveyor_write] and [conveyor_read] leave
    [errno] as they found it, whether they return or park: apart from
    EBADF on a disabled direction they report no error at all. *)
Theorem write_and_read_never_set_errno
        {Store : Type} (w w' : World Store) (buf : list byte) (count : Z) :
  (write_buffer_enabled (impl w) = true ->
   conveyor_write Store w buf count = Some w' -> errno w' = errno w) /\
  (read_buffer_enabled (impl w) = true ->
   conveyor_read Store w buf count = Some w' -> errno w' = errno w).
Proof.
  split; intros Hen H.
  - unfold conveyor_write, conveyor_write_from in H. rewrite Hen in H.
    cbn [negb] in H.
    destruct (conveyor_write_loop _ _ _ _ _) as [[c wr|c cur rem wr]|];
      cbn [bind] in H; inversion H; reflexivity.
  - unfold conveyor_read, conveyor_read_from in H. rewrite Hen in H.
    cbn [negb] in H.
    destruct (conveyor_read_loop _ _ _ _ _ _ _)
      as [[c f cur tot|c f cur rem tot]|];
      cbn [bind] in H; inversion H; reflexivity.
Qed.

Lemma write_and_read_never_set_errno_witness :
  exists w',
    conveyor_write Mock.t small_engine [chA; chB; chC; chD; chE; chF] 6
    = Some w' /\
    errno w' = 0.
Proof.
  eexists. split; [vm_compute; reflexivity|].
  match goal with
  | |- errno ?w' = _ =>
      apply (proj1 (write_and_read_never_set_errno small_engine w'
                      [chA; chB; chC; chD; chE; chF] 6)); reflexivity
  end.
Defined.

(* ------------------------------------------------------------------ *)
(** ** The engine: [conveyor_write] always has an outcome *)

Lemma conveyor_write_loop_total (fuel : nat) :
  forall (c : ConveyorImpl) (cur : list byte) (rem wr : Z),
    (Z.to_nat rem < fuel)%nat ->
    0 <= rem <= SIZE_MAX ->
    rem <= zlen cur ->
    RingBuffer.wf (write_buffer c) ->
    exists r, conveyor_write_loop fuel c cur rem wr = Some r.
Proof.
  induction fuel as [|fuel IH]; intros c cur rem wr Hfuel Hrem Hcur Hwf.
  - lia.
  - cbn [conveyor_write_loop].
    destruct ((rem >? 0) && negb (write_worker_stop_flag c)) eqn:Eloop;
      [|eexists; reflexivity].
    apply andb_true_iff in Eloop. destruct Eloop as [Epos Estop].
    apply Z.gtb_lt in Epos. apply negb_true_iff in Estop. rewrite Estop.
    rewrite orb_false_r.
    destruct (RingBuffer.available_space (write_buffer c) >? 0) eqn:Espace;
      [|eexists; reflexivity].
    apply Z.gtb_lt in Espace.
    pose proof (wf_size_max _ Hwf) as Hmax.
    pose proof Hwf as [_ _ Hsz _ _ _].
    unfold RingBuffer.available_space, size_sub in Espace.
    rewrite size_wrap_id in Espace by lia.
    destruct (rb_write_spec (write_buffer c) cur rem Hwf Hrem Hcur) as
      (rb' & E & Hwf' & _).
    rewrite E. cbn [bind].
    set (n := Z.min rem (RingBuffer.capacity (write_buffer c)
                         - RingBuffer.size (write_buffer c))) in *.
    assert (Hn : 1 <= n <= rem) by (unfold n; lia).
    assert (Hsub : size_sub rem n = rem - n)
      by (unfold size_sub; apply size_wrap_id; lia).
    rewrite Hsub. apply IH.
    + lia.
    + lia.
    + rewrite zlen_skipn by lia. lia.
    + exact Hwf'.
Qed.

(** Whatever the state of a well-formed write ring and whatever the
    length asked for, a call of [conveyor_write] has an outcome: it
    returns or it parks in its [wait]; the loop needs no more iterations
    than bytes. *)
Theorem conveyor_write_has_an_outcome
        {Store : Type} (w : World Store) (buf : list byte) (count : Z) :
  RingBuffer.wf (write_buffer (impl w)) ->
  0 <= count <= SIZE_MAX ->
  count <= zlen buf ->
  exists w',
    conveyor_write Store w buf count = Some w' /\
    (client w' = C_idle \/
     exists cur rem wr, client w' = C_write_wait cur rem wr).
Proof.
  intros Hwf Hcount Hbuf. unfold conveyor_write, conveyor_write_from.
  destruct (negb (write_buffer_enabled (impl w))).
  - eexists. split; [reflexivity|]. left. reflexivity.
  - destruct (conveyor_write_loop_total (S (Z.to_nat count)) (impl w) buf
                count 0) as [r E]; [lia|lia|lia|exact Hwf|].
    rewrite E. cbn [bind]. destruct r as [c wr|c cur rem wr].
    + eexists. split; [reflexivity|]. left. reflexivity.
    + eexists. split; [reflexivity|]. right. eexists _, _, _. reflexivity.
Qed.

Lemma conveyor_write_has_an_outcome_witness :
  exists w',
    conveyor_write Mock.t small_engine [chA; chB; chC; chD; chE; chF] 6
    = Some w' /\
    (client w' = C_idle \/
     exists cur rem wr, client w' = C_write_wait cur rem wr).
Proof.
  apply (conveyor_write_has_an_outcome small_engine
           [chA; chB; chC; chD; chE; chF] 6).
  - apply (proj1 (make_wf 4 ltac:(zbounds))).
  - zbounds.
  - unfold zlen. cbn. lia.
Defined.

(* ------------------------------------------------------------------ *)
(** ** RingBuffer: peeking, edges and composition *)

Lemma zth_overflow (l : list byte) (i : Z) :
  zlen l <= i -> zth l i = Byte.x00.
Proof. unfold zlen, zth. intros H. apply nth_overflow. lia. Qed.

(** Two well-formed buffers with the same capacity, head and size have
    the same tail. *)
Lemma wf_tail_determined (a b : RingBuffer.t) :
  RingBuffer.wf a -> RingBuffer.wf b ->
  RingBuffer.capacity a = RingBuffer.capacity b ->
  RingBuffer.head a = RingBuffer.head b ->
  RingBuffer.size a = RingBuffer.size b ->
  RingBuffer.tail a = RingBuffer.tail b.
Proof.
  intros [_ _ Hsa Hha Hta Hpa] [_ _ Hsb Hhb Htb Hpb] Hc Hh Hs.
  rewrite Hpa, Hpb, Hc, Hs in Hh.
  rewrite <- Hc in Htb. rewrite Hs in Hsa. rewrite <- Hc in Hh.
  rewrite !mod_once in Hh by lia.
  destruct (RingBuffer.tail a + RingBuffer.size b <? RingBuffer.capacity a)
    eqn:Ea;
    destruct (RingBuffer.tail b + RingBuffer.size b <? RingBuffer.capacity a)
      eqn:Eb;
    try apply Z.ltb_lt in Ea; try apply Z.ltb_ge in Ea;
    try apply Z.ltb_lt in Eb; try apply Z.ltb_ge in Eb; lia.
Qed.

(** [peek_at] at [tail + k] copies out the logical bytes number
    [k, k+1, ..., k+len-1], the very bytes a [read] would deliver after
    skipping [k], and consumes nothing. *)
Theorem peek_at_reads_contents
        (rb : RingBuffer.t) (k len : Z) (dest : list byte) :
  RingBuffer.wf rb ->
  0 <= k -> 0 <= len -> k + len <= RingBuffer.size rb ->
  len <= zlen dest ->
  RingBuffer.peek_at rb (RingBuffer.tail rb + k) dest len
  = Some (len,
          firstn (Z.to_nat len) (skipn (Z.to_nat k) (RingBuffer.contents rb))
          ++ skipn (Z.to_nat len) dest,
          rb).
Proof.
  intros Hwf Hk Hlen Hfit Hdest.
  pose proof (wf_size_max rb Hwf) as Hmax.
  pose proof Hwf as [Hb _ Hs _ Ht _].
  unfold RingBuffer.peek_at, size_rem.
  replace (RingBuffer.capacity rb =? 0) with false
    by (symmetry; apply Z.eqb_neq; lia).
  cbn [bind].
  set (offset := (RingBuffer.tail rb + k) mod RingBuffer.capacity rb).
  assert (Hoff : 0 <= offset < RingBuffer.capacity rb)
    by (apply Z.mod_pos_bound; lia).
  destruct (circular_copy_out (RingBuffer.buffer rb) (RingBuffer.capacity rb)
              offset dest len) as (d2 & E & L & In & Out); try lia.
  cbv zeta in E. unfold bind in *.
  destruct (memcpy dest 0 _ _ _) as [d1|]; [|discriminate].
  rewrite E. do 3 f_equal.
  assert (Hcl : zlen (skipn (Z.to_nat k) (RingBuffer.contents rb))
                = RingBuffer.size rb - k)
    by (rewrite zlen_skipn, contents_zlen; rewrite ?contents_zlen; lia).
  apply zth_ext.
  - rewrite zlen_app, zlen_firstn, zlen_skipn, L by lia. lia.
  - intros i Hi. rewrite zth_app by lia. rewrite zlen_firstn by lia.
    destruct (i <? len) eqn:Ei;
      [apply Z.ltb_lt in Ei | apply Z.ltb_ge in Ei].
    + rewrite In by lia. rewrite zth_firstn by lia.
      rewrite zth_skipn by lia. rewrite contents_zth by lia.
      unfold RingBuffer.index, offset. rewrite Zplus_mod_idemp_l.
      f_equal. f_equal. lia.
    + rewrite Out by lia. rewrite zth_skipn by lia. f_equal. lia.
Qed.

Lemma peek_at_reads_contents_witness :
  RingBuffer.peek_at rb_wrapped (2 + 1) [chF; chF; chF] 2
  = Some (2, [chB; chC; chF], rb_wrapped).
Proof.
  apply (peek_at_reads_contents rb_wrapped 1 2 [chF; chF; chF]
           rb_wrapped_wf); unfold zlen; simpl; lia.
Defined.

(** [write] accepts nothing exactly when it is asked for nothing or the
    buffer is full, and then returns the buffer as it was; [full] says
    that no space is available. *)
Theorem write_accepts_nothing_iff_full
        (rb : RingBuffer.t) (data : list byte) (len : Z) :
  RingBuffer.wf rb -> 0 <= len <= SIZE_MAX -> len <= zlen data ->
  exists n rb',
    RingBuffer.write rb data len = Some (n, rb') /\
    (n = 0 <-> len = 0 \/ RingBuffer.full rb = true) /\
    (n = 0 -> rb' = rb) /\
    (RingBuffer.full rb = true <-> RingBuffer.available_space rb = 0).
Proof.
  intros Hwf Hlen Hdata. pose proof (wf_size_max rb Hwf) as Hmax.
  pose proof Hwf as [_ _ Hs _ _ _].
  assert (Hfree : size_sub (RingBuffer.capacity rb) (RingBuffer.size rb)
                  = RingBuffer.capacity rb - RingBuffer.size rb)
    by (unfold size_sub; apply size_wrap_id; lia).
  assert (Hfull : RingBuffer.full rb = true
                  <-> RingBuffer.size rb = RingBuffer.capacity rb)
    by (unfold RingBuffer.full; apply Z.eqb_eq).
  destruct (rb_write_spec rb data len Hwf Hlen Hdata) as (rb' & E & _).
  exists (Z.min len (RingBuffer.capacity rb - RingBuffer.size rb)), rb'.
  split; [exact E|]. split; [|split].
  - rewrite Hfull. lia.
  - intros Hn. unfold RingBuffer.write in E. rewrite Hfree in E.
    destruct (len =? 0); [congruence|].
    rewrite Hn in E. cbn in E. congruence.
  - rewrite Hfull. unfold RingBuffer.available_space. rewrite Hfree. lia.
Qed.

Lemma write_accepts_nothing_iff_full_witness :
  exists rb1,
    RingBuffer.write rb_wrapped [chD] 1 = Some (1, rb1) /\
    RingBuffer.write rb1 [chE] 1 = Some (0, rb1).
Proof.
  destruct (rb_write_spec rb_wrapped [chD] 1 rb_wrapped_wf)
    as (rb1 & E1 & Hwf1 & Hc1 & _ & Hs1 & _);
    [zbounds | unfold zlen; simpl; lia |].
  exists rb1. split; [exact E1|].
  destruct (write_accepts_nothing_iff_full rb1 [chE] 1 Hwf1)
    as (n & rb2 & E2 & Hiff & Hsame & _);
    [zbounds | unfold zlen; simpl; lia |].
  assert (Hn : n = 0).
  { apply Hiff. right. unfold RingBuffer.full. apply Z.eqb_eq.
    rewrite Hs1, Hc1. reflexivity. }
  rewrite E2, Hn, (Hsame Hn). reflexivity.
Defined.

(** [read] delivers nothing exactly when it is asked for nothing or the
    buffer is empty, and then leaves the buffer and the destination as
    they were. *)
Theorem read_delivers_nothing_iff_empty
        (rb : RingBuffer.t) (dst : list byte) (len : Z) :
  RingBuffer.wf rb -> 0 <= len <= SIZE_MAX ->
  Z.min len (RingBuffer.size rb) <= zlen dst ->
  exists n dst' rb',
    RingBuffer.read rb (Some dst) len = Some (n, dst', rb') /\
    (n = 0 <-> len = 0 \/ RingBuffer.empty rb = true) /\
    (n = 0 -> rb' = rb /\ dst' = Some dst).
Proof.
  intros Hwf Hlen Hdst. pose proof Hwf as [_ _ Hs _ _ _].
  assert (Hempty : RingBuffer.empty rb = true <-> RingBuffer.size rb = 0)
    by (unfold RingBuffer.empty; apply Z.eqb_eq).
  destruct (rb_read_spec rb dst len Hwf Hlen Hdst) as (rb' & E & _).
  eexists _, _, rb'. split; [exact E|]. split.
  - rewrite Hempty. lia.
  - intros Hn. unfold RingBuffer.read in E.
    destruct (len =? 0).
    + injection E as _ Hd Hr. split; [now symmetry|now rewrite <- Hd].
    + rewrite Hn in E. cbn in E.
      injection E as Hr. split; [now symmetry|rewrite Hn; reflexivity].
Qed.

Lemma read_delivers_nothing_iff_empty_witness :
  RingBuffer.read (RingBuffer.clear rb_wrapped) (Some [chF]) 1
  = Some (0, Some [chF], RingBuffer.clear rb_wrapped).
Proof.
  destruct (read_delivers_nothing_iff_empty (RingBuffer.clear rb_wrapped)
              [chF] 1 (proj1 (rb_clear_spec rb_wrapped rb_wrapped_wf)))
    as (n & d & rb' & E & Hiff & Hsame);
    [zbounds | unfold zlen; simpl; lia |].
  assert (Hn : n = 0) by (apply Hiff; right; reflexivity).
  destruct (Hsame Hn) as [Hr Hd]. rewrite E, Hn, Hr, Hd. reflexivity.
Defined.

(** Writing a block in two calls is writing it in one: the counts add
    up and the two buffers agree on capacity, indices, size and logical
    contents.  It is what lets [conveyor_write] feed the ring piecewise. *)
Theorem write_in_two_parts
        (rb : RingBuffer.t) (d1 d2 : list byte) (l1 l2 : Z) :
  RingBuffer.wf rb ->
  0 <= l1 -> 0 <= l2 -> l1 + l2 <= SIZE_MAX ->
  zlen d1 = l1 -> l2 <= zlen d2 ->
  let free := RingBuffer.capacity rb - RingBuffer.size rb in
  let n := Z.min (l1 + l2) free in
  let n1 := Z.min l1 free in
  exists rb12 rb1 rb2,
    RingBuffer.write rb (d1 ++ d2) (l1 + l2) = Some (n, rb12) /\
    RingBuffer.write rb d1 l1 = Some (n1, rb1) /\
    RingBuffer.write rb1 d2 l2 = Some (n - n1, rb2) /\
    RingBuffer.capacity rb12 = RingBuffer.capacity rb2 /\
    RingBuffer.head rb12 = RingBuffer.head rb2 /\
    RingBuffer.tail rb12 = RingBuffer.tail rb2 /\
    RingBuffer.size rb12 = RingBuffer.size rb2 /\
    RingBuffer.contents rb12 = RingBuffer.contents rb2.
Proof.
  intros Hwf H1 H2 Hmax Hd1 Hd2 free n n1.
  pose proof Hwf as [_ _ Hs _ _ _].
  destruct (rb_write_spec rb (d1 ++ d2) (l1 + l2) Hwf) as
    (rb12 & E12 & Hwf12 & Hc12 & Ht12 & Hs12 & Hcont12);
    [lia | rewrite zlen_app; lia |].
  destruct (rb_write_spec rb d1 l1 Hwf) as
    (rb1 & E1 & Hwf1 & Hc1 & Ht1 & Hs1 & Hcont1); [lia | lia |].
  destruct (rb_write_spec rb1 d2 l2 Hwf1) as
    (rb2 & E2 & Hwf2 & Hc2 & Ht2 & Hs2 & Hcont2); [lia | lia |].
  rewrite Hc1, Hs1 in E2, Hs2, Hcont2.
  fold free in E12, Hs12, Hcont12, E1, Hs1, Hcont1, E2, Hs2, Hcont2.
  fold n in E12, Hs12, Hcont12. fold n1 in E1, Hs1, Hcont1, E2, Hs2, Hcont2.
  set (n2 := Z.min l2 (RingBuffer.capacity rb
                       - (RingBuffer.size rb + n1))) in *.
  assert (Hn : n2 = n - n1) by (unfold n, n1, n2, free; lia).
  rewrite Hn in E2, Hs2, Hcont2.
  assert (Hcap : RingBuffer.capacity rb12 = RingBuffer.capacity rb2)
    by congruence.
  assert (Hsz : RingBuffer.size rb12 = RingBuffer.size rb2) by lia.
  assert (Htl : RingBuffer.tail rb12 = RingBuffer.tail rb2) by congruence.
  exists rb12, rb1, rb2.
  split; [exact E12|]. split; [exact E1|]. split; [exact E2|].
  split; [exact Hcap|].
  split; [|split; [exact Htl|split; [exact Hsz|]]].
  - rewrite (RingBuffer.wf_pos _ Hwf12), (RingBuffer.wf_pos _ Hwf2).
    congruence.
  - rewrite Hcont12, Hcont2, Hcont1, <- app_assoc. f_equal.
    rewrite firstn_app. unfold zlen in Hd1.
    destruct (Z_le_gt_dec l1 free) as [Hfit|Hover].
    + assert (Hn1 : n1 = l1) by (unfold n1; lia).
      rewrite Hn1. f_equal.
      * rewrite !firstn_all2 by lia. reflexivity.
      * f_equal. lia.
    + assert (Hn1 : n1 = n) by (unfold n1, n, free in *; lia).
      rewrite Hn1, Z.sub_diag. f_equal.
      replace (Z.to_nat n - length d1)%nat with 0%nat
        by (unfold n, free in *; lia).
      reflexivity.
Qed.

Lemma write_in_two_parts_witness :
  exists rb12 rb1 rb2,
    RingBuffer.write (RingBuffer.make 4) [chA; chB; chC] 3 = Some (3, rb12) /\
    RingBuffer.write (RingBuffer.make 4) [chA; chB] 2 = Some (2, rb1) /\
    RingBuffer.write rb1 [chC] 1 = Some (1, rb2) /\
    RingBuffer.contents rb12 = RingBuffer.contents rb2.
Proof.
  destruct (write_in_two_parts (RingBuffer.make 4) [chA; chB] [chC] 2 1
              (proj1 (make_wf 4 ltac:(zbounds))))
    as (rb12 & rb1 & rb2 & E12 & E1 & E2 & _ & _ & _ & _ & Hc);
    [lia | lia | zbounds | reflexivity | unfold zlen; simpl; lia |].
  exists rb12, rb1, rb2.
  split; [exact E12|]. split; [exact E1|]. split; [exact E2|exact Hc].
Defined.

(** Reading in two calls, the second into the destination advanced by
    what the first delivered, is reading in one: the same bytes land in
    the same places and the two buffers agree.  It is what lets
    [conveyor_read] drain the ring piecewise. *)
Theorem read_in_two_parts
        (rb : RingBuffer.t) (dst : list byte) (a b : Z) :
  RingBuffer.wf rb ->
  0 <= a -> 0 <= b -> a + b <= SIZE_MAX ->
  Z.min (a + b) (RingBuffer.size rb) <= zlen dst ->
  let n := Z.min (a + b) (RingBuffer.size rb) in
  let n1 := Z.min a (RingBuffer.size rb) in
  let o1 := firstn (Z.to_nat n1) (RingBuffer.contents rb)
            ++ skipn (Z.to_nat n1) dst in
  let o2 := firstn (Z.to_nat (n - n1))
                   (skipn (Z.to_nat n1) (RingBuffer.contents rb))
            ++ skipn (Z.to_nat (n - n1)) (skipn (Z.to_nat n1) dst) in
  exists r12 r1 r2,
    RingBuffer.read rb (Some dst) (a + b)
    = Some (n, Some (firstn (Z.to_nat n1) o1 ++ o2), r12) /\
    RingBuffer.read rb (Some dst) a = Some (n1, Some o1, r1) /\
    RingBuffer.read r1 (Some (skipn (Z.to_nat n1) o1)) b
    = Some (n - n1, Some o2, r2) /\
    RingBuffer.capacity r12 = RingBuffer.capacity r2 /\
    RingBuffer.head r12 = RingBuffer.head r2 /\
    RingBuffer.tail r12 = RingBuffer.tail r2 /\
    RingBuffer.size r12 = RingBuffer.size r2 /\
    RingBuffer.contents r12 = RingBuffer.contents r2.
Proof.
  intros Hwf Ha Hb Hmax Hdst n n1 o1 o2.
  pose proof Hwf as [_ _ Hs _ _ _].
  pose proof (contents_zlen rb ltac:(lia)) as Hcl.
  destruct (rb_read_spec rb dst (a + b) Hwf) as
    (r12 & E12 & Hwf12 & Hc12 & Hh12 & Hs12 & Hcont12); [lia | lia |].
  destruct (rb_read_spec rb dst a Hwf) as
    (r1 & E1 & Hwf1 & Hc1 & Hh1 & Hs1 & Hcont1); [lia | lia |].
  fold n in E12, Hs12, Hcont12. fold n1 in E1, Hs1, Hcont1. fold o1 in E1.
  assert (Hn1 : 0 <= n1 <= n /\ n <= RingBuffer.size rb)
    by (unfold n, n1; lia).
  assert (Hf1 : zlen (firstn (Z.to_nat n1) (RingBuffer.contents rb)) = n1)
    by (apply zlen_firstn; lia).
  assert (Hsk : skipn (Z.to_nat n1) o1 = skipn (Z.to_nat n1) dst).
  { unfold o1. rewrite skipn_app. unfold zlen in Hf1.
    rewrite skipn_all2 by lia.
    replace (Z.to_nat n1 - length (firstn (Z.to_nat n1)
                                     (RingBuffer.contents rb)))%nat
      with 0%nat by lia.
    reflexivity. }
  assert (Hfo : firstn (Z.to_nat n1) o1
                = firstn (Z.to_nat n1) (RingBuffer.contents rb)).
  { unfold o1. rewrite firstn_app. unfold zlen in Hf1.
    replace (Z.to_nat n1 - length (firstn (Z.to_nat n1)
                                     (RingBuffer.contents rb)))%nat
      with 0%nat by lia.
    rewrite firstn_all2 by lia. cbn. apply app_nil_r. }
  destruct (rb_read_spec r1 (skipn (Z.to_nat n1) o1) b Hwf1) as
    (r2 & E2 & Hwf2 & Hc2 & Hh2 & Hs2 & Hcont2);
    [lia | rewrite Hsk, zlen_skipn, Hs1 by lia; lia |].
  rewrite Hs1 in E2, Hs2, Hcont2.
  assert (Hn2 : Z.min b (RingBuffer.size rb - n1) = n - n1)
    by (unfold n, n1; lia).
  rewrite Hn2 in E2, Hs2, Hcont2.
  rewrite Hcont1 in E2. rewrite Hsk in E2 at 2. fold o2 in E2.
  assert (Hcap : RingBuffer.capacity r12 = RingBuffer.capacity r2)
    by congruence.
  assert (Hhd : RingBuffer.head r12 = RingBuffer.head r2) by congruence.
  assert (Hsz : RingBuffer.size r12 = RingBuffer.size r2) by lia.
  assert (Hout : firstn (Z.to_nat n) (RingBuffer.contents rb)
                 ++ skipn (Z.to_nat n) dst
                 = firstn (Z.to_nat n1) o1 ++ o2).
  { rewrite Hfo. unfold o2. apply zth_ext.
    + rewrite !zlen_app, !zlen_firstn, !zlen_skipn;
        rewrite ?zlen_skipn; lia.
    + intros i Hi.
      rewrite zlen_app, zlen_firstn, zlen_skipn in Hi by lia.
      rewrite !zth_app by lia.
      rewrite !zlen_firstn by (rewrite ?zlen_skipn; lia).
      destruct (i <? n) eqn:E; [apply Z.ltb_lt in E|apply Z.ltb_ge in E];
        destruct (i <? n1) eqn:E'; try apply Z.ltb_lt in E';
        try apply Z.ltb_ge in E'; try lia.
      * rewrite !zth_firstn by lia. reflexivity.
      * rewrite zth_app by lia.
        rewrite zlen_firstn by (rewrite zlen_skipn; lia).
        replace (i - n1 <? n - n1) with true
          by (symmetry; apply Z.ltb_lt; lia).
        rewrite !zth_firstn by lia. rewrite zth_skipn by lia.
        f_equal. lia.
      * rewrite zth_app by lia.
        rewrite zlen_firstn by (rewrite zlen_skipn; lia).
        replace (i - n1 <? n - n1) with false
          by (symmetry; apply Z.ltb_ge; lia).
        rewrite !zth_skipn by lia. f_equal. lia. }
  rewrite Hout in E12.
  exists r12, r1, r2.
  split; [exact E12|]. split; [exact E1|]. split; [exact E2|].
  split; [exact Hcap|]. split; [exact Hhd|].
  split; [|split; [exact Hsz|]].
  - apply wf_tail_determined; assumption.
  - rewrite Hcont12, Hcont2, Hcont1, skipn_skipn. f_equal. lia.
Qed.

Lemma read_in_two_parts_witness :
  exists r12 r1 r2,
    RingBuffer.read rb_wrapped (Some [chF; chF; chF]) 3
    = Some (3, Some [chA; chB; chC], r12) /\
    RingBuffer.read rb_wrapped (Some [chF; chF; chF]) 1
    = Some (1, Some [chA; chF; chF], r1) /\
    RingBuffer.read r1 (Some [chF; chF]) 2 = Some (2, Some [chB; chC], r2) /\
    RingBuffer.contents r12 = RingBuffer.contents r2.
Proof.
  destruct (read_in_two_parts rb_wrapped [chF; chF; chF] 1 2 rb_wrapped_wf)
    as (r12 & r1 & r2 & E12 & E1 & E2 & _ & _ & _ & _ & Hc);
    [lia | lia | zbounds | unfold zlen; simpl; lia |].
  exists r12, r1, r2.
  split; [exact E12|]. split; [exact E1|]. split; [exact E2|exact Hc].
Defined.

(** Growing makes room: after [resize] to a larger capacity, a [write]
    of up to [new_capacity - size] bytes is accepted whole and lands
    after the bytes that were stored, wrapped or not. *)
Theorem resize_then_write
        (rb : RingBuffer.t) (new_capacity : Z) (data : list byte) (len : Z) :
  RingBuffer.wf rb ->
  RingBuffer.capacity rb < new_capacity <= PTRDIFF_MAX ->
  0 <= len <= new_capacity - RingBuffer.size rb ->
  len <= zlen data ->
  exists rb1 rb2,
    RingBuffer.resize rb new_capacity = Some rb1 /\
    RingBuffer.write rb1 data len = Some (len, rb2) /\
    RingBuffer.wf rb2 /\
    RingBuffer.capacity rb2 = new_capacity /\
    RingBuffer.contents rb2
    = RingBuffer.contents rb ++ firstn (Z.to_nat len) data.
Proof.
  intros Hwf Hnew Hlen Hdata. pose proof Hwf as [_ _ Hs _ _ _].
  destruct (rb_resize_spec rb new_capacity Hwf Hnew) as
    (rb1 & E1 & Hwf1 & Hc1 & _ & _ & Hs1 & Hcont1).
  destruct (rb_write_spec rb1 data len Hwf1) as
    (rb2 & E2 & Hwf2 & Hc2 & _ & _ & Hcont2); [zbounds | lia |].
  rewrite Hc1, Hs1, Z.min_l in E2, Hcont2 by lia.
  exists rb1, rb2. split; [exact E1|]. split; [exact E2|].
  split; [exact Hwf2|]. split; [congruence|]. now rewrite Hcont2, Hcont1.
Qed.

Lemma resize_then_write_witness :
  exists rb1 rb2,
    RingBuffer.resize rb_wrapped 8 = Some rb1 /\
    RingBuffer.write rb1 [chD; chE; chF] 3 = Some (3, rb2) /\
    RingBuffer.contents rb2 = [chA; chB; chC; chD; chE; chF].
Proof.
  destruct (resize_then_write rb_wrapped 8 [chD; chE; chF] 3 rb_wrapped_wf)
    as (rb1 & rb2 & E1 & E2 & _ & _ & Hc);
    [simpl; zbounds | simpl; lia | unfold zlen; simpl; lia |].
  exists rb1, rb2. split; [exact E1|]. split; [exact E2|exact Hc].
Defined.

(** A ring of capacity zero - what the engine builds for a direction it
    is given no buffer for - is inert: [write] and [read] return 0 and
    leave it as it was, without dividing by its capacity.  [peek_at]
    does divide by it and is undefined.  [resize] turns it into a
    working buffer. *)
Theorem zero_capacity_ring_is_inert
        (data : list byte) (dst : option (list byte)) (dest : list byte)
        (len pos new_capacity : Z) :
  0 <= len ->
  1 <= new_capacity <= PTRDIFF_MAX ->
  RingBuffer.write (RingBuffer.make 0) data len
  = Some (0, RingBuffer.make 0) /\
  RingBuffer.read (RingBuffer.make 0) dst len
  = Some (0, dst, RingBuffer.make 0) /\
  RingBuffer.peek_at (RingBuffer.make 0) pos dest len = None /\
  exists rb,
    RingBuffer.resize (RingBuffer.make 0) new_capacity = Some rb /\
    RingBuffer.wf rb /\
    RingBuffer.capacity rb = new_capacity /\
    RingBuffer.contents rb = [].
Proof.
  intros Hlen Hnew. split; [|split; [|split]].
  - unfold RingBuffer.write. destruct (len =? 0); [reflexivity|].
    cbn. rewrite Z.min_r by lia. reflexivity.
  - unfold RingBuffer.read. destruct (len =? 0); [reflexivity|].
    cbn. rewrite Z.min_r by lia. reflexivity.
  - reflexivity.
  - unfold RingBuffer.resize. cbn [RingBuffer.capacity RingBuffer.make].
    replace (new_capacity <=? 0) with false
      by (symmetry; apply Z.leb_gt; lia).
    cbn. eexists. split; [reflexivity|]. split; [|split; reflexivity].
    constructor; cbn; try lia; [apply zlen_vector_new; lia | zbounds].
Qed.

Lemma zero_capacity_ring_is_inert_witness :
  RingBuffer.write (RingBuffer.make 0) [chA] 1
  = Some (0, RingBuffer.make 0) /\
  RingBuffer.peek_at (RingBuffer.make 0) 0 [chF] 1 = None.
Proof.
  destruct (zero_capacity_ring_is_inert [chA] None [chF] 1 0 4)
    as (Hw & _ & Hp & _); [lia | zbounds |].
  split; [exact Hw|exact Hp].
Defined.

(* ------------------------------------------------------------------ *)
(** ** What one step of a thread can change *)

(** Case analysis on the outermost test of a hypothesis. *)
Ltac break_in H :=
  match type of H with
  | context [match ?x with _ => _ end] => destruct x eqn:?
  end.

Lemma same_configuration_refl (c : ConveyorImpl) : same_configuration c c.
Proof. repeat split. Qed.

Lemma same_configuration_trans (a b c : ConveyorImpl) :
  same_configuration a b -> same_configuration b c -> same_configuration a c.
Proof.
  unfold same_configuration. intros (?&?&?&?) (?&?&?&?).
  repeat split; congruence.
Qed.

Lemma conveyor_write_loop_configuration (fuel : nat) :
  forall c cur rem wr r,
    conveyor_write_loop fuel c cur rem wr = Some r ->
    same_configuration c
      match r with W_done c' _ => c' | W_blocked c' _ _ _ => c' end.
Proof.
  induction fuel as [|fuel IH]; intros c cur rem wr r H; cbn in H;
    unfold bind in H; repeat break_in H; try discriminate;
    try (injection H as <-; apply same_configuration_refl).
  subst. apply IH in H.
  eapply same_configuration_trans; [|exact H]. repeat split.
Qed.

Lemma conveyor_read_loop_configuration (fuel : nat) :
  forall c f cur rem tot woken r,
    conveyor_read_loop fuel c f cur rem tot woken = Some r ->
    same_configuration c
      match r with R_done c' _ _ _ => c' | R_blocked c' _ _ _ _ => c' end.
Proof.
  induction fuel as [|fuel IH]; intros c f cur rem tot woken r H;
    [discriminate|].
  cbn in H; unfold bind in H; repeat break_in H; try discriminate;
    try (injection H as <-; repeat split);
    subst; apply IH in H;
    (eapply same_configuration_trans; [|exact H]); repeat split.
Qed.

(** A program counter that is not [_none] stays so. *)
Ltac kept :=
  first [reflexivity | let X := fresh in intros X; exact X | cbn; congruence].

Lemma log_growth_nil {Store : Type} (w : World Store) : log_growth w [].
Proof. left. reflexivity. Qed.

Lemma step_frame_quiet {Store : Type} (w w' : World Store) :
  same_configuration (impl w) (impl w') ->
  (wworker w = WW_none -> wworker w' = WW_none) ->
  (rworker w = RW_none -> rworker w' = RW_none) ->
  io_log w' = io_log w ->
  step_frame w w'.
Proof.
  intros Hc Hw Hr Hl. split; [exact Hc|]. split; [exact Hw|].
  split; [exact Hr|]. exists []. rewrite app_nil_r.
  split; [exact Hl|apply log_growth_nil].
Qed.

Lemma conveyor_write_from_frame {Store : Type}
      (w w' : World Store) (cur : list byte) (rem wr : Z) :
  conveyor_write_from Store w cur rem wr = Some w' -> step_frame w w'.
Proof.
  unfold conveyor_write_from, bind. intros H.
  destruct (conveyor_write_loop _ _ _ _ _) as [r|] eqn:E; [|discriminate].
  apply conveyor_write_loop_configuration in E.
  destruct r; injection H as <-; apply step_frame_quiet; try kept.
  cbn. eapply same_configuration_trans; [exact E|].
  destruct (_ && _); repeat split.
Qed.

Lemma conveyor_write_frame {Store : Type}
      (w w' : World Store) (buf : list byte) (count : Z) :
  conveyor_write Store w buf count = Some w' -> step_frame w w'.
Proof.
  unfold conveyor_write. destruct (negb _).
  - intros H. injection H as <-. apply step_frame_quiet; try kept.
    apply same_configuration_refl.
  - apply conveyor_write_from_frame.
Qed.

Lemma conveyor_read_from_frame {Store : Type}
      (w w' : World Store) (f cur : list byte) (rem tot : Z) (woken : bool) :
  conveyor_read_from Store w f cur rem tot woken = Some w' -> step_frame w w'.
Proof.
  unfold conveyor_read_from, bind. intros H.
  destruct (conveyor_read_loop _ _ _ _ _ _ _) as [r|] eqn:E; [|discriminate].
  apply conveyor_read_loop_configuration in E.
  destruct r; injection H as <-; apply step_frame_quiet; try kept;
    try exact E.
Qed.

Lemma conveyor_read_frame {Store : Type}
      (w w' : World Store) (buf : list byte) (count : Z) :
  conveyor_read Store w buf count = Some w' -> step_frame w w'.
Proof.
  unfold conveyor_read. destruct (negb _).
  - intros H. injection H as <-. apply step_frame_quiet; try kept.
    apply same_configuration_refl.
  - apply conveyor_read_from_frame.
Qed.

Lemma conveyor_lseek_frame {Store : Type} (ops : storage_operations_t.t Store)
      (w : World Store) (offset whence : Z) :
  step_frame w (conveyor_lseek Store ops w offset whence).
Proof.
  unfold conveyor_lseek.
  destruct (storage_operations_t.lseek _ _ _ _ _) as [r st].
  split; [|split; [|split]]; cbn; try (intros E; exact E).
  - destruct (negb _); [|apply same_configuration_refl].
    destruct (read_buffer_enabled (impl w)) eqn:Er;
      destruct (write_buffer_enabled _) eqn:Ew;
      repeat split; cbn; cbn in Ew; congruence.
  - eexists. split; [reflexivity|]. right. left. eauto.
Qed.

Lemma conveyor_flush_wake_frame {Store : Type} (w w' : World Store) :
  conveyor_flush_wake Store w = Some w' -> step_frame w w'.
Proof.
  unfold conveyor_flush_wake. destruct (_ || _); [|discriminate].
  intros H. injection H as <-. apply step_frame_quiet; try kept.
  repeat split.
Qed.

Lemma conveyor_flush_frame {Store : Type} (w : World Store) :
  step_frame w (conveyor_flush Store w).
Proof.
  unfold conveyor_flush. destruct (negb _).
  { apply step_frame_quiet; try kept. apply same_configuration_refl. }
  destruct (_ >? 0).
  - destruct (conveyor_flush_wake _ _) as [w2|] eqn:E.
    + apply conveyor_flush_wake_frame in E.
      destruct E as (Hc & Hw & Hr & sfx & Hl & Hg).
      split; [|split; [|split]]; [exact Hc|exact Hw|exact Hr|].
      exists sfx. split; [exact Hl|exact Hg].
    + apply step_frame_quiet; try kept. repeat split.
  - apply step_frame_quiet; try kept. repeat split.
Qed.

Lemma writeWorker_frame {Store : Type} (ops : storage_operations_t.t Store)
      (w w' : World Store) :
  writeWorker Store ops w = Some w' -> step_frame w w'.
Proof.
  unfold writeWorker, bind. intros H.
  destruct (wworker w) as [|temp|temp n|temp r|] eqn:Ew; try discriminate.
  - assert (Hq : same_configuration (impl w) (impl w') /\
                 rworker w' = rworker w /\ io_log w' = io_log w).
    { repeat break_in H; try discriminate; injection H as <-; subst;
        repeat split. }
    destruct Hq as (Hc & Hr & Hl).
    split; [exact Hc|]. split; [congruence|]. split; [congruence|].
    exists []. rewrite app_nil_r. split; [exact Hl|apply log_growth_nil].
  - destruct (negb _) eqn:Ea.
    + destruct (storage_operations_t.lseek _ _ _ _ _) as [r0 st0].
      cbn in H.
      destruct (storage_operations_t.write _ _ _ _ _) as [r st].
      injection H as <-. split; [repeat split|].
      split; [congruence|]. split; [intros E; exact E|].
      eexists. split; [cbn; rewrite <- app_assoc; reflexivity|].
      do 4 right. exists (io_ret r0), temp, n, (io_ret r).
      split; [reflexivity|congruence].
    + destruct (storage_operations_t.write _ _ _ _ _) as [r st].
      injection H as <-. split; [repeat split|].
      split; [congruence|]. split; [intros E; exact E|].
      eexists. split; [reflexivity|].
      do 3 right. left. exists temp, n, (io_ret r).
      split; [reflexivity|]. split; [congruence|].
      apply negb_false_iff, Z.eqb_eq in Ea. exact Ea.
  - injection H as <-. split; [cbn; destruct (r >? 0); repeat split|].
    split; [congruence|]. split; [intros E; exact E|].
    exists []. rewrite app_nil_r. split; [reflexivity|].
    apply log_growth_nil.
Qed.

Lemma readWorker_frame {Store : Type} (ops : storage_operations_t.t Store)
      (w w' : World Store) :
  readWorker Store ops w = Some w' -> step_frame w w'.
Proof.
  unfold readWorker, bind. intros H.
  destruct (rworker w) as [|temp|temp n|temp r|] eqn:Ew; try discriminate.
  - destruct (_ || _); [|discriminate].
    destruct (read_worker_stop_flag (impl w)) eqn:Es.
    { injection H as <-. apply step_frame_quiet; try kept.
      apply same_configuration_refl. }
    set (c1 := if read_buffer_stale (impl w) then _ else impl w) in H.
    assert (Hc1 : same_configuration (impl w) c1).
    { subst c1. destruct (read_buffer_stale _); repeat split. }
    destruct (_ && _).
    + destruct (negb _).
      * destruct (storage_operations_t.lseek _ _ _ _ _) as [r0 st0].
        injection H as <-. split; [exact Hc1|].
        split; [intros E; exact E|]. split; [cbn; congruence|].
        eexists. split; [reflexivity|]. right. left. eauto.
      * injection H as <-. split; [exact Hc1|].
        split; [intros E; exact E|]. split; [cbn; congruence|].
        exists []. rewrite app_nil_r. split; [reflexivity|].
        apply log_growth_nil.
    + injection H as <-. split.
      { cbn. eapply same_configuration_trans; [exact Hc1|].
        destruct (read_worker_needs_fill c1); repeat split. }
      split; [intros E; exact E|]. split; [cbn; congruence|].
      exists []. rewrite app_nil_r. split; [reflexivity|].
      apply log_growth_nil.
  - destruct (storage_operations_t.read _ _ _ _) as [r st].
    injection H as <-. split; [repeat split|].
    split; [intros E; exact E|]. split; [cbn; congruence|].
    eexists. split; [reflexivity|]. right. right. left.
    exists n, (io_ret r). split; [reflexivity|congruence].
  - destruct (if r >? 0 then _ else _) as [c1|] eqn:E1; [|discriminate].
    cbn in H. injection H as <-.
    assert (Hc1 : same_configuration (impl w) c1).
    { repeat break_in E1; try discriminate; injection E1 as <-;
        repeat split. }
    split.
    { cbn. eapply same_configuration_trans; [exact Hc1|].
      destruct (read_worker_needs_fill c1); repeat split. }
    split; [intros E; exact E|]. split; [cbn; congruence|].
    exists []. rewrite app_nil_r. split; [reflexivity|].
    apply log_growth_nil.
Qed.

Lemma step_keeps_frame {Store : Type} (ops : storage_operations_t.t Store)
      (w w' : World Store) (a : action) :
  step Store ops w a = Some w' -> step_frame w w'.
Proof.
  unfold step. intros H.
  destruct a as [[buf count|buf count|offset whence|]| | |].
  - destruct (client w); try discriminate.
    eapply conveyor_write_frame; exact H.
  - destruct (client w); try discriminate.
    eapply conveyor_read_frame; exact H.
  - destruct (client w); try discriminate.
    injection H as <-. apply conveyor_lseek_frame.
  - destruct (client w); try discriminate.
    injection H as <-. apply conveyor_flush_frame.
  - destruct (client w); try discriminate.
    + destruct (_ || _); [|discriminate].
      eapply conveyor_write_from_frame; exact H.
    + destruct (_ || _); [|discriminate].
      eapply conveyor_read_from_frame; exact H.
    + eapply conveyor_flush_wake_frame; exact H.
  - destruct (client w); eapply writeWorker_frame; exact H.
  - destruct (client w); eapply readWorker_frame; exact H.
Qed.

Lemma run_invariant {Store : Type} (ops : storage_operations_t.t Store)
      (P : World Store -> Prop) :
  (forall w a w', P w -> step Store ops w a = Some w' -> P w') ->
  forall schedule w w',
    P w -> run Store ops w schedule = Some w' -> P w'.
Proof.
  intros Hstep. induction schedule as [|a rest IH]; intros w w' HP H.
  - injection H as <-. exact HP.
  - cbn in H. unfold bind in H.
    destruct (step Store ops w a) as [w1|] eqn:E; [|discriminate].
    eapply IH; [|exact H]. eapply Hstep; [exact HP|exact E].
Qed.

Lemma delivered_without_write_call (log : list io_event) :
  existsb is_write_call log = false -> delivered log = [].
Proof.
  induction log as [|e log IH]; [reflexivity|].
  cbn. intros H. apply orb_false_iff in H. destruct H as [He Hl].
  unfold delivered in *. cbn. rewrite (IH Hl).
  destruct e; [discriminate|reflexivity|reflexivity].
Qed.

(* ------------------------------------------------------------------ *)
(** ** Access modes and append mode, over every schedule *)

(** An engine created with access mode [O_RDONLY] never writes:
    whatever calls the client makes and however the threads interleave,
    the write worker is never started, the [write] callback is never
    invoked, nothing is delivered, and [conveyor_write] returns
    [LIBCONVEYOR_ERROR] with [errno = EBADF] and touches nothing else. *)
Theorem read_only_engine_never_writes
        {Store : Type} (ops : storage_operations_t.t Store)
        (handle flags : Z) (st : Store) (wsize rsize : Z)
        (schedule : list action) (w : World Store) :
  Z.land flags O_ACCMODE = O_RDONLY ->
  run Store ops (conveyor_create Store handle flags st wsize rsize) schedule
  = Some w ->
  wworker w = WW_none /\
  existsb is_write_call (io_log w) = false /\
  delivered (io_log w) = [] /\
  forall buf count,
    conveyor_write Store w buf count
    = Some (returning Store w EBADF (mk_ret LIBCONVEYOR_ERROR [])).
Proof.
  intros Hmode Hrun.
  assert (HI : write_buffer_enabled (impl w) = false /\
               wworker w = WW_none /\
               existsb is_write_call (io_log w) = false).
  { refine (run_invariant ops
              (fun w => write_buffer_enabled (impl w) = false /\
                        wworker w = WW_none /\
                        existsb is_write_call (io_log w) = false)
              _ schedule _ w _ Hrun).
    - clear. intros w a w' (He & Hw & Hl) Hs.
      apply step_keeps_frame in Hs.
      destruct Hs as ((_ & _ & He' & _) & Hw' & _ & sfx & Hlog & Hg).
      split; [congruence|]. split; [auto|].
      rewrite Hlog, existsb_app, Hl. cbn.
      destruct Hg as [->|[(?&?&?&->)|[(?&?&->&_)|
                     [(?&?&?&_&Hn&_)|(?&?&?&?&_&Hn)]]]];
        try reflexivity; contradiction.
    - unfold conveyor_create. cbn -[Z.land].
      change (Z.land flags 3) with (Z.land flags O_ACCMODE).
      rewrite Hmode. cbn.
      repeat split. }
  destruct HI as (He & Hw & Hl).
  split; [exact Hw|]. split; [exact Hl|].
  split; [apply delivered_without_write_call; exact Hl|].
  intros buf count. unfold conveyor_write. rewrite He. reflexivity.
Qed.

Lemma read_only_engine_never_writes_witness :
  conveyor_write Mock.t
    (conveyor_lseek Mock.t Mock.mock_ops
       (conveyor_create Mock.t 1 O_RDONLY Mock.empty_storage 8 8) 0 SEEK_SET)
    [chA] 1
  = Some (returning Mock.t
            (conveyor_lseek Mock.t Mock.mock_ops
               (conveyor_create Mock.t 1 O_RDONLY Mock.empty_storage 8 8)
               0 SEEK_SET)
            EBADF (mk_ret LIBCONVEYOR_ERROR [])).
Proof.
  apply (read_only_engine_never_writes Mock.mock_ops 1 O_RDONLY
           Mock.empty_storage 8 8 [Client (Call_lseek 0 SEEK_SET)]);
    reflexivity.
Defined.

(** An engine created with access mode [O_WRONLY] never reads:
    over every schedule the read worker is never started, the [read]
    callback is never invoked, and [conveyor_read] returns
    [LIBCONVEYOR_ERROR] with [errno = EBADF], the caller's buffer and the
    engine untouched. *)
Theorem write_only_engine_never_reads
        {Store : Type} (ops : storage_operations_t.t Store)
        (handle flags : Z) (st : Store) (wsize rsize : Z)
        (schedule : list action) (w : World Store) :
  Z.land flags O_ACCMODE = O_WRONLY ->
  run Store ops (conveyor_create Store handle flags st wsize rsize) schedule
  = Some w ->
  rworker w = RW_none /\
  existsb is_read_call (io_log w) = false /\
  forall buf count,
    conveyor_read Store w buf count
    = Some (returning Store w EBADF (mk_ret LIBCONVEYOR_ERROR buf)).
Proof.
  intros Hmode Hrun.
  assert (HI : read_buffer_enabled (impl w) = false /\
               rworker w = RW_none /\
               existsb is_read_call (io_log w) = false).
  { refine (run_invariant ops
              (fun w => read_buffer_enabled (impl w) = false /\
                        rworker w = RW_none /\
                        existsb is_read_call (io_log w) = false)
              _ schedule _ w _ Hrun).
    - clear. intros w a w' (He & Hw & Hl) Hs.
      apply step_keeps_frame in Hs.
      destruct Hs as ((_ & _ & _ & He') & _ & Hw' & sfx & Hlog & Hg).
      split; [congruence|]. split; [auto|].
      rewrite Hlog, existsb_app, Hl. cbn.
      destruct Hg as [->|[(?&?&?&->)|[(?&?&->&Hn)|
                     [(?&?&?&->&_)|(?&?&?&?&->&_)]]]];
        try reflexivity; contradiction.
    - unfold conveyor_create. cbn -[Z.land].
      change (Z.land flags 3) with (Z.land flags O_ACCMODE).
      rewrite Hmode. cbn.
      repeat split. }
  destruct HI as (He & Hw & Hl).
  split; [exact Hw|]. split; [exact Hl|].
  intros buf count. unfold conveyor_read. rewrite He. reflexivity.
Qed.

Lemma write_only_engine_never_reads_witness :
  existsb is_read_call
    (io_log (conveyor_lseek Mock.t Mock.mock_ops write_only_engine
                            0 SEEK_SET)) = false.
Proof.
  apply (write_only_engine_never_reads Mock.mock_ops 1 O_WRONLY
           Mock.empty_storage 8 0 [Client (Call_lseek 0 SEEK_SET)]);
    reflexivity.
Defined.





(* ------------------------------------------------------------------ *)
(** ** [conveyor_destroy] *)

Lemma firstn_contents_all (rb : RingBuffer.t) :
  0 <= RingBuffer.size rb ->
  firstn (Z.to_nat (RingBuffer.size rb)) (RingBuffer.contents rb)
  = RingBuffer.contents rb.
Proof.
  intros H. apply firstn_all2. pose proof (contents_zlen rb H) as Hl.
  unfold zlen in Hl. lia.
Qed.

(** A step of writeWorker moves bytes from the ring to its private
    vector and from there to the [write] callback, in order; it neither
    drops nor repeats one. *)
Lemma delivered_one_write (buf : list byte) (n r : Z) :
  delivered [IoWrite buf n r] = firstn (Z.to_nat n) buf.
Proof. cbn. apply app_nil_r. Qed.

Lemma writeWorker_keeps_pending {Store : Type}
      (ops : storage_operations_t.t Store) (w w' : World Store) :
  RingBuffer.wf (write_buffer (impl w)) ->
  writeWorker Store ops w = Some w' ->
  RingBuffer.wf (write_buffer (impl w')) /\
  delivered (io_log w') ++ pending w' = delivered (io_log w) ++ pending w /\
  (wworker w' = WW_exit ->
   RingBuffer.contents (write_buffer (impl w')) = []).
Proof.
  intros Hwf H. unfold writeWorker, bind in H. unfold pending.
  destruct (wworker w) as [|temp|temp n|temp r|] eqn:Ew; try discriminate.
  - destruct (_ || _); [|discriminate].
    destruct (_ && _) eqn:Eexit.
    { injection H as <-. cbn -[delivered RingBuffer.contents]. split; [exact Hwf|]. split; [reflexivity|].
      intros _. apply contents_empty.
      apply andb_true_iff in Eexit. destruct Eexit as [_ Ee].
      apply Z.eqb_eq in Ee. exact Ee. }
    set (rb := write_buffer (impl w)) in *.
    unfold RingBuffer.available_data in H.
    set (n := RingBuffer.size rb) in *.
    assert (Hn : 0 <= n <= SIZE_MAX).
    { pose proof Hwf as [_ ? ? _ _ _]. unfold n. zbounds. }
    destruct (n >? 0) eqn:En.
    + destruct (rb_read_spec rb (vector_resize temp n) n Hwf Hn)
        as (rb' & E & Hwf' & _ & _ & _ & Hc').
      { rewrite zlen_vector_resize by lia. fold n. lia. }
      cbv zeta in E. fold n in E. rewrite Z.min_id in E.
      rewrite E in H. cbn in H. injection H as <-.
      assert (Hwb : write_buffer
                      (if write_buffer_needs_flush (impl w)
                       then set_write_buffer_needs_flush
                              (set_write_buffer (impl w) rb') false
                       else set_write_buffer (impl w) rb') = rb')
        by (destruct (write_buffer_needs_flush (impl w)); reflexivity).
      cbn -[delivered RingBuffer.contents]. rewrite Hwb. split; [exact Hwf'|].
      split; [|discriminate].
      f_equal. rewrite Hc'. fold n. rewrite Z.min_id.
      pose proof (contents_zlen rb ltac:(unfold n in Hn; lia)) as Hl.
      unfold zlen in Hl. fold n in Hl.
      assert (Hall : firstn (Z.to_nat n) (RingBuffer.contents rb)
                     = RingBuffer.contents rb)
        by (apply firstn_all2; lia).
      rewrite Hall, firstn_app, Hall.
      replace (Z.to_nat n - length (RingBuffer.contents rb))%nat with 0%nat
        by lia.
      cbn [firstn]. rewrite skipn_all2 by lia. rewrite !app_nil_r.
      reflexivity.
    + cbn in H. injection H as <-.
      assert (Hwb : write_buffer
                      (if write_buffer_needs_flush (impl w)
                       then set_write_buffer_needs_flush
                              (set_write_buffer (impl w) rb) false
                       else set_write_buffer (impl w) rb) = rb)
        by (destruct (write_buffer_needs_flush (impl w)); reflexivity).
      cbn -[delivered RingBuffer.contents]. rewrite Hwb. split; [exact Hwf|]. split; [reflexivity|].
      discriminate.
  - destruct (negb _).
    + destruct (storage_operations_t.lseek _ _ _ _ _) as [r0 st0].
      cbn in H.
      destruct (storage_operations_t.write _ _ _ _ _) as [r st].
      injection H as <-. cbn -[delivered RingBuffer.contents]. split; [exact Hwf|]. split; [|discriminate].
      rewrite !delivered_app, delivered_one_write; cbn [delivered flat_map].
      rewrite <- !app_assoc. reflexivity.
    + destruct (storage_operations_t.write _ _ _ _ _) as [r st].
      injection H as <-. cbn -[delivered RingBuffer.contents]. split; [exact Hwf|]. split; [|discriminate].
      rewrite !delivered_app, delivered_one_write; cbn [delivered flat_map].
      rewrite <- !app_assoc. reflexivity.
  - injection H as <-. cbn -[delivered RingBuffer.contents].
    assert (Hwb : write_buffer
                    (if r >? 0
                     then set_current_pos_in_storage (impl w)
                            (off_add (current_pos_in_storage (impl w)) r)
                     else impl w) = write_buffer (impl w))
      by (destruct (r >? 0); reflexivity).
    rewrite Hwb. split; [exact Hwf|]. split; [reflexivity|discriminate].
Qed.

(** readWorker touches neither the write ring nor the write worker, and
    never calls [write]. *)
Lemma readWorker_leaves_write_side {Store : Type}
      (ops : storage_operations_t.t Store) (w w' : World Store) :
  readWorker Store ops w = Some w' ->
  write_buffer (impl w') = write_buffer (impl w) /\
  wworker w' = wworker w /\
  delivered (io_log w') = delivered (io_log w).
Proof.
  unfold readWorker, bind. intros H.
  destruct (rworker w) as [|temp|temp n|temp r|] eqn:Ew; try discriminate.
  - destruct (_ || _); [|discriminate].
    destruct (read_worker_stop_flag (impl w)) eqn:Es.
    { injection H as <-. repeat split. }
    set (c1 := if read_buffer_stale (impl w) then _ else impl w) in H.
    assert (Hc1 : write_buffer c1 = write_buffer (impl w)).
    { subst c1. destruct (read_buffer_stale _); reflexivity. }
    destruct (_ && _).
    + destruct (negb _).
      * destruct (storage_operations_t.lseek _ _ _ _ _) as [r0 st0].
        injection H as <-. cbn -[delivered RingBuffer.contents]. split; [exact Hc1|]. split; [reflexivity|].
        rewrite delivered_app. cbn -[delivered RingBuffer.contents]. apply app_nil_r.
      * injection H as <-. cbn -[delivered RingBuffer.contents]. split; [exact Hc1|]. repeat split.
    + injection H as <-. cbn -[delivered RingBuffer.contents]. split; [|repeat split].
      destruct (read_worker_needs_fill c1); exact Hc1.
  - destruct (storage_operations_t.read _ _ _ _) as [r st].
    injection H as <-. cbn -[delivered RingBuffer.contents]. split; [reflexivity|]. split; [reflexivity|].
    rewrite delivered_app. cbn -[delivered RingBuffer.contents]. apply app_nil_r.
  - destruct (if r >? 0 then _ else _) as [c1|] eqn:E1; [|discriminate].
    cbn in H. injection H as <-.
    assert (Hc1 : write_buffer c1 = write_buffer (impl w)).
    { repeat break_in E1; try discriminate; injection E1 as <-;
        reflexivity. }
    cbn -[delivered RingBuffer.contents]. split; [|repeat split].
    destruct (read_worker_needs_fill c1); exact Hc1.
Qed.

(** The thread in [conveyor_destroy] moves no byte, and passes the last
    [join] only once the write worker has left its loop. *)
Lemma conveyor_destroy_moves_nothing {Store : Type}
      (d d' : destroy_pc) (w w' : World Store) :
  conveyor_destroy d w = Some (d', w') ->
  write_buffer (impl w') = write_buffer (impl w) /\
  wworker w' = wworker w /\
  io_log w' = io_log w /\
  write_buffer_enabled (impl w') = write_buffer_enabled (impl w) /\
  (d' = D_done -> write_buffer_enabled (impl w) = true ->
   wworker w = WW_exit \/ wworker w = WW_none).
Proof.
  unfold conveyor_destroy, bind. intros H. destruct d.
  - destruct (write_buffer_enabled (impl w)) eqn:Ee.
    + assert (Hf : write_buffer (impl (conveyor_flush Store w))
                   = write_buffer (impl w) /\
                   wworker (conveyor_flush Store w) = wworker w /\
                   io_log (conveyor_flush Store w) = io_log w /\
                   write_buffer_enabled (impl (conveyor_flush Store w))
                   = write_buffer_enabled (impl w)).
      { unfold conveyor_flush, conveyor_flush_wake. rewrite Ee. cbn.
        destruct (_ >? 0); [|repeat split; exact Ee].
        destruct (_ || _); repeat split; exact Ee. }
      destruct Hf as (H1 & H2 & H3 & H4).
      destruct (client (conveyor_flush Store w)); injection H as <- <-;
        cbn; (split; [exact H1|]); (split; [exact H2|]);
        (split; [exact H3|]); (split; [congruence|]); discriminate.
    + injection H as <- <-. rewrite Ee. repeat split; discriminate.
  - unfold conveyor_flush_wake in H. destruct (_ || _); [|discriminate].
    cbn in H. injection H as <- <-. repeat split; discriminate.
  - destruct (read_buffer_enabled (impl w)); injection H as <- <-;
      repeat split; discriminate.
  - destruct (rworker w); try discriminate; injection H as <- <-;
      repeat split; discriminate.
  - destruct (write_buffer_enabled (impl w)) eqn:Ee; injection H as <- <-.
    + repeat split; try exact Ee; discriminate.
    + repeat split; try exact Ee. intros _ Hc. discriminate.
  - destruct (wworker w) eqn:Ew; try discriminate; injection H as <- <-;
      repeat split; auto.
  - discriminate.
Qed.

(** [conveyor_destroy] loses no accepted byte.  On an engine
    opened for writing whose write worker is running, when
    [conveyor_destroy] has returned - under every interleaving of the
    destroying thread with the two workers - every byte that was pending
    at the call (in the worker's private vector or in the write ring) has
    been handed to the [write] callback, after the bytes handed over
    before and in the order of acceptance, nothing else has been, the
    ring is empty and the write worker has left its loop. *)
Theorem conveyor_destroy_delivers_every_pending_byte
        {Store : Type} (ops : storage_operations_t.t Store)
        (w w' : World Store) (schedule : list shutdown_action) :
  write_buffer_enabled (impl w) = true ->
  RingBuffer.wf (write_buffer (impl w)) ->
  wworker w <> WW_none ->
  wworker w <> WW_exit ->
  shutdown_run ops (D_enter, w) schedule = Some (D_done, w') ->
  delivered (io_log w') = delivered (io_log w) ++ pending w /\
  RingBuffer.contents (write_buffer (impl w')) = [] /\
  wworker w' = WW_exit.
Proof.
  intros He Hwf Hn Hx Hrun.
  set (L := delivered (io_log w) ++ pending w).
  set (Inv := fun s : destroy_pc * World Store =>
                write_buffer_enabled (impl (snd s)) = true /\
                RingBuffer.wf (write_buffer (impl (snd s))) /\
                wworker (snd s) <> WW_none /\
                delivered (io_log (snd s)) ++ pending (snd s) = L /\
                (wworker (snd s) = WW_exit ->
                 RingBuffer.contents (write_buffer (impl (snd s))) = []) /\
                (fst s = D_done -> wworker (snd s) = WW_exit)).
  assert (Hstep : forall s a s',
             Inv s -> shutdown_step ops s a = Some s' -> Inv s').
  { clear He Hwf Hn Hx Hrun. intros [d v] a [d' v'] (He & Hwf & Hn & HL & Hx & Hd) Hs.
    cbn [fst snd] in *. destruct a; cbn [shutdown_step fst snd] in Hs.
    - apply conveyor_destroy_moves_nothing in Hs.
      destruct Hs as (Hb & Hw & Hl & He' & Hdone).
      unfold Inv, pending in *. cbn [fst snd].
      rewrite Hb, Hw, Hl, He'.
      repeat (split; [assumption|]).
      intros Hd'. destruct (Hdone Hd' He) as [Hex|Hno];
        [congruence|contradiction].
    - unfold bind in Hs.
      destruct (writeWorker Store ops v) as [v1|] eqn:E; [|discriminate].
      injection Hs as <- <-.
      pose proof (writeWorker_frame ops v v1 E)
        as ((_ & _ & He' & _) & _ & _ & _).
      assert (Hn1 : wworker v1 <> WW_none).
      { intros Hc. unfold writeWorker, bind in E.
        destruct (wworker v); try discriminate;
          repeat break_in E; try discriminate;
          injection E as <-; discriminate. }
      destruct (writeWorker_keeps_pending ops v v1 Hwf E)
        as (Hwf1 & HL1 & Hx1).
      unfold Inv. cbn [fst snd].
      split; [congruence|]. split; [exact Hwf1|]. split; [exact Hn1|].
      split; [congruence|]. split; [exact Hx1|].
      intros Hd'. specialize (Hd Hd').
      unfold writeWorker in E. rewrite Hd in E. discriminate.
    - unfold bind in Hs.
      destruct (readWorker Store ops v) as [v1|] eqn:E; [|discriminate].
      injection Hs as <- <-.
      pose proof (readWorker_frame ops v v1 E)
        as ((_ & _ & He' & _) & _ & _ & _).
      apply readWorker_leaves_write_side in E.
      destruct E as (Hb & Hw & Hl).
      unfold Inv, pending in *. cbn [fst snd].
      rewrite Hb, Hw, Hl, He'.
      repeat (split; [assumption|]). exact Hd. }
  assert (Hall : forall sched s s',
             Inv s -> shutdown_run ops s sched = Some s' -> Inv s').
  { induction sched as [|a rest IH]; intros s s' HI H.
    - injection H as <-. exact HI.
    - cbn in H. unfold bind in H.
      destruct (shutdown_step ops s a) as [s1|] eqn:E; [|discriminate].
      eapply IH; [|exact H]. eapply Hstep; [exact HI|exact E]. }
  assert (H0 : Inv (D_enter, w)).
  { unfold Inv. cbn [fst snd]. repeat (split; [assumption|]).
    split; [reflexivity|]. split; [contradiction|discriminate]. }
  destruct (Hall schedule _ _ H0 Hrun) as (_ & _ & _ & HL & Hxx & Hd).
  cbn [fst snd] in *. specialize (Hd eq_refl). specialize (Hxx Hd).
  split; [|split; [exact Hxx|exact Hd]].
  unfold pending in HL at 1. rewrite Hd, Hxx in HL. cbn in HL.
  rewrite app_nil_r in HL. exact HL.
Qed.

Lemma conveyor_destroy_delivers_every_pending_byte_witness :
  exists w w',
    run Mock.t Mock.mock_ops write_only_engine
        [Client (Call_write [chA; chB] 2)] = Some w /\
    shutdown_run Mock.mock_ops (D_enter, w)
      [Destroyer; Worker_write; Worker_write; Worker_write;
       Destroyer; Destroyer; Destroyer; Worker_write; Destroyer]
    = Some (D_done, w') /\
    delivered (io_log w') = delivered (io_log w) ++ pending w.
Proof.
  eexists. eexists. split; [vm_compute; reflexivity|].
  split; [vm_compute; reflexivity|].
  refine (proj1 (conveyor_destroy_delivers_every_pending_byte
                   Mock.mock_ops _ _
                   [Destroyer; Worker_write; Worker_write; Worker_write;
                    Destroyer; Destroyer; Destroyer; Worker_write; Destroyer]
                   _ _ _ _ _)).
  - reflexivity.
  - constructor; cbn; try reflexivity; zbounds.
  - discriminate.
  - discriminate.
  - vm_compute. reflexivity.
Defined.

(* ------------------------------------------------------------------ *)
(** ** Soundness of the engine state, over every schedule *)

Lemma wf_available_space (rb : RingBuffer.t) :
  RingBuffer.wf rb ->
  RingBuffer.available_space rb = RingBuffer.capacity rb - RingBuffer.size rb.
Proof.
  intros Hwf. pose proof Hwf as [_ ? ? _ _ _].
  unfold RingBuffer.available_space, size_sub. apply size_wrap_id. zbounds.
Qed.

Lemma conveyor_write_loop_wf (fuel : nat) :
  forall c cur rem wr r,
    RingBuffer.wf (write_buffer c) ->
    0 <= rem <= zlen cur -> rem <= SIZE_MAX ->
    conveyor_write_loop fuel c cur rem wr = Some r ->
    exists c',
      ((exists wr', r = W_done c' wr')
       \/ exists cur' rem' wr',
            r = W_blocked c' cur' rem' wr' /\
            0 <= rem' <= zlen cur' /\ rem' <= SIZE_MAX) /\
      RingBuffer.wf (write_buffer c') /\
      RingBuffer.capacity (write_buffer c')
      = RingBuffer.capacity (write_buffer c) /\
      read_buffer c' = read_buffer c.
Proof.
  induction fuel as [|fuel IH]; intros c cur rem wr r Hwf Hrem Hmax H;
    cbn [conveyor_write_loop] in H.
  - repeat break_in H; try discriminate; injection H as <-;
      exists c; (split; [|auto]);
      first [left; eexists; reflexivity | right; eauto 6].
  - destruct ((rem >? 0) && negb (write_worker_stop_flag c));
      [|injection H as <-; exists c; split; [left; eauto|auto]].
    destruct ((RingBuffer.available_space (write_buffer c) >? 0)
              || write_worker_stop_flag c);
      [|injection H as <-; exists c; split; [right; eauto 6|auto]].
    destruct (write_worker_stop_flag c);
      [injection H as <-; exists c; split; [left; eauto|auto]|].
    destruct (rb_write_spec (write_buffer c) cur rem Hwf) as
      (rb' & E & Hwf' & Hcap & _ & _ & _); [lia|lia|].
    rewrite E in H. cbn [bind] in H.
    set (n := Z.min rem (RingBuffer.capacity (write_buffer c)
                         - RingBuffer.size (write_buffer c))) in *.
    pose proof Hwf as [_ _ Hsz _ _ _].
    assert (Hn : 0 <= n <= rem) by (unfold n; lia).
    assert (Hsub : size_sub rem n = rem - n)
      by (unfold size_sub; apply size_wrap_id; lia).
    rewrite Hsub in H.
    apply IH in H; [|exact Hwf'|rewrite zlen_skipn by lia; lia|lia].
    destruct H as (c' & Hr & Hw' & Hc' & Hrd). exists c'.
    split; [exact Hr|]. split; [exact Hw'|].
    split; [cbn in Hc'; lia|exact Hrd].
Qed.

Lemma conveyor_read_loop_wf (fuel : nat) :
  forall c f cur rem tot woken r,
    RingBuffer.wf (read_buffer c) ->
    0 <= rem <= zlen cur -> rem <= SIZE_MAX ->
    conveyor_read_loop fuel c f cur rem tot woken = Some r ->
    exists c',
      ((exists f' cur' tot', r = R_done c' f' cur' tot')
       \/ exists f' cur' rem' tot',
            r = R_blocked c' f' cur' rem' tot' /\
            0 <= rem' <= zlen cur' /\ rem' <= SIZE_MAX) /\
      RingBuffer.wf (read_buffer c') /\
      RingBuffer.capacity (read_buffer c')
      = RingBuffer.capacity (read_buffer c) /\
      write_buffer c' = write_buffer c.
Proof.
  induction fuel as [|fuel IH]; intros c f cur rem tot woken r Hwf Hrem Hmax H;
    [discriminate|].
  pose proof Hwf as [_ Halloc Hsz _ _ _].
  destruct (rb_read_spec (read_buffer c) cur
              (Z.min rem (RingBuffer.available_data (read_buffer c))) Hwf)
    as (rb' & E & Hwf' & Hcap & _ & _ & _);
    [unfold RingBuffer.available_data; lia
    |unfold RingBuffer.available_data; lia|].
  unfold RingBuffer.available_data in E. cbv zeta in E.
  set (n := Z.min rem (RingBuffer.size (read_buffer c))) in *.
  assert (Hn : 0 <= n <= rem) by (unfold n; lia).
  replace (Z.min n (RingBuffer.size (read_buffer c))) with n in E
    by (unfold n; lia).
  assert (Hmem : zlen (firstn (Z.to_nat n)
                         (RingBuffer.contents (read_buffer c))
                       ++ skipn (Z.to_nat n) cur) = zlen cur).
  { pose proof (contents_zlen (read_buffer c) ltac:(lia)) as Hl.
    rewrite zlen_app, zlen_firstn, zlen_skipn by (unfold n in *; lia).
    lia. }
  assert (Hsub : size_sub rem n = rem - n)
    by (unfold size_sub; apply size_wrap_id; lia).
  assert (Hbody :
            forall c0 r0,
              read_buffer c0 = read_buffer c ->
              write_buffer c0 = write_buffer c ->
              conveyor_read_loop fuel
                (set_current_file_offset (set_read_buffer c0 rb')
                   (off_add (current_file_offset c0) n))
                (f ++ firstn (Z.to_nat n)
                        (firstn (Z.to_nat n) (RingBuffer.contents (read_buffer c))
                         ++ skipn (Z.to_nat n) cur))
                (skipn (Z.to_nat n)
                   (firstn (Z.to_nat n) (RingBuffer.contents (read_buffer c))
                    ++ skipn (Z.to_nat n) cur))
                (rem - n) (off_add tot n) false = Some r0 ->
              exists c',
                ((exists f' cur' tot', r0 = R_done c' f' cur' tot')
                 \/ exists f' cur' rem' tot',
                      r0 = R_blocked c' f' cur' rem' tot' /\
                      0 <= rem' <= zlen cur' /\ rem' <= SIZE_MAX) /\
                RingBuffer.wf (read_buffer c') /\
                RingBuffer.capacity (read_buffer c')
                = RingBuffer.capacity (read_buffer c) /\
                write_buffer c' = write_buffer c).
  { intros c0 r0 Hr0 Hw0 H0. apply IH in H0.
    - destruct H0 as (c' & Hres & Hw' & Hc' & Hwr). exists c'.
      split; [exact Hres|]. split; [exact Hw'|].
      split; [cbn in Hc'; lia|]. cbn in Hwr. congruence.
    - exact Hwf'.
    - rewrite zlen_skipn by lia. lia.
    - lia. }
  cbn [conveyor_read_loop] in H. cbv beta zeta in H.
  cbn [read_buffer set_read_worker_needs_fill read_eof_flag
       read_worker_stop_flag] in H.
  unfold RingBuffer.available_data in H. fold n in H.
  destruct woken.
  - destruct (_ || _);
      [|injection H as <-; exists c; split; [right; eauto 8|auto]].
    destruct (_ =? 0);
      [injection H as <-; exists c; split; [left; eauto|auto]|].
    rewrite E in H. cbn [bind] in H. rewrite Hsub in H.
    eapply Hbody; [| |exact H]; reflexivity.
  - destruct (_ && _);
      [|injection H as <-; exists c; split; [left; eauto|auto]].
    destruct (RingBuffer.empty (read_buffer c)).
    + destruct (read_eof_flag c);
        [injection H as <-; exists c; split; [left; eauto|auto]|].
      destruct (_ || _);
        [|injection H as <-; eexists; split; [right; eauto 8|auto]].
      destruct (_ =? 0);
        [injection H as <-; eexists; split; [left; eauto|auto]|].
      rewrite E in H. cbn [bind] in H. rewrite Hsub in H.
      eapply Hbody; [| |exact H]; reflexivity.
    + rewrite E in H. cbn [bind] in H. rewrite Hsub in H.
      eapply Hbody; [| |exact H]; reflexivity.
Qed.

Lemma conveyor_write_from_wf {Store : Type} (wsize rsize : Z)
      (w w' : World Store) (cur : list byte) (rem wr : Z) :
  engine_wf wsize rsize w ->
  0 <= rem <= zlen cur -> rem <= SIZE_MAX ->
  conveyor_write_from Store w cur rem wr = Some w' ->
  engine_wf wsize rsize w'.
Proof.
  intros (Hw & Hwc & Hr & Hrc & _ & Hrw) Hrem Hmax H.
  unfold conveyor_write_from, bind in H.
  destruct (conveyor_write_loop _ _ _ _ _) as [r|] eqn:E; [|discriminate].
  apply conveyor_write_loop_wf in E; [|assumption..].
  destruct E as (c' & Hres & Hw' & Hc' & Hrd).
  destruct (rb_clear_spec (read_buffer c')) as (Hcl & Hclc & _);
    [rewrite Hrd; exact Hr|].
  destruct Hres as [(wr' & ->)|(cur' & rem' & wr' & -> & Hb1 & Hb2)];
    injection H as <-; unfold engine_wf;
    cbn [impl client rworker returning with_impl with_client].
  - destruct (_ && _); cbn [write_buffer read_buffer set_read_buffer_stale
                             set_read_buffer];
      repeat (split; [first [assumption | congruence | exact I]|]);
      assumption.
  - repeat (split; [first [assumption | congruence | lia]|]); assumption.
Qed.

Lemma conveyor_read_from_wf {Store : Type} (wsize rsize : Z)
      (w w' : World Store) (f cur : list byte) (rem tot : Z) (woken : bool) :
  engine_wf wsize rsize w ->
  0 <= rem <= zlen cur -> rem <= SIZE_MAX ->
  conveyor_read_from Store w f cur rem tot woken = Some w' ->
  engine_wf wsize rsize w'.
Proof.
  intros (Hw & Hwc & Hr & Hrc & _ & Hrw) Hrem Hmax H.
  unfold conveyor_read_from, bind in H.
  destruct (conveyor_read_loop _ _ _ _ _ _ _) as [r|] eqn:E; [|discriminate].
  apply conveyor_read_loop_wf in E; [|assumption..].
  destruct E as (c' & Hres & Hr' & Hc' & Hwr).
  destruct Hres as [(f' & cur' & tot' & ->)
                   |(f' & cur' & rem' & tot' & -> & Hb1 & Hb2)];
    injection H as <-; unfold engine_wf;
    cbn [impl client rworker returning with_impl with_client];
    rewrite Hwr;
    repeat (split; [first [assumption | congruence | exact I | lia]|]);
    assumption.
Qed.

Lemma conveyor_lseek_wf {Store : Type} (ops : storage_operations_t.t Store)
      (wsize rsize : Z) (w : World Store) (offset whence : Z) :
  engine_wf wsize rsize w ->
  engine_wf wsize rsize (conveyor_lseek Store ops w offset whence).
Proof.
  intros (Hw & Hwc & Hr & Hrc & _ & Hrw). unfold conveyor_lseek.
  destruct (storage_operations_t.lseek _ _ _ _ _) as [r st].
  destruct (rb_clear_spec _ Hw) as (Hcw & Hcwc & _).
  destruct (rb_clear_spec _ Hr) as (Hcr & Hcrc & _).
  unfold engine_wf.
  cbn [impl client rworker returning with_impl with_io].
  destruct (negb _);
    [|repeat (split; [first [assumption | exact I]|]); assumption].
  destruct (read_buffer_enabled (impl w));
    destruct (write_buffer_enabled _);
    cbn [write_buffer read_buffer set_read_buffer_stale set_read_buffer
         set_read_eof_flag set_write_buffer set_current_pos_in_storage
         set_current_file_offset];
    repeat (split; [first [assumption | congruence | exact I]|]);
    assumption.
Qed.

Lemma conveyor_flush_wake_wf {Store : Type} (wsize rsize : Z)
      (w w' : World Store) :
  engine_wf wsize rsize w ->
  conveyor_flush_wake Store w = Some w' ->
  engine_wf wsize rsize w'.
Proof.
  intros (Hw & Hwc & Hr & Hrc & _ & Hrw). unfold conveyor_flush_wake.
  destruct (_ || _); [|discriminate]. intros H. injection H as <-.
  unfold engine_wf. cbn.
  repeat (split; [first [assumption | exact I]|]); assumption.
Qed.

Lemma conveyor_flush_wf {Store : Type} (wsize rsize : Z) (w : World Store) :
  engine_wf wsize rsize w ->
  engine_wf wsize rsize (conveyor_flush Store w).
Proof.
  intros HI. pose proof HI as (Hw & Hwc & Hr & Hrc & _ & Hrw).
  assert (H1 : engine_wf wsize rsize
                 (with_impl Store w
                    (set_write_buffer_needs_flush (impl w) true))).
  { unfold engine_wf. cbn. destruct HI as (_ & _ & _ & _ & Hc & _).
    repeat (split; [assumption|]); assumption. }
  unfold conveyor_flush. destruct (negb _).
  { unfold engine_wf. cbn.
    repeat (split; [first [assumption | exact I]|]); assumption. }
  destruct (_ >? 0).
  - destruct (conveyor_flush_wake _ _) as [w2|] eqn:E.
    + eapply conveyor_flush_wake_wf; [exact H1|exact E].
    + unfold engine_wf. cbn.
      repeat (split; [first [assumption | exact I]|]); assumption.
  - unfold engine_wf. cbn.
    repeat (split; [first [assumption | exact I]|]); assumption.
Qed.

Lemma writeWorker_wf {Store : Type} (ops : storage_operations_t.t Store)
      (wsize rsize : Z) (w w' : World Store) :
  engine_wf wsize rsize w ->
  writeWorker Store ops w = Some w' ->
  engine_wf wsize rsize w'.
Proof.
  intros (Hw & Hwc & Hr & Hrc & Hcl & Hrw) H.
  unfold writeWorker, bind in H.
  destruct (wworker w) as [|temp|temp n|temp r|] eqn:Ew; try discriminate.
  - destruct (_ || _); [|discriminate].
    destruct (_ && _).
    { injection H as <-. unfold engine_wf. cbn.
      repeat (split; [assumption|]); assumption. }
    unfold RingBuffer.available_data in H.
    set (n := RingBuffer.size (write_buffer (impl w))) in *.
    assert (Hn : 0 <= n <= SIZE_MAX).
    { pose proof Hw as [_ ? ? _ _ _]. unfold n. zbounds. }
    destruct (n >? 0) eqn:En.
    + destruct (rb_read_spec (write_buffer (impl w)) (vector_resize temp n)
                  n Hw Hn)
        as (rb' & E & Hwf' & Hcap' & _);
        [rewrite zlen_vector_resize by lia; fold n; lia|].
      cbv zeta in E. fold n in E. rewrite Z.min_id in E.
      rewrite E in H. cbn [bind] in H. injection H as <-.
      unfold engine_wf.
      cbn [impl client rworker with_wworker with_impl].
      destruct (write_buffer_needs_flush (impl w));
        cbn [write_buffer read_buffer set_write_buffer
             set_write_buffer_needs_flush];
        repeat (split; [first [assumption | congruence]|]); assumption.
    + cbn [bind] in H. injection H as <-. unfold engine_wf.
      cbn [impl client rworker with_wworker with_impl].
      destruct (write_buffer_needs_flush (impl w));
        cbn [write_buffer read_buffer set_write_buffer
             set_write_buffer_needs_flush];
        repeat (split; [first [assumption | congruence]|]); assumption.
  - destruct (negb _).
    + destruct (storage_operations_t.lseek _ _ _ _ _) as [r0 st0].
      cbn in H.
      destruct (storage_operations_t.write _ _ _ _ _) as [r st].
      injection H as <-. unfold engine_wf. cbn.
      repeat (split; [assumption|]); assumption.
    + destruct (storage_operations_t.write _ _ _ _ _) as [r st].
      injection H as <-. unfold engine_wf. cbn.
      repeat (split; [assumption|]); assumption.
  - injection H as <-. unfold engine_wf.
    cbn [impl client rworker with_wworker with_impl].
    destruct (r >? 0); cbn [write_buffer read_buffer
                            set_current_pos_in_storage];
      repeat (split; [assumption|]); assumption.
Qed.

Lemma readWorker_wf {Store : Type} (ops : storage_operations_t.t Store)
      (wsize rsize : Z) (w w' : World Store) :
  read_callback_in_bounds ops ->
  engine_wf wsize rsize w ->
  readWorker Store ops w = Some w' ->
  engine_wf wsize rsize w'.
Proof.
  intros Hops (Hw & Hwc & Hr & Hrc & Hcl & Hrw) H.
  unfold readWorker, bind in H.
  destruct (rworker w) as [|temp|temp n|temp r|] eqn:Ew; try discriminate.
  - destruct (_ || _); [|discriminate].
    destruct (read_worker_stop_flag (impl w)) eqn:Es.
    { injection H as <-. unfold engine_wf. cbn.
      repeat (split; [first [assumption | exact I]|]); exact I. }
    set (c1 := if read_buffer_stale (impl w) then _ else impl w) in H.
    destruct (rb_clear_spec _ Hr) as (Hcr & Hcrc & _).
    assert (Hc1 : write_buffer c1 = write_buffer (impl w) /\
                  RingBuffer.wf (read_buffer c1) /\
                  RingBuffer.capacity (read_buffer c1) = rsize).
    { subst c1. destruct (read_buffer_stale _); cbn;
        (split; [reflexivity|]); split; first [assumption | congruence]. }
    destruct Hc1 as (Hc1w & Hc1r & Hc1c).
    destruct (_ && _).
    + assert (Hsp : zlen (vector_resize temp
                            (RingBuffer.available_space (read_buffer c1)))
                    = RingBuffer.available_space (read_buffer c1) /\
                    0 <= RingBuffer.available_space (read_buffer c1)
                    <= PTRDIFF_MAX).
      { rewrite (wf_available_space _ Hc1r).
        pose proof Hc1r as [_ ? ? _ _ _].
        rewrite zlen_vector_resize by lia. lia. }
      destruct (negb _).
      * destruct (storage_operations_t.lseek _ _ _ _ _) as [r0 st0].
        injection H as <-. unfold engine_wf.
        cbn [impl client rworker with_rworker with_impl with_io].
        rewrite Hc1w.
        repeat (split; [assumption|]); assumption.
      * injection H as <-. unfold engine_wf.
        cbn [impl client rworker with_rworker with_impl with_io].
        rewrite Hc1w.
        repeat (split; [assumption|]); assumption.
    + injection H as <-. unfold engine_wf.
      cbn [impl client rworker with_rworker with_impl].
      destruct (read_worker_needs_fill c1);
        cbn [write_buffer read_buffer set_read_worker_needs_fill];
        rewrite Hc1w;
        repeat (split; [first [assumption | exact I]|]); exact I.
  - destruct Hrw as [Hlen Hn].
    pose proof (Hops (handle (impl w)) n (storage w) ltac:(lia)) as Hc.
    destruct (storage_operations_t.read _ _ _ _) as [r st].
    cbn [fst] in Hc. cbv zeta in Hc. destruct Hc as [Hret Hdata].
    injection H as <-. unfold engine_wf.
    cbn [impl client rworker with_rworker with_impl with_io].
    repeat (split; [assumption|]).
    assert (Hl : zlen (firstn (Z.to_nat (Z.max 0 (io_ret r))) (io_data r)
                       ++ skipn (Z.to_nat (Z.max 0 (io_ret r))) temp)
                 = zlen temp).
    { pose proof (zlen_nonneg (io_data r)).
      rewrite zlen_app, zlen_firstn, zlen_skipn by lia. lia. }
    rewrite Hl. lia.
  - destruct Hrw as [Hr1 Hr2].
    destruct (if r >? 0 then _ else _) as [c1|] eqn:E1; [|discriminate].
    cbn [bind] in H. injection H as <-.
    assert (Hc1 : write_buffer c1 = write_buffer (impl w) /\
                  RingBuffer.wf (read_buffer c1) /\
                  RingBuffer.capacity (read_buffer c1) = rsize).
    { destruct (r >? 0) eqn:Er.
      - apply Z.gtb_lt in Er.
        destruct (rb_write_spec (read_buffer (impl w)) temp r Hr)
          as (rb' & E & Hwf' & Hcap' & _); [zbounds|lia|].
        rewrite E in E1. cbn [bind] in E1. injection E1 as <-.
        cbn. (split; [reflexivity|]); split;
          first [assumption | congruence].
      - destruct (r =? 0); injection E1 as <-; cbn;
          (split; [reflexivity|]); split; assumption. }
    destruct Hc1 as (Hc1w & Hc1r & Hc1c).
    unfold engine_wf.
    cbn [impl client rworker with_rworker with_impl].
    destruct (read_worker_needs_fill c1);
      cbn [write_buffer read_buffer set_read_worker_needs_fill];
      rewrite Hc1w;
      repeat (split; [first [assumption | exact I]|]); exact I.
Qed.

Lemma step_keeps_engine_wf {Store : Type}
      (ops : storage_operations_t.t Store) (wsize rsize : Z)
      (w w' : World Store) (a : action) :
  rworker w = RW_none \/ read_callback_in_bounds ops ->
  engine_wf wsize rsize w ->
  action_in_bounds a ->
  step Store ops w a = Some w' ->
  engine_wf wsize rsize w'.
Proof.
  intros Hops HI Ha H. unfold step in H.
  destruct a as [[buf count|buf count|offset whence|]| | |].
  - destruct (client w); try discriminate.
    unfold conveyor_write in H. destruct (negb _).
    + injection H as <-. destruct HI as (? & ? & ? & ? & _ & ?).
      unfold engine_wf. cbn.
      repeat (split; [first [assumption | exact I]|]); assumption.
    + destruct Ha as [Ha1 Ha2].
      eapply conveyor_write_from_wf; [exact HI| | |exact H]; assumption.
  - destruct (client w); try discriminate.
    unfold conveyor_read in H. destruct (negb _).
    + injection H as <-. destruct HI as (? & ? & ? & ? & _ & ?).
      unfold engine_wf. cbn.
      repeat (split; [first [assumption | exact I]|]); assumption.
    + destruct Ha as [Ha1 Ha2].
      eapply conveyor_read_from_wf; [exact HI| | |exact H]; assumption.
  - destruct (client w); try discriminate.
    injection H as <-. apply conveyor_lseek_wf. exact HI.
  - destruct (client w); try discriminate.
    injection H as <-. apply conveyor_flush_wf. exact HI.
  - destruct (client w) eqn:Ec; try discriminate.
    + destruct (_ || _); [|discriminate].
      pose proof HI as (_ & _ & _ & _ & Hb & _). rewrite Ec in Hb.
      eapply conveyor_write_from_wf; [exact HI| | |exact H]; apply Hb.
    + destruct (_ || _); [|discriminate].
      pose proof HI as (_ & _ & _ & _ & Hb & _). rewrite Ec in Hb.
      eapply conveyor_read_from_wf; [exact HI| | |exact H]; apply Hb.
    + eapply conveyor_flush_wake_wf; [exact HI|exact H].
  - destruct (client w); eapply writeWorker_wf; try exact H; exact HI.
  - assert (Hr : readWorker Store ops w = Some w')
      by (destruct (client w); exact H).
    destruct Hops as [Hnone|Hops].
    + unfold readWorker in Hr. rewrite Hnone in Hr. discriminate.
    + eapply readWorker_wf; [exact Hops|exact HI|exact Hr].
Qed.

(** The state of the engine stays sound.  With rings of at least one
    byte, a [read] callback that keeps the contract of read(2) and a
    client that passes buffers as long as the counts it gives, every
    state the engine reaches - whatever the calls and however the threads
    interleave - has both rings satisfying the invariant of RingBuffer at
    their initial capacities, parked calls within their buffers and the
    private vector of readWorker long enough for what it is about to
    copy. *)
Theorem engine_state_stays_sound
        {Store : Type} (ops : storage_operations_t.t Store)
        (handle oflags : Z) (st : Store) (wsize rsize : Z)
        (schedule : list action) (w : World Store) :
  read_callback_in_bounds ops ->
  1 <= wsize <= PTRDIFF_MAX ->
  1 <= rsize <= PTRDIFF_MAX ->
  Forall action_in_bounds schedule ->
  run Store ops (conveyor_create Store handle oflags st wsize rsize) schedule
  = Some w ->
  engine_wf wsize rsize w.
Proof.
  intros Hops Hws Hrs Hsched Hrun.
  assert (H0 : engine_wf wsize rsize
                 (conveyor_create Store handle oflags st wsize rsize)).
  { unfold engine_wf, conveyor_create.
    cbn [impl client rworker write_buffer read_buffer].
    split; [apply make_wf; lia|]. split; [reflexivity|].
    split; [apply make_wf; lia|]. split; [reflexivity|].
    split; [exact I|]. destruct (_ || _); exact I. }
  revert H0 Hrun.
  generalize (conveyor_create Store handle oflags st wsize rsize).
  induction Hsched as [|a rest Ha _ IH]; intros w0 H0 Hrun.
  - injection Hrun as <-. exact H0.
  - cbn in Hrun. unfold bind in Hrun.
    destruct (step Store ops w0 a) as [w1|] eqn:E; [|discriminate].
    apply (IH w1); [|exact Hrun].
    eapply step_keeps_engine_wf; [right; exact Hops|exact H0|exact Ha|exact E].
Qed.

Lemma engine_state_stays_sound_witness :
  exists w,
    run Mock.t
        (storage_operations_t.mk Mock.t Mock.mock_write
           (fun _ _ st => (mk_io 0 None [], st)) Mock.mock_lseek)
        (conveyor_create Mock.t 1 O_RDWR Mock.empty_storage 4 4)
        [Client (Call_write [chA; chB] 2); WriteWorker; ReadWorker;
         ReadWorker; ReadWorker; Client (Call_read [chF; chF] 2)]
    = Some w /\
    engine_wf 4 4 w.
Proof.
  eexists. split; [vm_compute; reflexivity|].
  apply (engine_state_stays_sound
           (storage_operations_t.mk Mock.t Mock.mock_write
              (fun _ _ st => (mk_io 0 None [], st)) Mock.mock_lseek)
           1 O_RDWR Mock.empty_storage 4 4
           [Client (Call_write [chA; chB] 2); WriteWorker; ReadWorker;
            ReadWorker; ReadWorker; Client (Call_read [chF; chF] 2)]).
  - intros h count st Hc. cbn. unfold zlen. cbn. lia.
  - zbounds.
  - zbounds.
  - repeat constructor; unfold zlen; cbn; zbounds.
  - vm_compute. reflexivity.
Defined.

(* ------------------------------------------------------------------ *)
(** ** No step is undefined *)

Lemma conveyor_read_loop_total (fuel : nat) :
  forall (c : ConveyorImpl) (f cur : list byte) (rem tot : Z) (woken : bool),
    (Z.to_nat rem + (if woken then 1 else 0) < fuel)%nat ->
    0 <= rem <= SIZE_MAX ->
    rem <= zlen cur ->
    RingBuffer.wf (read_buffer c) ->
    exists r, conveyor_read_loop fuel c f cur rem tot woken = Some r.
Proof.
  induction fuel as [|fuel IH]; intros c f cur rem tot woken Hfuel Hrem Hcur Hwf;
    [lia|].
  pose proof Hwf as [_ Halloc Hsz _ _ _].
  destruct (rb_read_spec (read_buffer c) cur
              (Z.min rem (RingBuffer.available_data (read_buffer c))) Hwf)
    as (rb' & E & Hwf' & _);
    [unfold RingBuffer.available_data; lia
    |unfold RingBuffer.available_data; lia|].
  unfold RingBuffer.available_data in E. cbv zeta in E.
  set (n := Z.min rem (RingBuffer.size (read_buffer c))) in *.
  assert (Hn : 0 <= n <= rem) by (unfold n; lia).
  replace (Z.min n (RingBuffer.size (read_buffer c))) with n in E
    by (unfold n; lia).
  assert (Hmem : zlen (firstn (Z.to_nat n)
                         (RingBuffer.contents (read_buffer c))
                       ++ skipn (Z.to_nat n) cur) = zlen cur).
  { pose proof (contents_zlen (read_buffer c) ltac:(lia)) as Hl.
    rewrite zlen_app, zlen_firstn, zlen_skipn by (unfold n in *; lia).
    lia. }
  assert (Hsub : size_sub rem n = rem - n)
    by (unfold size_sub; apply size_wrap_id; lia).
  assert (Hbody :
            forall c0,
              (woken = true \/ 1 <= n) ->
              exists r,
                conveyor_read_loop fuel
                  (set_current_file_offset (set_read_buffer c0 rb')
                     (off_add (current_file_offset c0) n))
                  (f ++ firstn (Z.to_nat n)
                          (firstn (Z.to_nat n)
                             (RingBuffer.contents (read_buffer c))
                           ++ skipn (Z.to_nat n) cur))
                  (skipn (Z.to_nat n)
                     (firstn (Z.to_nat n)
                        (RingBuffer.contents (read_buffer c))
                      ++ skipn (Z.to_nat n) cur))
                  (rem - n) (off_add tot n) false = Some r).
  { intros c0 Hprog. apply IH.
    - destruct Hprog as [->|Hp]; lia.
    - lia.
    - rewrite zlen_skipn by lia. lia.
    - exact Hwf'. }
  cbn [conveyor_read_loop]. cbv beta zeta.
  cbn [read_buffer set_read_worker_needs_fill read_eof_flag
       read_worker_stop_flag].
  unfold RingBuffer.available_data, RingBuffer.empty. fold n.
  destruct woken.
  - destruct (_ || _); [|eexists; reflexivity].
    destruct (_ =? 0); [eexists; reflexivity|].
    rewrite E. cbn [bind]. rewrite Hsub. apply Hbody. left. reflexivity.
  - destruct ((rem >? 0) && _) eqn:Eloop; [|eexists; reflexivity].
    apply andb_true_iff in Eloop. destruct Eloop as [Epos _].
    apply Z.gtb_lt in Epos.
    destruct (RingBuffer.size (read_buffer c) =? 0) eqn:Ee.
    + destruct (read_eof_flag c); [eexists; reflexivity|].
      destruct (_ || _); [|eexists; reflexivity].
      eexists; reflexivity.
    + apply Z.eqb_neq in Ee.
      rewrite E. cbn [bind]. rewrite Hsub. apply Hbody. right.
      unfold n. lia.
Qed.

(** The engine never runs into undefined behaviour.  In a sound state,
    a thread that cannot take a step is waiting: a step is undefined only
    for a client inside a call, a [wait] whose predicate is false, or a
    worker that was never started or has left its loop.  No step copies
    outside a buffer or divides by zero. *)
Theorem engine_step_is_never_undefined
        {Store : Type} (ops : storage_operations_t.t Store)
        (wsize rsize : Z) (w : World Store) (a : action) :
  engine_wf wsize rsize w ->
  action_in_bounds a ->
  step Store ops w a = None ->
  blocked w a.
Proof.
  intros (Hw & Hwc & Hr & Hrc & Hcl & Hrw) Ha H.
  unfold step in H. unfold blocked.
  destruct a as [[buf count|buf count|offset whence|]| | |].
  - destruct (client w); try discriminate.
    exfalso. unfold conveyor_write, conveyor_write_from in H.
    destruct (negb _); [discriminate|]. destruct Ha as [Ha1 Ha2].
    destruct (conveyor_write_loop_total (S (Z.to_nat count)) (impl w) buf
                count 0) as [r E]; [lia|lia|lia|exact Hw|].
    rewrite E in H. cbn [bind] in H. destruct r; discriminate.
  - destruct (client w); try discriminate.
    exfalso. unfold conveyor_read, conveyor_read_from in H.
    destruct (negb _); [discriminate|]. destruct Ha as [Ha1 Ha2].
    destruct (conveyor_read_loop_total (S (S (Z.to_nat count))) (impl w) []
                buf count 0 false) as [r E]; [lia|lia|lia|exact Hr|].
    rewrite E in H. cbn [bind] in H. destruct r; discriminate.
  - destruct (client w); discriminate.
  - destruct (client w); discriminate.
  - destruct (client w) as [|cur rem wr|f cur rem tot|] eqn:Ec.
    + exact I.
    + destruct (_ || _); [|reflexivity].
      exfalso. unfold conveyor_write_from in H.
      destruct (conveyor_write_loop_total (S (Z.to_nat rem)) (impl w) cur
                  rem wr) as [r E]; [lia|lia|lia|exact Hw|].
      rewrite E in H. cbn [bind] in H. destruct r; discriminate.
    + destruct (_ || _); [|reflexivity].
      exfalso. unfold conveyor_read_from in H.
      destruct (conveyor_read_loop_total (S (S (Z.to_nat rem))) (impl w) f
                  cur rem tot true) as [r E]; [lia|lia|lia|exact Hr|].
      rewrite E in H. cbn [bind] in H. destruct r; discriminate.
    + unfold conveyor_flush_wake in H.
      destruct (_ || _); [discriminate|reflexivity].
  - assert (Hww : writeWorker Store ops w = None)
      by (destruct (client w); exact H).
    clear H. unfold writeWorker, bind in Hww.
    destruct (wworker w) as [|temp|temp n|temp r|]; try exact I.
    + destruct (_ || _); [|reflexivity]. exfalso.
      destruct (_ && _); [discriminate|].
      unfold RingBuffer.available_data in Hww.
      set (n := RingBuffer.size (write_buffer (impl w))) in *.
      assert (Hn : 0 <= n <= SIZE_MAX).
      { pose proof Hw as [_ ? ? _ _ _]. unfold n. zbounds. }
      destruct (n >? 0) eqn:En; [|discriminate].
      destruct (rb_read_spec (write_buffer (impl w)) (vector_resize temp n)
                  n Hw Hn) as (rb' & E & _);
        [rewrite zlen_vector_resize by lia; fold n; lia|].
      rewrite E in Hww. discriminate.
    + destruct (negb _).
      * destruct (storage_operations_t.lseek _ _ _ _ _).
        cbn in Hww. destruct (storage_operations_t.write _ _ _ _ _).
        discriminate.
      * destruct (storage_operations_t.write _ _ _ _ _). discriminate.
    + discriminate.
  - assert (Hrr : readWorker Store ops w = None)
      by (destruct (client w); exact H).
    clear H. unfold readWorker, bind in Hrr.
    destruct (rworker w) as [|temp|temp n|temp r|]; try exact I.
    + destruct (_ || _); [|reflexivity]. exfalso.
      destruct (read_worker_stop_flag (impl w)); [discriminate|].
      destruct (_ && _); [|discriminate].
      destruct (negb _); [|discriminate].
      destruct (storage_operations_t.lseek _ _ _ _ _). discriminate.
    + destruct (storage_operations_t.read _ _ _ _). discriminate.
    + destruct Hrw as [Hr1 Hr2].
      destruct (r >? 0) eqn:Er.
      * apply Z.gtb_lt in Er.
        destruct (rb_write_spec (read_buffer (impl w)) temp r Hr)
          as (rb' & E & _); [zbounds|lia|].
        rewrite E in Hrr. discriminate.
      * destruct (r =? 0); discriminate.
Qed.

Lemma engine_step_is_never_undefined_witness :
  blocked read_write_engine WriteWorker.
Proof.
  apply (engine_step_is_never_undefined Mock.mock_ops 8 8
           read_write_engine WriteWorker).
  - unfold engine_wf, read_write_engine. cbn.
    split; [apply (proj1 (make_wf 8 ltac:(zbounds)))|].
    split; [reflexivity|].
    split; [apply (proj1 (make_wf 8 ltac:(zbounds)))|].
    split; [reflexivity|]. split; exact I.
  - exact I.
  - reflexivity.
Defined.

(* ------------------------------------------------------------------ *)
(** ** [conveyor_read]: from the cache, or parked *)

(** One pass through the body of the loop of [conveyor_read] on a ring
    that holds [size] bytes: it moves [n = min rem size] of them. *)
Lemma conveyor_read_loop_body
      (fuel : nat) (c : ConveyorImpl) (f cur : list byte) (rem tot : Z) :
  RingBuffer.wf (read_buffer c) ->
  0 < rem <= zlen cur -> rem <= SIZE_MAX ->
  read_worker_stop_flag c = false ->
  0 < RingBuffer.size (read_buffer c) ->
  let n := Z.min rem (RingBuffer.size (read_buffer c)) in
  exists rb',
    RingBuffer.wf rb' /\
    RingBuffer.capacity rb' = RingBuffer.capacity (read_buffer c) /\
    RingBuffer.size rb' = RingBuffer.size (read_buffer c) - n /\
    RingBuffer.contents rb'
    = skipn (Z.to_nat n) (RingBuffer.contents (read_buffer c)) /\
    conveyor_read_loop (S fuel) c f cur rem tot false
    = conveyor_read_loop fuel
        (set_current_file_offset (set_read_buffer c rb')
           (off_add (current_file_offset c) n))
        (f ++ firstn (Z.to_nat n) (RingBuffer.contents (read_buffer c)))
        (skipn (Z.to_nat n) cur)
        (rem - n) (off_add tot n) false.
Proof.
  intros Hwf Hrem Hmax Hstop Hsize n.
  pose proof Hwf as [_ Halloc Hsz _ _ _].
  destruct (rb_read_spec (read_buffer c) cur n Hwf)
    as (rb' & E & Hwf' & Hcap & _ & Hsz' & Hcont);
    [unfold n; lia|unfold n; lia|].
  cbv zeta in E, Hsz', Hcont.
  replace (Z.min n (RingBuffer.size (read_buffer c))) with n in *
    by (unfold n; lia).
  exists rb'. split; [exact Hwf'|]. split; [exact Hcap|].
  split; [exact Hsz'|]. split; [exact Hcont|].
  cbn [conveyor_read_loop]. cbv beta zeta.
  unfold RingBuffer.available_data, RingBuffer.empty. fold n.
  rewrite Hstop.
  replace (rem >? 0) with true by (symmetry; apply Z.gtb_lt; lia).
  replace (RingBuffer.size (read_buffer c) =? 0) with false
    by (symmetry; apply Z.eqb_neq; lia).
  cbn [andb negb]. rewrite E. cbn [bind].
  assert (Hn : 0 <= n <= rem) by (unfold n; lia).
  pose proof (contents_zlen (read_buffer c) ltac:(lia)) as Hl.
  assert (Hlen : length (firstn (Z.to_nat n)
                           (RingBuffer.contents (read_buffer c)))
                 = Z.to_nat n).
  { rewrite length_firstn. unfold zlen in Hl. unfold n in *. lia. }
  rewrite firstn_app, Hlen, Nat.sub_diag, firstn_O, app_nil_r.
  rewrite firstn_all2 by lia.
  rewrite skipn_app, Hlen, Nat.sub_diag, skipn_O.
  rewrite skipn_all2 by lia. cbn [app].
  replace (size_sub rem n) with (rem - n)
    by (symmetry; unfold size_sub; apply size_wrap_id; lia).
  reflexivity.
Qed.

(** [conveyor_read] serves from the cache.  When the read ring holds at
    least [count] bytes, or the end of the store has been seen,
    [conveyor_read] returns at once, without a callback: it hands over
    the [min count size] oldest bytes of the ring, in order, at the start
    of the caller's buffer, returns their number - a short count, or 0,
    at the end of the store -, removes them from the ring and advances
    the logical offset by as much. *)
Theorem conveyor_read_returns_cached_bytes
        {Store : Type} (w : World Store) (buf : list byte) (count : Z) :
  read_buffer_enabled (impl w) = true ->
  read_worker_stop_flag (impl w) = false ->
  RingBuffer.wf (read_buffer (impl w)) ->
  0 <= count <= zlen buf ->
  count <= SIZE_MAX ->
  count <= RingBuffer.size (read_buffer (impl w))
  \/ read_eof_flag (impl w) = true ->
  let cached := RingBuffer.contents (read_buffer (impl w)) in
  let n := Z.min count (RingBuffer.size (read_buffer (impl w))) in
  exists w',
    conveyor_read Store w buf count = Some w' /\
    client w' = C_idle /\
    returns w'
    = returns w
      ++ [mk_ret n (firstn (Z.to_nat n) cached ++ skipn (Z.to_nat n) buf)] /\
    RingBuffer.contents (read_buffer (impl w')) = skipn (Z.to_nat n) cached /\
    current_file_offset (impl w')
    = (if n =? 0 then current_file_offset (impl w)
       else off_add (current_file_offset (impl w)) n) /\
    io_log w' = io_log w /\
    errno w' = errno w /\
    storage w' = storage w.
Proof.
  intros Hen Hstop Hwf Hcount Hmax Hcase cached n.
  pose proof Hwf as [_ Halloc Hsz _ _ _].
  unfold conveyor_read, conveyor_read_from. rewrite Hen. cbn [negb].
  destruct (Z.eq_dec count 0) as [Hz|Hnz].
  { assert (Hn0 : n = 0) by (unfold n; lia). rewrite Hn0. subst count.
    cbn [conveyor_read_loop Z.to_nat]. cbv beta zeta.
    cbn [Z.gtb Z.compare andb bind firstn skipn app Z.eqb].
    eexists. split; [reflexivity|]. cbn. repeat split. }
  destruct (Z.eq_dec (RingBuffer.size (read_buffer (impl w))) 0) as [He|Hne].
  { assert (Hn0 : n = 0) by (unfold n; lia). rewrite Hn0.
    destruct Hcase as [Hc|Heof]; [lia|].
    cbn [conveyor_read_loop]. cbv beta zeta.
    unfold RingBuffer.empty. rewrite Hstop, He, Heof.
    replace (count >? 0) with true by (symmetry; apply Z.gtb_lt; lia).
    cbn [andb negb Z.eqb bind firstn skipn app Z.to_nat].
    eexists. split; [reflexivity|]. cbn. repeat split. }
  destruct (conveyor_read_loop_body (S (Z.to_nat count)) (impl w) [] buf
              count 0 Hwf ltac:(lia) Hmax Hstop ltac:(lia))
    as (rb' & Hwf' & Hcap' & Hsz' & Hcont' & E).
  cbv zeta in Hsz', Hcont', E. fold n in Hsz', Hcont', E. fold cached in Hcont', E.
  rewrite E. clear E.
  assert (Hn : 1 <= n <= count) by (unfold n; lia).
  assert (Htot : off_add 0 n = n)
    by (unfold off_add; apply off_wrap_id; zbounds).
  rewrite Htot.
  replace (n =? 0) with false by (symmetry; apply Z.eqb_neq; lia).
  assert (Hdone :
            conveyor_read_loop (S (Z.to_nat count))
              (set_current_file_offset (set_read_buffer (impl w) rb')
                 (off_add (current_file_offset (impl w)) n))
              ([] ++ firstn (Z.to_nat n) cached) (skipn (Z.to_nat n) buf)
              (count - n) n false
            = Some (R_done
                      (set_current_file_offset (set_read_buffer (impl w) rb')
                         (off_add (current_file_offset (impl w)) n))
                      ([] ++ firstn (Z.to_nat n) cached)
                      (skipn (Z.to_nat n) buf) n)).
  { cbn [conveyor_read_loop]. cbv beta zeta.
    cbn [read_buffer set_current_file_offset set_read_buffer
         read_worker_stop_flag read_eof_flag].
    destruct (count - n >? 0) eqn:Erem; [|reflexivity].
    apply Z.gtb_lt in Erem.
    destruct Hcase as [Hc|Heof]; [unfold n in Erem; lia|].
    rewrite Hstop, Heof. unfold RingBuffer.empty.
    replace (RingBuffer.size rb' =? 0) with true
      by (symmetry; apply Z.eqb_eq; unfold n in *; lia).
    reflexivity. }
  rewrite Hdone. cbn [bind].
  eexists. split; [reflexivity|]. cbn. repeat split. exact Hcont'.
Qed.

Lemma conveyor_read_returns_cached_bytes_witness :
  exists w',
    conveyor_read Mock.t
      (with_impl Mock.t read_write_engine
         (set_read_buffer (impl read_write_engine) rb_wrapped))
      [chF; chF] 2 = Some w' /\
    returns w' = [mk_ret 2 [chA; chB]] /\
    RingBuffer.contents (read_buffer (impl w')) = [chC].
Proof.
  destruct (conveyor_read_returns_cached_bytes
              (with_impl Mock.t read_write_engine
                 (set_read_buffer (impl read_write_engine) rb_wrapped))
              [chF; chF] 2 eq_refl eq_refl rb_wrapped_wf)
    as (w' & E & _ & Hr & Hc & _).
  - unfold zlen. cbn. lia.
  - zbounds.
  - left. cbn. lia.
  - exists w'. split; [exact E|]. split; [exact Hr|exact Hc].
Defined.

(** [conveyor_read] parks for more.  When the read ring holds fewer
    bytes than asked for and the end of the store has not been seen,
    [conveyor_read] takes the bytes the ring holds, in order, raises
    [read_worker_needs_fill] and parks in its [wait] with the rest of the
    count still to read: it returns nothing yet and calls no callback
    itself. *)
Theorem conveyor_read_parks_for_more
        {Store : Type} (w : World Store) (buf : list byte) (count : Z) :
  read_buffer_enabled (impl w) = true ->
  read_worker_stop_flag (impl w) = false ->
  read_eof_flag (impl w) = false ->
  RingBuffer.wf (read_buffer (impl w)) ->
  RingBuffer.size (read_buffer (impl w)) < count <= zlen buf ->
  count <= SIZE_MAX ->
  let cached := RingBuffer.contents (read_buffer (impl w)) in
  let k := RingBuffer.size (read_buffer (impl w)) in
  exists w',
    conveyor_read Store w buf count = Some w' /\
    client w' = C_read_wait cached (skipn (Z.to_nat k) buf) (count - k) k /\
    read_worker_needs_fill (impl w') = true /\
    RingBuffer.contents (read_buffer (impl w')) = [] /\
    returns w' = returns w /\
    io_log w' = io_log w /\
    storage w' = storage w.
Proof.
  intros Hen Hstop Heof Hwf Hcount Hmax cached k.
  pose proof Hwf as [_ Halloc Hsz _ _ _].
  unfold conveyor_read, conveyor_read_from. rewrite Hen. cbn [negb].
  destruct (Z.eq_dec k 0) as [He|Hne].
  { unfold k in He. unfold cached, k. rewrite He.
    rewrite (contents_empty _ He).
    cbn [conveyor_read_loop]. cbv beta zeta.
    cbn [read_buffer set_read_worker_needs_fill read_eof_flag
         read_worker_stop_flag].
    unfold RingBuffer.empty, RingBuffer.available_data.
    rewrite Hstop, He, Heof.
    replace (count >? 0) with true by (symmetry; apply Z.gtb_lt; lia).
    cbn [andb negb orb Z.eqb Z.gtb Z.compare bind skipn Z.to_nat].
    rewrite Z.sub_0_r.
    eexists. split; [reflexivity|]. cbn. repeat split.
    apply contents_empty. exact He. }
  destruct (conveyor_read_loop_body (S (Z.to_nat count)) (impl w) [] buf
              count 0 Hwf ltac:(unfold k in *; lia) Hmax Hstop
              ltac:(unfold k in *; lia))
    as (rb' & Hwf' & Hcap' & Hsz' & Hcont' & E).
  cbv zeta in Hsz', Hcont', E.
  replace (Z.min count (RingBuffer.size (read_buffer (impl w)))) with k in *
    by (unfold k; lia).
  fold cached in Hcont', E. rewrite E. clear E.
  assert (Htot : off_add 0 k = k)
    by (unfold off_add; apply off_wrap_id; unfold k; zbounds).
  rewrite Htot.
  assert (Hall : firstn (Z.to_nat k) cached = cached).
  { apply firstn_all2. pose proof (contents_zlen _ (proj1 Hsz)) as Hl.
    unfold zlen in Hl. fold cached in Hl. unfold k. lia. }
  rewrite Hall. cbn [app].
  cbn [conveyor_read_loop]. cbv beta zeta.
  cbn [read_buffer set_current_file_offset set_read_buffer
       set_read_worker_needs_fill read_worker_stop_flag read_eof_flag].
  unfold RingBuffer.empty, RingBuffer.available_data.
  rewrite Hstop, Heof.
  replace (count - k >? 0) with true by (symmetry; apply Z.gtb_lt; lia).
  assert (Hz : RingBuffer.size rb' = 0) by (unfold k in *; lia).
  rewrite Hz.
  cbn [andb negb orb bind Z.eqb Z.gtb Z.compare].
  eexists. split; [reflexivity|]. cbn. repeat split.
  apply contents_empty. unfold k in *. lia.
Qed.

Lemma conveyor_read_parks_for_more_witness :
  exists w',
    conveyor_read Mock.t
      (with_impl Mock.t read_write_engine
         (set_read_buffer (impl read_write_engine) rb_wrapped))
      [chF; chF; chF; chF] 4 = Some w' /\
    client w' = C_read_wait [chA; chB; chC] [chF] 1 3.
Proof.
  destruct (conveyor_read_parks_for_more
              (with_impl Mock.t read_write_engine
                 (set_read_buffer (impl read_write_engine) rb_wrapped))
              [chF; chF; chF; chF] 4 eq_refl eq_refl eq_refl rb_wrapped_wf)
    as (w' & E & Hc & _).
  - unfold zlen. cbn. lia.
  - zbounds.
  - exists w'. split; [exact E|exact Hc].
Defined.

(* ------------------------------------------------------------------ *)
(** ** [readWorker]: one fill *)

(** One fill by readWorker, undisturbed.  From its [wait], with room in
    the read ring (a stale ring is emptied first), readWorker asks the
    [read] callback once, for exactly the free space of the ring -
    seeking the store to [current_pos_in_storage] first if that is not
    where the cache ends -, and then appends the bytes it was given to
    the ring and advances [current_pos_in_storage] by their number,
    raises [read_eof_flag] on a result of 0, and on a negative result
    does nothing at all: a failing [read] leaves no trace in the engine.
    In each case it lowers [read_worker_needs_fill] and goes back to its
    [wait]. *)
Theorem readWorker_fill_cycle
        {Store : Type} (ops : storage_operations_t.t Store) (w : World Store)
        (temp : list byte) :
  read_callback_in_bounds ops ->
  rworker w = RW_wait temp ->
  read_worker_stop_flag (impl w) = false ->
  RingBuffer.wf (read_buffer (impl w)) ->
  let cached := if read_buffer_stale (impl w) then []
                else RingBuffer.contents (read_buffer (impl w)) in
  let n := RingBuffer.capacity (read_buffer (impl w)) - zlen cached in
  0 < n ->
  exists w1 w2 w3 r,
    readWorker Store ops w = Some w1 /\
    readWorker Store ops w1 = Some w2 /\
    readWorker Store ops w2 = Some w3 /\
    r = fst (storage_operations_t.read ops (handle (impl w)) n (storage w1)) /\
    (current_pos_in_storage (impl w)
     = off_add (current_file_offset (impl w)) (zlen cached) ->
     io_log w1 = io_log w) /\
    io_log w3 = io_log w1 ++ [IoRead n (io_ret r)] /\
    RingBuffer.wf (read_buffer (impl w3)) /\
    RingBuffer.contents (read_buffer (impl w3))
    = cached ++ firstn (Z.to_nat (io_ret r)) (io_data r) /\
    read_eof_flag (impl w3) = read_eof_flag (impl w) || (io_ret r =? 0) /\
    current_pos_in_storage (impl w3)
    = (if io_ret r >? 0
       then off_add (current_pos_in_storage (impl w)) (io_ret r)
       else current_pos_in_storage (impl w)) /\
    read_worker_needs_fill (impl w3) = false /\
    read_buffer_stale (impl w3) = false /\
    (exists temp', rworker w3 = RW_wait temp') /\
    errno w3 = errno w /\
    returns w3 = returns w.
Proof.
  intros Hops Hpc Hstop Hwf cached n Hn.
  pose proof Hwf as [_ Halloc Hsz _ _ _].
  destruct (rb_clear_spec _ Hwf) as (Hclwf & Hclcap & Hclcont).
  (* the engine after the stale ring has been emptied *)
  set (c1 := if read_buffer_stale (impl w)
             then set_read_buffer_stale
                    (set_read_buffer (impl w)
                       (RingBuffer.clear (read_buffer (impl w)))) false
             else impl w).
  assert (Hc1 : RingBuffer.wf (read_buffer c1) /\
                RingBuffer.capacity (read_buffer c1)
                = RingBuffer.capacity (read_buffer (impl w)) /\
                RingBuffer.contents (read_buffer c1) = cached /\
                RingBuffer.size (read_buffer c1) = zlen cached /\
                read_worker_stop_flag c1 = false /\
                handle c1 = handle (impl w) /\
                current_pos_in_storage c1 = current_pos_in_storage (impl w) /\
                current_file_offset c1 = current_file_offset (impl w) /\
                read_eof_flag c1 = read_eof_flag (impl w) /\
                (read_buffer_stale (impl w) = false -> c1 = impl w) /\
                read_buffer_stale c1 = false).
  { unfold c1, cached. destruct (read_buffer_stale (impl w)) eqn:Est.
    - cbn. split; [exact Hclwf|]. split; [exact Hclcap|].
      split; [exact Hclcont|]. repeat split; try assumption. discriminate.
    - split; [exact Hwf|]. split; [reflexivity|]. split; [reflexivity|].
      split; [symmetry; apply contents_zlen; lia|].
      repeat split; assumption. }
  destruct Hc1 as (Hwf1 & Hcap1 & Hcont1 & Hsz1 & Hstop1 & Hh1 & Hpos1 & Hoff1
                   & Heof1 & Hsame1 & Hstale1).
  assert (Hspace : RingBuffer.available_space (read_buffer c1) = n).
  { rewrite (wf_available_space _ Hwf1). unfold n. lia. }
  assert (Hnb : n <= PTRDIFF_MAX /\
                n = RingBuffer.capacity (read_buffer c1)
                    - RingBuffer.size (read_buffer c1)).
  { pose proof Hwf1 as [_ ? ? _ _ _]. unfold n. lia. }
  destruct Hnb as [Hnmax Hndef].
  (* step 1: out of the wait *)
  set (w0 := if negb (current_pos_in_storage c1 =?
                      off_add (current_file_offset c1)
                              (RingBuffer.available_data (read_buffer c1)))
             then with_io Store w
                    (snd (storage_operations_t.lseek ops (handle c1)
                            (current_pos_in_storage c1) SEEK_SET (storage w)))
                    (IoLseek (current_pos_in_storage c1) SEEK_SET
                       (io_ret (fst (storage_operations_t.lseek ops (handle c1)
                                       (current_pos_in_storage c1) SEEK_SET
                                       (storage w)))))
             else w).
  set (w1 := with_rworker Store (with_impl Store w0 c1)
               (RW_io (vector_resize temp n) n)).
  assert (H1 : readWorker Store ops w = Some w1).
  { unfold readWorker. rewrite Hpc, Hstop. fold c1.
    assert (Hpred : (RingBuffer.available_space (read_buffer (impl w)) >? 0)
                    || read_buffer_stale (impl w) || false
                    || read_worker_needs_fill (impl w) = true).
    { destruct (read_buffer_stale (impl w)) eqn:Est.
      - rewrite orb_true_r. reflexivity.
      - rewrite (Hsame1 eq_refl) in Hspace. rewrite Hspace.
        replace (n >? 0) with true by (symmetry; apply Z.gtb_lt; lia).
        reflexivity. }
    rewrite Hpred, Hstop1, Hspace.
    replace (n >? 0) with true by (symmetry; apply Z.gtb_lt; lia).
    cbn [andb negb]. unfold w1, w0.
    destruct (negb _); [|reflexivity].
    destruct (storage_operations_t.lseek _ _ _ _ _) as [r0 st0].
    reflexivity. }
  assert (Hw0 : impl w1 = c1 /\ errno w1 = errno w /\ returns w1 = returns w).
  { unfold w1, w0. destruct (negb _); repeat split. }
  destruct Hw0 as (Himpl1 & Herr1 & Hret1).
  (* step 2: the callback *)
  pose proof (Hops (handle (impl w)) n (storage w1) ltac:(lia)) as Hcontract.
  cbv zeta in Hcontract.
  destruct (storage_operations_t.read ops (handle (impl w)) n (storage w1))
    as [r st2] eqn:Eread.
  cbn [fst] in Hcontract. destruct Hcontract as [Hret Hdata].
  set (filled := Z.to_nat (Z.max 0 (io_ret r))).
  set (temp' := firstn filled (io_data r)
                ++ skipn filled (vector_resize temp n)).
  set (w2 := with_rworker Store (with_io Store w1 st2 (IoRead n (io_ret r)))
               (RW_relock temp' (io_ret r))).
  assert (H2 : readWorker Store ops w1 = Some w2).
  { unfold readWorker. rewrite Himpl1.
    replace (rworker w1) with (RW_io (vector_resize temp n) n)
      by reflexivity.
    rewrite Hh1, Eread. reflexivity. }
  assert (Himpl2 : impl w2 = c1) by exact Himpl1.
  (* step 3: back under the lock *)
  assert (Htemp : zlen temp' = n).
  { unfold temp', filled. pose proof (zlen_nonneg (io_data r)).
    rewrite zlen_app, zlen_firstn, zlen_skipn;
      rewrite ?zlen_vector_resize; lia. }
  assert (H3 : exists c3,
             (if io_ret r >? 0
              then '(_, rb) <- RingBuffer.write (read_buffer c1) temp'
                                                (io_ret r) ;;
                   Some (set_current_pos_in_storage (set_read_buffer c1 rb)
                           (off_add (current_pos_in_storage c1) (io_ret r)))
              else if io_ret r =? 0
                   then Some (set_read_eof_flag c1 true)
                   else Some c1) = Some c3 /\
             RingBuffer.wf (read_buffer c3) /\
             RingBuffer.contents (read_buffer c3)
             = cached ++ firstn (Z.to_nat (io_ret r)) (io_data r) /\
             read_eof_flag c3 = read_eof_flag (impl w) || (io_ret r =? 0) /\
             current_pos_in_storage c3
             = (if io_ret r >? 0
                then off_add (current_pos_in_storage (impl w)) (io_ret r)
                else current_pos_in_storage (impl w)) /\
             read_buffer_stale c3 = false).
  { destruct (io_ret r >? 0) eqn:Epos.
    - apply Z.gtb_lt in Epos.
      destruct (rb_write_spec (read_buffer c1) temp' (io_ret r) Hwf1)
        as (rb' & E & Hwf' & _ & _ & _ & Hcont'); [zbounds|lia|].
      cbv zeta in E, Hcont'.
      replace (Z.min (io_ret r)
                 (RingBuffer.capacity (read_buffer c1)
                  - RingBuffer.size (read_buffer c1)))
        with (io_ret r) in * by lia.
      rewrite E. cbn [bind]. eexists. split; [reflexivity|].
      cbn [read_buffer set_current_pos_in_storage set_read_buffer
           read_eof_flag current_pos_in_storage read_buffer_stale].
      split; [exact Hwf'|]. split.
      { rewrite Hcont', Hcont1. f_equal. unfold temp', filled.
        rewrite Z.max_r by lia. rewrite firstn_app, firstn_firstn, Nat.min_id.
        rewrite length_firstn.
        replace (Z.to_nat (io_ret r)
                 - Nat.min (Z.to_nat (io_ret r)) (length (io_data r)))%nat
          with 0%nat by (unfold zlen in Hdata; lia).
        cbn [firstn]. apply app_nil_r. }
      split.
      { rewrite Heof1. replace (io_ret r =? 0) with false
          by (symmetry; apply Z.eqb_neq; lia).
        symmetry. apply orb_false_r. }
      split; [rewrite Hpos1; reflexivity|exact Hstale1].
    - apply Z.gtb_ltb, Z.ltb_ge in Epos || idtac.
      destruct (io_ret r =? 0) eqn:Ez.
      + eexists. split; [reflexivity|]. cbn.
        split; [exact Hwf1|]. split.
        { apply Z.eqb_eq in Ez. rewrite Ez. cbn. rewrite app_nil_r.
          exact Hcont1. }
        split; [symmetry; apply orb_true_r|].
        split; [exact Hpos1|exact Hstale1].
      + eexists. split; [reflexivity|].
        split; [exact Hwf1|]. split.
        { assert (Hneg : io_ret r < 0).
          { apply Z.eqb_neq in Ez.
            destruct (Z.gtb_spec (io_ret r) 0); [discriminate|lia]. }
          replace (Z.to_nat (io_ret r)) with 0%nat by lia.
          cbn. rewrite app_nil_r. exact Hcont1. }
        split; [rewrite orb_false_r; exact Heof1|].
        split; [exact Hpos1|exact Hstale1]. }
  destruct H3 as (c3 & E3 & Hwf3 & Hcont3 & Heof3 & Hpos3 & Hstale3).
  set (c4 := if read_worker_needs_fill c3
             then set_read_worker_needs_fill c3 false else c3).
  set (w3 := with_rworker Store (with_impl Store w2 c4) (RW_wait temp')).
  assert (H3 : readWorker Store ops w2 = Some w3).
  { unfold readWorker. rewrite Himpl2.
    replace (rworker w2) with (RW_relock temp' (io_ret r)) by reflexivity.
    rewrite E3. reflexivity. }
  assert (Hc4 : read_buffer c4 = read_buffer c3 /\
                read_eof_flag c4 = read_eof_flag c3 /\
                current_pos_in_storage c4 = current_pos_in_storage c3 /\
                read_buffer_stale c4 = read_buffer_stale c3 /\
                read_worker_needs_fill c4 = false).
  { unfold c4. destruct (read_worker_needs_fill c3) eqn:Ef;
      repeat split; exact Ef. }
  destruct Hc4 as (Hb4 & He4 & Hp4 & Hs4 & Hf4).
  exists w1, w2, w3, r.
  split; [exact H1|]. split; [exact H2|]. split; [exact H3|].
  split; [rewrite Eread; reflexivity|].
  split.
  { intros Heq. unfold w1, w0. rewrite Hpos1, Hoff1.
    unfold RingBuffer.available_data. rewrite Hsz1, Heq, Z.eqb_refl.
    reflexivity. }
  split; [reflexivity|].
  cbn [impl w3 with_rworker with_impl].
  change (impl w3) with c4. rewrite Hb4, He4, Hp4, Hs4.
  split; [exact Hwf3|]. split; [exact Hcont3|]. split; [exact Heof3|].
  split; [exact Hpos3|]. split; [exact Hf4|]. split; [exact Hstale3|].
  split; [exists temp'; reflexivity|].
  split; [exact Herr1|exact Hret1].
Qed.

Lemma readWorker_fill_cycle_witness :
  exists w1 w2 w3,
    readWorker Mock.t
      (storage_operations_t.mk Mock.t Mock.mock_write
         (fun _ _ st => (mk_io (-1) (Some EIO) [], st)) Mock.mock_lseek)
      read_write_engine = Some w1 /\
    readWorker Mock.t
      (storage_operations_t.mk Mock.t Mock.mock_write
         (fun _ _ st => (mk_io (-1) (Some EIO) [], st)) Mock.mock_lseek)
      w1 = Some w2 /\
    readWorker Mock.t
      (storage_operations_t.mk Mock.t Mock.mock_write
         (fun _ _ st => (mk_io (-1) (Some EIO) [], st)) Mock.mock_lseek)
      w2 = Some w3 /\
    RingBuffer.contents (read_buffer (impl w3)) = [] /\
    read_eof_flag (impl w3) = false /\
    errno w3 = 0.
Proof.
  destruct (readWorker_fill_cycle
              (storage_operations_t.mk Mock.t Mock.mock_write
                 (fun _ _ st => (mk_io (-1) (Some EIO) [], st))
                 Mock.mock_lseek)
              read_write_engine [])
    as (w1 & w2 & w3 & r & H1 & H2 & H3 & Hr & _ & _ & _ & Hcont & Heof & _
        & _ & _ & _ & Herr & _).
  - intros h count st Hc. cbn. unfold zlen. cbn. lia.
  - reflexivity.
  - reflexivity.
  - apply (proj1 (make_wf 8 ltac:(zbounds))).
  - cbn. lia.
  - subst r. exists w1, w2, w3.
    split; [exact H1|]. split; [exact H2|]. split; [exact H3|].
    split; [exact Hcont|]. split; [exact Heof|exact Herr].
Defined.

(* ------------------------------------------------------------------ *)
(** ** [conveyor_lseek], then [conveyor_read] *)



(* ------------------------------------------------------------------ *)
(** ** A blocking [conveyor_write], across its waits *)

Lemma firstn_plus (l : list byte) (a b : nat) :
  firstn (a + b) l = firstn a l ++ firstn b (skipn a l).
Proof.
  revert l. induction a as [|a IH]; intros l; [reflexivity|].
  destruct l as [|x l]; [cbn; now rewrite firstn_nil|].
  cbn. now rewrite IH.
Qed.

Lemma conveyor_write_loop_appends (fuel : nat) :
  forall c cur rem wr r,
    RingBuffer.wf (write_buffer c) ->
    write_worker_stop_flag c = false ->
    0 <= rem <= zlen cur -> 0 <= wr -> wr + rem <= PTRDIFF_MAX ->
    conveyor_write_loop fuel c cur rem wr = Some r ->
    exists c' k,
      0 <= k <= rem /\
      RingBuffer.wf (write_buffer c') /\
      write_worker_stop_flag c' = false /\
      RingBuffer.contents (write_buffer c')
      = RingBuffer.contents (write_buffer c) ++ firstn (Z.to_nat k) cur /\
      ((r = W_done c' (wr + k) /\ k = rem) \/
       (r = W_blocked c' (skipn (Z.to_nat k) cur) (rem - k) (wr + k) /\
        k < rem)).
Proof.
  induction fuel as [|fuel IH]; intros c cur rem wr r Hwf Hstop Hrem Hwr Hmax H;
    cbn [conveyor_write_loop] in H; rewrite Hstop in H;
    cbn [negb] in H; rewrite andb_true_r, orb_false_r in H.
  - destruct (rem >? 0) eqn:Epos.
    + destruct (RingBuffer.available_space (write_buffer c) >? 0);
        [discriminate|]. injection H as <-.
      apply Z.gtb_lt in Epos.
      exists c, 0. rewrite Z.add_0_r, Z.sub_0_r. cbn. rewrite app_nil_r.
      split; [lia|]. split; [exact Hwf|]. split; [exact Hstop|].
      split; [reflexivity|]. right. split; [reflexivity|lia].
    + injection H as <-.
      assert (rem = 0) by (destruct (Z.gtb_spec rem 0); [discriminate|lia]).
      subst rem. exists c, 0. rewrite Z.add_0_r. cbn. rewrite app_nil_r.
      split; [lia|]. split; [exact Hwf|]. split; [exact Hstop|].
      split; [reflexivity|]. left. split; reflexivity.
  - destruct (rem >? 0) eqn:Epos.
    + apply Z.gtb_lt in Epos.
      destruct (RingBuffer.available_space (write_buffer c) >? 0) eqn:Espace.
      * apply Z.gtb_lt in Espace.
        rewrite (wf_available_space _ Hwf) in Espace.
        destruct (rb_write_spec (write_buffer c) cur rem Hwf)
          as (rb' & E & Hwf' & _ & _ & _ & Hcont'); [zbounds|lia|].
        cbv zeta in E, Hcont'.
        set (n := Z.min rem (RingBuffer.capacity (write_buffer c)
                             - RingBuffer.size (write_buffer c))) in *.
        assert (Hn : 1 <= n <= rem) by (unfold n; lia).
        rewrite E in H. cbn [bind] in H.
        replace (size_sub rem n) with (rem - n) in H
          by (symmetry; unfold size_sub; apply size_wrap_id; zbounds).
        replace (off_add wr n) with (wr + n) in H
          by (symmetry; unfold off_add; apply off_wrap_id; zbounds).
        apply IH in H; [|exact Hwf'|exact Hstop
                        |rewrite zlen_skipn by lia; lia|lia|lia].
        destruct H as (c' & k & Hk & Hwf2 & Hstop2 & Hcont2 & Hres).
        exists c', (n + k).
        split; [lia|]. split; [exact Hwf2|]. split; [exact Hstop2|].
        split.
        { rewrite Hcont2. cbn [write_buffer set_current_file_offset
                               set_write_buffer].
          rewrite Hcont', <- app_assoc. f_equal.
          rewrite Z2Nat.inj_add by lia. symmetry. apply firstn_plus. }
        destruct Hres as [[-> Hkr]|[-> Hkr]].
        -- left. split; [f_equal; lia|lia].
        -- right. split; [|lia].
           rewrite skipn_skipn.
           replace (Z.to_nat k + Z.to_nat n)%nat with (Z.to_nat (n + k))
             by lia.
           f_equal; lia.
      * injection H as <-.
        exists c, 0. rewrite Z.add_0_r, Z.sub_0_r. cbn. rewrite app_nil_r.
        split; [lia|]. split; [exact Hwf|]. split; [exact Hstop|].
        split; [reflexivity|]. right. split; [reflexivity|lia].
    + injection H as <-.
      assert (rem = 0) by (destruct (Z.gtb_spec rem 0); [discriminate|lia]).
      subst rem. exists c, 0. rewrite Z.add_0_r. cbn. rewrite app_nil_r.
      split; [lia|]. split; [exact Hwf|]. split; [exact Hstop|].
      split; [reflexivity|]. left. split; reflexivity.
Qed.

Lemma conveyor_write_from_streams {Store : Type}
      (w w' : World Store) (cur : list byte) (rem wr : Z) :
  RingBuffer.wf (write_buffer (impl w)) ->
  write_worker_stop_flag (impl w) = false ->
  0 <= rem <= zlen cur -> 0 <= wr -> wr + rem <= PTRDIFF_MAX ->
  conveyor_write_from Store w cur rem wr = Some w' ->
  exists k,
    0 <= k <= rem /\
    RingBuffer.wf (write_buffer (impl w')) /\
    write_worker_stop_flag (impl w') = false /\
    wworker w' = wworker w /\
    io_log w' = io_log w /\
    RingBuffer.contents (write_buffer (impl w'))
    = RingBuffer.contents (write_buffer (impl w)) ++ firstn (Z.to_nat k) cur /\
    ((client w' = C_idle /\ k = rem /\
      returns w' = returns w ++ [mk_ret (wr + rem) []]) \/
     (client w' = C_write_wait (skipn (Z.to_nat k) cur) (rem - k) (wr + k) /\
      k < rem /\ returns w' = returns w)).
Proof.
  intros Hwf Hstop Hrem Hwr Hmax H.
  unfold conveyor_write_from, bind in H.
  destruct (conveyor_write_loop _ _ _ _ _) as [r|] eqn:E; [|discriminate].
  apply conveyor_write_loop_appends in E; try assumption.
  destruct E as (c' & k & Hk & Hwf' & Hstop' & Hcont' & Hres).
  exists k. split; [exact Hk|].
  destruct Hres as [[-> Hkr]|[-> Hkr]]; injection H as <-;
    cbn [impl wworker io_log client returns returning with_impl with_client].
  - assert (Hc1 : forall b : bool,
               write_buffer
                 (if b
                  then set_read_buffer_stale
                         (set_read_buffer c' (RingBuffer.clear (read_buffer c')))
                         true
                  else c') = write_buffer c' /\
               write_worker_stop_flag
                 (if b
                  then set_read_buffer_stale
                         (set_read_buffer c' (RingBuffer.clear (read_buffer c')))
                         true
                  else c') = write_worker_stop_flag c')
      by (intros []; split; reflexivity).
    destruct (Hc1 (read_buffer_enabled c'
                   && negb (Z.land (flags c') O_RDWR =? 0))) as [-> ->].
    split; [exact Hwf'|]. split; [exact Hstop'|].
    split; [reflexivity|]. split; [reflexivity|]. split; [exact Hcont'|].
    left. subst k. repeat split.
  - split; [exact Hwf'|]. split; [exact Hstop'|].
    split; [reflexivity|]. split; [reflexivity|]. split; [exact Hcont'|].
    right. repeat split. exact Hkr.
Qed.

Lemma writeWorker_leaves_client {Store : Type}
      (ops : storage_operations_t.t Store) (w w' : World Store) :
  writeWorker Store ops w = Some w' ->
  client w' = client w /\ returns w' = returns w /\
  write_worker_stop_flag (impl w') = write_worker_stop_flag (impl w).
Proof.
  unfold writeWorker, bind. intros H.
  destruct (wworker w) as [|temp|temp n|temp r|]; try discriminate.
  - repeat break_in H; try discriminate; injection H as <-; subst;
      repeat split.
  - destruct (negb _).
    + destruct (storage_operations_t.lseek _ _ _ _ _) as [r0 st0].
      cbn in H. destruct (storage_operations_t.write _ _ _ _ _) as [r st].
      injection H as <-. repeat split.
    + destruct (storage_operations_t.write _ _ _ _ _) as [r st].
      injection H as <-. repeat split.
  - injection H as <-. cbn. destruct (r >? 0); repeat split.
Qed.

Lemma readWorker_leaves_client {Store : Type}
      (ops : storage_operations_t.t Store) (w w' : World Store) :
  readWorker Store ops w = Some w' ->
  client w' = client w /\ returns w' = returns w /\
  write_worker_stop_flag (impl w') = write_worker_stop_flag (impl w).
Proof.
  unfold readWorker, bind. intros H.
  destruct (rworker w) as [|temp|temp n|temp r|]; try discriminate.
  - destruct (_ || _); [|discriminate].
    destruct (read_worker_stop_flag (impl w)).
    { injection H as <-. repeat split. }
    set (c1 := if read_buffer_stale (impl w) then _ else impl w) in H.
    assert (Hc1 : write_worker_stop_flag c1
                  = write_worker_stop_flag (impl w))
      by (subst c1; destruct (read_buffer_stale _); reflexivity).
    destruct (_ && _).
    + destruct (negb _).
      * destruct (storage_operations_t.lseek _ _ _ _ _) as [r0 st0].
        injection H as <-. cbn. repeat split. exact Hc1.
      * injection H as <-. cbn. repeat split. exact Hc1.
    + injection H as <-. cbn. repeat split.
      destruct (read_worker_needs_fill c1); exact Hc1.
  - destruct (storage_operations_t.read _ _ _ _) as [r st].
    injection H as <-. repeat split.
  - destruct (if r >? 0 then _ else _) as [c1|] eqn:E1; [|discriminate].
    cbn in H. injection H as <-.
    assert (Hc1 : write_worker_stop_flag c1
                  = write_worker_stop_flag (impl w)).
    { repeat break_in E1; try discriminate; injection E1 as <-;
        reflexivity. }
    cbn. repeat split. destruct (read_worker_needs_fill c1); exact Hc1.
Qed.

(** A blocking [conveyor_write] streams its buffer.  On a write-enabled
    engine that is not shutting down, consider a call of
    [conveyor_write(buf, count)], of any size, followed by any
    interleaving of the two workers with the wake-ups of the caller.  At
    every moment the bytes handed to the [write] callback followed by
    the pending bytes are what they were at the call followed by a prefix
    of [buf]: nothing is lost, repeated or reordered.  While the call is
    parked that prefix is what it has accepted so far and it holds the
    rest; once it has returned, it has returned [count] and the prefix is
    the whole of [buf]. *)
Theorem conveyor_write_streams_whole_buffer
        {Store : Type} (ops : storage_operations_t.t Store)
        (w w' : World Store) (buf : list byte) (count : Z)
        (rest : list action) :
  write_buffer_enabled (impl w) = true ->
  write_worker_stop_flag (impl w) = false ->
  RingBuffer.wf (write_buffer (impl w)) ->
  client w = C_idle ->
  0 <= count <= zlen buf ->
  count <= PTRDIFF_MAX ->
  Forall no_new_call rest ->
  run Store ops w (Client (Call_write buf count) :: rest) = Some w' ->
  exists k,
    0 <= k <= count /\
    delivered (io_log w') ++ pending w'
    = delivered (io_log w) ++ pending w ++ firstn (Z.to_nat k) buf /\
    ((client w' = C_idle /\ k = count /\
      returns w' = returns w ++ [mk_ret count []]) \/
     (client w' = C_write_wait (skipn (Z.to_nat k) buf) (count - k) k /\
      k < count /\ returns w' = returns w)).
Proof.
  intros Hen Hstop Hwf Hidle Hcount Hmax Hrest Hrun.
  set (L := delivered (io_log w) ++ pending w).
  set (Inv := fun v : World Store =>
                RingBuffer.wf (write_buffer (impl v)) /\
                write_worker_stop_flag (impl v) = false /\
                exists k,
                  0 <= k <= count /\
                  delivered (io_log v) ++ pending v
                  = L ++ firstn (Z.to_nat k) buf /\
                  ((client v = C_idle /\ k = count /\
                    returns v = returns w ++ [mk_ret count []]) \/
                   (client v
                    = C_write_wait (skipn (Z.to_nat k) buf) (count - k) k /\
                    k < count /\ returns v = returns w))).
  cbn [run] in Hrun. unfold bind in Hrun.
  destruct (step Store ops w (Client (Call_write buf count))) as [w1|] eqn:E1;
    [|discriminate].
  assert (H1 : Inv w1).
  { unfold step in E1. rewrite Hidle in E1. unfold conveyor_write in E1.
    rewrite Hen in E1. cbn [negb] in E1.
    apply conveyor_write_from_streams in E1; try assumption; try lia.
    destruct E1 as (k & Hk & Hwf1 & Hstop1 & Hww & Hlog & Hcont & Hres).
    split; [exact Hwf1|]. split; [exact Hstop1|].
    exists k. split; [exact Hk|]. split.
    - unfold L, pending. rewrite Hlog, Hww, Hcont.
      rewrite <- !app_assoc. reflexivity.
    - rewrite Z.add_0_l in Hres. rewrite Z.add_0_l in Hres. exact Hres. }
  clear E1.
  assert (Hstep : forall v a v',
             Inv v -> no_new_call a -> step Store ops v a = Some v' -> Inv v').
  { clear Hrun H1 Hrest. intros v a v' (Hwfv & Hstopv & k & Hk & HL & Hcl) Ha Hs.
    destruct a as [c| | |]; [contradiction| | |].
    - (* the parked call resumes *)
      unfold step in Hs.
      destruct Hcl as [(Hc & _ & _)|(Hc & Hlt & Hret)];
        rewrite Hc in Hs; [discriminate|].
      destruct (_ || _); [|discriminate].
      apply conveyor_write_from_streams in Hs; try assumption;
        try (rewrite zlen_skipn by lia); try lia.
      destruct Hs as (k2 & Hk2 & Hwf2 & Hstop2 & Hww & Hlog & Hcont & Hres).
      split; [exact Hwf2|]. split; [exact Hstop2|].
      exists (k + k2). split; [lia|]. split.
      + unfold pending in *. rewrite Hlog, Hww, Hcont.
        rewrite Z2Nat.inj_add by lia. rewrite firstn_plus.
        rewrite (app_assoc L), <- HL. rewrite <- !app_assoc. reflexivity.
      + destruct Hres as [(Hc2 & Hk2r & Hret2)|(Hc2 & Hk2r & Hret2)].
        * left. split; [exact Hc2|]. split; [lia|].
          rewrite Hret2, Hret. repeat f_equal. lia.
        * right. split; [|split; [lia|congruence]].
          rewrite Hc2, skipn_skipn.
          replace (Z.to_nat k2 + Z.to_nat k)%nat with (Z.to_nat (k + k2))
            by lia.
          f_equal; lia.
    - assert (Hs' : writeWorker Store ops v = Some v')
        by (unfold step in Hs; destruct (client v); exact Hs).
      destruct (writeWorker_keeps_pending ops v v' Hwfv Hs')
        as (Hwf2 & HL2 & _).
      destruct (writeWorker_leaves_client ops v v' Hs') as (Hc2 & Hr2 & Hst2).
      split; [exact Hwf2|]. split; [congruence|].
      exists k. split; [exact Hk|]. split; [congruence|].
      rewrite Hc2, Hr2. exact Hcl.
    - assert (Hs' : readWorker Store ops v = Some v')
        by (unfold step in Hs; destruct (client v); exact Hs).
      destruct (readWorker_leaves_write_side ops v v' Hs') as (Hb & Hw2 & Hd).
      destruct (readWorker_leaves_client ops v v' Hs') as (Hc2 & Hr2 & Hst2).
      split; [rewrite Hb; exact Hwfv|]. split; [congruence|].
      exists k. split; [exact Hk|]. split.
      + unfold pending in *. rewrite Hd, Hw2, Hb. exact HL.
      + rewrite Hc2, Hr2. exact Hcl. }
  assert (Hall : Inv w').
  { revert w1 H1 Hrun. induction Hrest as [|a rest' Ha _ IH]; intros w1 H1 Hrun.
    - injection Hrun as <-. exact H1.
    - cbn [run] in Hrun. unfold bind in Hrun.
      destruct (step Store ops w1 a) as [w2|] eqn:E; [|discriminate].
      apply (IH w2); [|exact Hrun].
      eapply Hstep; [exact H1|exact Ha|exact E]. }
  destruct Hall as (_ & _ & k & Hk & HL & Hcl).
  exists k. split; [exact Hk|]. split; [|exact Hcl].
  rewrite HL. unfold L. rewrite <- app_assoc. reflexivity.
Qed.

Lemma conveyor_write_streams_whole_buffer_witness :
  exists w',
    run Mock.t Mock.mock_ops small_engine
        [Client (Call_write [chA; chB; chC; chD; chE; chF] 6);
         WriteWorker; WriteWorker; WriteWorker; Wake] = Some w' /\
    client w' = C_idle /\
    delivered (io_log w') ++ pending w' = [chA; chB; chC; chD; chE; chF].
Proof.
  eexists. split; [vm_compute; reflexivity|].
  split; [reflexivity|].
  match goal with
  | |- delivered (io_log ?v) ++ _ = _ =>
      destruct (conveyor_write_streams_whole_buffer Mock.mock_ops
                  small_engine v [chA; chB; chC; chD; chE; chF] 6
                  [WriteWorker; WriteWorker; WriteWorker; Wake]
                  eq_refl eq_refl (proj1 (make_wf 4 ltac:(zbounds))) eq_refl)
        as (k & Hk & HL & [(_ & -> & _)|(Hc & _)])
  end.
  - unfold zlen. cbn. lia.
  - zbounds.
  - repeat constructor.
  - vm_compute. reflexivity.
  - exact HL.
  - discriminate Hc.
Defined.

(* ------------------------------------------------------------------ *)
(** ** [conveyor_flush], across its wait *)

(** writeWorker only ever takes bytes out of the write ring. *)
Lemma writeWorker_never_fills {Store : Type}
      (ops : storage_operations_t.t Store) (w w' : World Store) :
  RingBuffer.wf (write_buffer (impl w)) ->
  writeWorker Store ops w = Some w' ->
  RingBuffer.contents (write_buffer (impl w')) = [] \/
  write_buffer (impl w') = write_buffer (impl w).
Proof.
  intros Hwf H. unfold writeWorker, bind in H.
  destruct (wworker w) as [|temp|temp n|temp r|]; try discriminate.
  - destruct (_ || _); [|discriminate].
    destruct (_ && _); [injection H as <-; right; reflexivity|].
    unfold RingBuffer.available_data in H.
    set (n := RingBuffer.size (write_buffer (impl w))) in *.
    assert (Hn : 0 <= n <= SIZE_MAX).
    { pose proof Hwf as [_ ? ? _ _ _]. unfold n. zbounds. }
    destruct (n >? 0) eqn:En.
    + destruct (rb_read_spec (write_buffer (impl w)) (vector_resize temp n)
                  n Hwf Hn)
        as (rb' & E & _ & _ & _ & Hsz' & _);
        [rewrite zlen_vector_resize by lia; fold n; lia|].
      cbv zeta in E, Hsz'. fold n in E, Hsz'. rewrite Z.min_id in E, Hsz'.
      rewrite E in H. cbn [bind] in H. injection H as <-. left.
      cbn [impl with_wworker with_impl].
      destruct (write_buffer_needs_flush (impl w));
        cbn [write_buffer set_write_buffer set_write_buffer_needs_flush];
        apply contents_empty; lia.
    + cbn [bind] in H. injection H as <-. right.
      cbn [impl with_wworker with_impl].
      destruct (write_buffer_needs_flush (impl w)); reflexivity.
  - destruct (negb _).
    + destruct (storage_operations_t.lseek _ _ _ _ _) as [r0 st0].
      cbn in H. destruct (storage_operations_t.write _ _ _ _ _) as [r st].
      injection H as <-. right. reflexivity.
    + destruct (storage_operations_t.write _ _ _ _ _) as [r st].
      injection H as <-. right. reflexivity.
  - injection H as <-. right. cbn. destruct (r >? 0); reflexivity.
Qed.

(** What [conveyor_flush] guarantees.  On a write-enabled engine that is
    not shutting down, after a call of [conveyor_flush], under every
    interleaving of the two workers with the wake-up of the caller, no
    byte is lost or reordered, and once the call has returned - with 0 -
    the write ring is empty: every byte that was pending at the call has
    been handed to the [write] callback or is in the private vector of
    writeWorker, about to be. *)
Theorem conveyor_flush_returns_with_ring_drained
        {Store : Type} (ops : storage_operations_t.t Store)
        (w w' : World Store) (rest : list action) :
  write_buffer_enabled (impl w) = true ->
  write_worker_stop_flag (impl w) = false ->
  RingBuffer.wf (write_buffer (impl w)) ->
  client w = C_idle ->
  Forall no_new_call rest ->
  run Store ops w (Client Call_flush :: rest) = Some w' ->
  delivered (io_log w') ++ pending w' = delivered (io_log w) ++ pending w /\
  ((client w' = C_idle /\
    returns w' = returns w ++ [mk_ret 0 []] /\
    RingBuffer.contents (write_buffer (impl w')) = []) \/
   (client w' = C_flush_wait /\ returns w' = returns w)).
Proof.
  intros Hen Hstop Hwf Hidle Hrest Hrun.
  set (L := delivered (io_log w) ++ pending w).
  set (Inv := fun v : World Store =>
                RingBuffer.wf (write_buffer (impl v)) /\
                write_worker_stop_flag (impl v) = false /\
                delivered (io_log v) ++ pending v = L /\
                ((client v = C_idle /\
                  returns v = returns w ++ [mk_ret 0 []] /\
                  RingBuffer.contents (write_buffer (impl v)) = []) \/
                 (client v = C_flush_wait /\ returns v = returns w))).
  cbn [run] in Hrun. unfold bind in Hrun.
  destruct (step Store ops w (Client Call_flush)) as [w1|] eqn:E1;
    [|discriminate].
  assert (H1 : Inv w1).
  { unfold step in E1. rewrite Hidle in E1. injection E1 as <-.
    pose proof Hwf as [_ _ Hsz _ _ _].
    unfold conveyor_flush, conveyor_flush_wake. rewrite Hen. cbn [negb].
    unfold RingBuffer.available_data, RingBuffer.empty.
    cbn [impl with_impl write_buffer set_write_buffer_needs_flush
         write_worker_stop_flag].
    rewrite Hstop, orb_false_r.
    destruct (RingBuffer.size (write_buffer (impl w)) >? 0) eqn:Epos.
    - apply Z.gtb_lt in Epos.
      replace (RingBuffer.size (write_buffer (impl w)) =? 0) with false
        by (symmetry; apply Z.eqb_neq; lia).
      split; [exact Hwf|]. split; [exact Hstop|].
      split; [reflexivity|]. right. split; reflexivity.
    - split; [exact Hwf|]. split; [exact Hstop|].
      split; [reflexivity|]. left. split; [reflexivity|].
      split; [reflexivity|]. apply contents_empty.
      cbn [impl returning with_impl write_buffer
           set_write_buffer_needs_flush].
      destruct (Z.gtb_spec (RingBuffer.size (write_buffer (impl w))) 0);
        [discriminate|lia]. }
  clear E1.
  assert (Hstep : forall v a v',
             Inv v -> no_new_call a -> step Store ops v a = Some v' -> Inv v').
  { clear Hrun H1 Hrest. intros v a v' (Hwfv & Hstopv & HL & Hcl) Ha Hs.
    destruct a as [c| | |]; [contradiction| | |].
    - unfold step in Hs.
      destruct Hcl as [(Hc & _ & _)|(Hc & Hret)];
        rewrite Hc in Hs; [discriminate|].
      unfold conveyor_flush_wake in Hs. rewrite Hstopv, orb_false_r in Hs.
      destruct (RingBuffer.empty (write_buffer (impl v))) eqn:Ee;
        [|discriminate].
      injection Hs as <-. split; [exact Hwfv|]. split; [exact Hstopv|].
      split; [exact HL|]. left. split; [reflexivity|].
      split; [cbn; congruence|]. cbn. apply contents_empty.
      apply Z.eqb_eq in Ee. exact Ee.
    - assert (Hs' : writeWorker Store ops v = Some v')
        by (unfold step in Hs; destruct (client v); exact Hs).
      destruct (writeWorker_keeps_pending ops v v' Hwfv Hs')
        as (Hwf2 & HL2 & _).
      destruct (writeWorker_leaves_client ops v v' Hs') as (Hc2 & Hr2 & Hst2).
      pose proof (writeWorker_never_fills ops v v' Hwfv Hs') as Hfill.
      split; [exact Hwf2|]. split; [congruence|].
      split; [congruence|]. rewrite Hc2, Hr2.
      destruct Hcl as [(Hc & Hret & Hempty)|Hparked]; [left|right; exact Hparked].
      split; [exact Hc|]. split; [exact Hret|].
      destruct Hfill as [Hnil|Hsame]; [exact Hnil|congruence].
    - assert (Hs' : readWorker Store ops v = Some v')
        by (unfold step in Hs; destruct (client v); exact Hs).
      destruct (readWorker_leaves_write_side ops v v' Hs') as (Hb & Hw2 & Hd).
      destruct (readWorker_leaves_client ops v v' Hs') as (Hc2 & Hr2 & Hst2).
      split; [rewrite Hb; exact Hwfv|]. split; [congruence|].
      split; [unfold pending in *; rewrite Hd, Hw2, Hb; exact HL|].
      rewrite Hc2, Hr2, Hb. exact Hcl. }
  assert (Hall : Inv w').
  { revert w1 H1 Hrun. induction Hrest as [|a rest' Ha _ IH]; intros w1 H1 Hrun.
    - injection Hrun as <-. exact H1.
    - cbn [run] in Hrun. unfold bind in Hrun.
      destruct (step Store ops w1 a) as [w2|] eqn:E; [|discriminate].
      apply (IH w2); [|exact Hrun].
      eapply Hstep; [exact H1|exact Ha|exact E]. }
  destruct Hall as (_ & _ & HL & Hcl). split; [exact HL|exact Hcl].
Qed.

Lemma conveyor_flush_returns_with_ring_drained_witness :
  exists w w',
    run Mock.t Mock.mock_ops write_only_engine
        [Client (Call_write [chA; chB] 2)] = Some w /\
    run Mock.t Mock.mock_ops w [Client Call_flush; WriteWorker; Wake]
    = Some w' /\
    delivered (io_log w') ++ pending w'
    = delivered (io_log w) ++ pending w /\
    pending w = [chA; chB] /\
    delivered (io_log w') = [].
Proof.
  eexists. eexists. split; [vm_compute; reflexivity|].
  split; [vm_compute; reflexivity|].
  split; [|split; reflexivity].
  refine (proj1 (conveyor_flush_returns_with_ring_drained Mock.mock_ops
                   _ _ [WriteWorker; Wake] _ _ _ _ _ _)).
  - reflexivity.
  - reflexivity.
  - constructor; cbn; try reflexivity; zbounds.
  - reflexivity.
  - repeat constructor.
  - vm_compute. reflexivity.
Defined.

(* ------------------------------------------------------------------ *)
(** ** The write path, down to the mock store of the tests *)







(* ------------------------------------------------------------------ *)
(** ** [conveyor_destroy] never deadlocks *)






Lemma engine_wf_drop_return {Store : Type} (wsize rsize : Z)
      (before after : World Store) :
  client after = C_idle ->
  engine_wf wsize rsize after ->
  engine_wf wsize rsize (drop_return before after).
Proof. intros Hc H. exact H. Qed.


